(** * AgentUse Runner (vscode-agentuse): a shallow embedding of extension.ts

    The extension has two revisions of [extension.ts] in the source tree.
    The current one imports its lookup tables from [./generated/schema]
    (written by [scripts/sync-cli]); the earlier one declares the tables
    inline and knows only the [mcp_servers:] spelling.  The embedding
    follows the current revision and keeps the earlier one where the two
    differ (module [Legacy]).

    Strings are [string]s of code units below 256; numbers that count
    lines, columns and depths are [nat]; an index that the source lets go
    negative ([position.line - 1]) is a [Z].  What the child process
    writes arrives as buffers of bytes, which the host decodes.  The
    providers are embedded twice: on the tables as values, and, for what
    depends on the tables being shared objects that a call could write
    to, on a heap of objects (module [Store]). *)

From Stdlib Require Import String Ascii List Bool Arith ZArith Lia.
From Stdlib Require Import DecimalString DecimalPos DecimalZ.
From stdpp Require Import base gmap strings.
Import ListNotations.

Local Open Scope string_scope.
Local Open Scope list_scope.
Local Open Scope nat_scope.

(** String concatenation unfolds on a constructor, as in the Standard
    Library. *)
#[local] Arguments String.append !s1 s2 : simpl nomatch.

(** ** JavaScript string primitives used by the extension *)

Module Js.

Definition LF : ascii := "010"%char.
Definition CR : ascii := "013"%char.

(** [\s] of a JavaScript regular expression, which is also the set that
    [String.prototype.trim] strips: TAB, LF, VT, FF, CR, SP and NBSP
    (the members of the set below 256). *)
Definition isSpace (c : ascii) : bool :=
  match nat_of_ascii c with
  | 9 | 10 | 11 | 12 | 13 | 32 | 160 => true
  | _ => false
  end.

(** [\w]: [A-Za-z0-9_]. *)
Definition isWord (c : ascii) : bool :=
  let n := nat_of_ascii c in
  ((65 <=? n) && (n <=? 90)) || ((97 <=? n) && (n <=? 122))
  || ((48 <=? n) && (n <=? 57)) || (n =? 95).

(** [s.startsWith(p)], also a regular expression [/^p/] for a literal [p]. *)
Fixpoint startsWith (p s : string) : bool :=
  match p, s with
  | EmptyString, _ => true
  | String a p', String b s' => Ascii.eqb a b && startsWith p' s'
  | String _ _, EmptyString => false
  end.

(** [s.endsWith(suffix)]. *)
Definition endsWith (s suffix : string) : bool :=
  (String.length suffix <=? String.length s)
  && String.eqb
       (substring (String.length s - String.length suffix)
                  (String.length suffix) s)
       suffix.

(** [s.substring(0, n)]; [n] beyond the end is clamped. *)
Definition substringTo (n : nat) (s : string) : string := substring 0 n s.

Fixpoint trimStart (s : string) : string :=
  match s with
  | EmptyString => EmptyString
  | String c r => if isSpace c then trimStart r else s
  end.

Fixpoint trimEnd (s : string) : string :=
  match s with
  | EmptyString => EmptyString
  | String c r =>
      match trimEnd r with
      | EmptyString => if isSpace c then EmptyString else String c EmptyString
      | r' => String c r'
      end
  end.

(** [s.trim()]. *)
Definition trim (s : string) : string := trimEnd (trimStart s).

(** A string is truthy when it is not empty. *)
Definition truthy (s : string) : bool := negb (String.eqb s "").

(** [/^\s/.test(s)]. *)
Definition startsWithSpace (s : string) : bool :=
  match s with
  | String c _ => isSpace c
  | EmptyString => false
  end.

(** [s.split(sep)] for a one-character separator: never an empty array. *)
Fixpoint split (sep : ascii) (s : string) : list string :=
  match s with
  | EmptyString => [EmptyString]
  | String c r =>
      if Ascii.eqb c sep then EmptyString :: split sep r
      else match split sep r with
           | h :: t => String c h :: t
           | [] => [String c EmptyString]
           end
  end.

(** [s.replace(/\n/g, '\r\n')]. *)
Fixpoint replaceLF (s : string) : string :=
  match s with
  | EmptyString => EmptyString
  | String c r =>
      if Ascii.eqb c LF then String CR (String LF (replaceLF r))
      else String c (replaceLF r)
  end.

(** [c.repeat(n)] for a one-character string. *)
Fixpoint repeat (c : ascii) (n : nat) : string :=
  match n with
  | O => EmptyString
  | S k => String c (repeat c k)
  end.

(** The length of the leading whitespace run, which is what the source's
    indentation pattern (start anchor, then any number of [\s]) captures. *)
Fixpoint leadingSpaces (s : string) : nat :=
  match s with
  | String c r => if isSpace c then S (leadingSpaces r) else 0
  | EmptyString => 0
  end.

(** The word matched by [/^(\w+):/]: the longest run of word characters
    at the start, when it is not empty and a colon follows it. *)
Fixpoint wordRun (s : string) : string * string :=
  match s with
  | String c r =>
      if isWord c then let '(w, rest) := wordRun r in (String c w, rest)
      else (EmptyString, s)
  | EmptyString => (EmptyString, EmptyString)
  end.

Definition matchKey (line : string) : option string :=
  match wordRun line with
  | (String c w, String colon _) =>
      if Ascii.eqb colon ":"%char then Some (String c w) else None
  | _ => None
  end.

(** A word: one or more word characters and nothing else. *)
Definition isWordString (s : string) : bool :=
  truthy s && forallb isWord (list_ascii_of_string s).

End Js.

(** ** Cursor classification inside the frontmatter *)

Module Blocks.
Import Js.

(** The body of the three classifiers' loops: one line, one update of
    [inBlock]. *)
Definition stepLine (opener : string -> bool) (inBlock : bool) (line : string) : bool :=
  if opener line then true
  else if inBlock && truthy (trim line) && negb (startsWithSpace line) then false
  else inBlock.

(** [for (let i = 0; i <= frontmatterLineIndex; i++)] over [lines]. *)
Definition scanLines (opener : string -> bool) (lines : list string) (upto : nat) : bool :=
  fold_left (stepLine opener) (firstn (S upto) lines) false.

Definition isInBlock (opener : string -> bool) (positionLine : nat) (frontmatter : string) : bool :=
  let frontmatterLineIndex := (Z.of_nat positionLine - 1)%Z in
  let lines := split LF frontmatter in
  if (frontmatterLineIndex <? 0)%Z || (Z.of_nat (List.length lines) <=? frontmatterLineIndex)%Z
  then false
  else scanLines opener lines (Z.to_nat frontmatterLineIndex).

(** [/^(mcp_servers|mcpServers):/] *)
Definition opensMcpServers (line : string) : bool :=
  startsWith "mcp_servers:" line || startsWith "mcpServers:" line.
(** [/^subagents:/] *)
Definition opensSubagents (line : string) : bool := startsWith "subagents:" line.
(** [/^tools:/] *)
Definition opensTools (line : string) : bool := startsWith "tools:" line.

Definition isInMcpServersBlock := isInBlock opensMcpServers.
Definition isInSubagentsBlock := isInBlock opensSubagents.
Definition isInToolsBlock := isInBlock opensTools.

(** The spec's words: a block terminator is a line that is not blank
    after trimming and does not begin with a whitespace character. *)
Definition isTerminator (line : string) : bool :=
  truthy (trim line) && negb (startsWithSpace line).

(** The spec's words: among lines [0..idx], the last line that is an
    opener or a terminator exists and is an opener. *)
Definition lastMarkIsOpener (opener : string -> bool) (lines : list string) (idx : nat) : Prop :=
  exists i line,
    i <= idx /\ nth_error lines i = Some line /\ opener line = true /\
    forall j l, i < j <= idx -> nth_error lines j = Some l ->
                opener l = false /\ isTerminator l = false.

End Blocks.

(** ** The lookup tables *)

Module ModelItem.
Record info := { reasoning : bool; toolCall : bool; contextLimit : nat }.
Record t := { label : string; detail : string; modelInfo : option info }.
End ModelItem.

Module FieldItem.
Record t := { label : string; detail : string; insertText : string;
              required : option bool }.
End FieldItem.

Module CommandItem.
Record t := { label : string; detail : string }.
End CommandItem.

Module MCPServerTemplate.
Record t := { detail : string; snippet : string }.
End MCPServerTemplate.

(** The five tables the providers read.  [COMMON_MCP_SERVERS] is an object
    literal; its entries are kept in insertion order. *)
Module Schema.
Record Tables := {
  MODELS : list ModelItem.t;
  FRONTMATTER_FIELDS : list FieldItem.t;
  MCP_SERVER_FIELDS : list FieldItem.t;
  MCP_COMMANDS : list CommandItem.t;
  COMMON_MCP_SERVERS : list (string * MCPServerTemplate.t)
}.
End Schema.

Module Text.
Definition nl : string := String Js.LF EmptyString.
Definition crlf : string := String Js.CR (String Js.LF EmptyString).
(** One double quote character. *)
Definition dq : string := String "034"%char EmptyString.
(** A word between double quotes. *)
Definition quoted (s : string) : string := dq +:+ s +:+ dq.
(** The lines of a template literal, joined by line feeds. *)
Definition unlines (ls : list string) : string := String.concat nl ls.
End Text.

Module Build.
Definition model (l d : string) : ModelItem.t :=
  {| ModelItem.label := l; ModelItem.detail := d; ModelItem.modelInfo := None |}.
Definition field (l d i : string) : FieldItem.t :=
  {| FieldItem.label := l; FieldItem.detail := d; FieldItem.insertText := i;
     FieldItem.required := None |}.
Definition requiredField (l d i : string) : FieldItem.t :=
  {| FieldItem.label := l; FieldItem.detail := d; FieldItem.insertText := i;
     FieldItem.required := Some true |}.
Definition command (l d : string) : CommandItem.t :=
  {| CommandItem.label := l; CommandItem.detail := d |}.
Definition template (d : string) (body : list string) : MCPServerTemplate.t :=
  {| MCPServerTemplate.detail := d; MCPServerTemplate.snippet := Text.unlines body |}.
(** A server started through [npx -y pkg], with trailing lines. *)
Definition npx (name pkg : string) (more : list string) : list string :=
  [ name +:+ ":";
    "    command: " +:+ Text.quoted "npx";
    "    args:";
    "      - " +:+ Text.quoted "-y";
    "      - " +:+ Text.quoted pkg ] ++ more.
Definition uvx (name pkg : string) (more : list string) : list string :=
  [ name +:+ ":";
    "    command: " +:+ Text.quoted "uvx";
    "    args:";
    "      - " +:+ Text.quoted pkg ] ++ more.
End Build.

(** The tables of the earlier revision, declared inline in extension.ts. *)
Module Legacy.
Import Text Build.

Definition MODELS : list ModelItem.t :=
  [ model "anthropic:claude-opus-4-1" "Most capable Claude model";
    model "anthropic:claude-sonnet-4-0" "Balanced performance and speed";
    model "anthropic:claude-3-5-haiku-latest" "Fast and cost-effective";
    model "openai:gpt-5" "Most capable OpenAI model";
    model "openai:gpt-5-mini" "Balanced OpenAI model";
    model "openai:gpt-5-nano" "Fast and lightweight OpenAI model";
    model "openai:gpt-4.1" "GPT-4.1 model";
    model "openai:gpt-4.1-mini" "Fast GPT-4.1 model";
    model "openai:o4-mini" "Reasoning model" ].

Definition FRONTMATTER_FIELDS : list FieldItem.t :=
  [ field "model" "LLM provider and model" "model: ";
    field "timeout" "Execution timeout in milliseconds" "timeout: ";
    field "maxSteps" "Maximum reasoning steps" "maxSteps: ";
    field "tools" "Custom tool references" ("tools:" +:+ nl +:+ "  - ");
    field "mcp_servers" "MCP server configurations" ("mcp_servers:" +:+ nl +:+ "  ");
    field "subagents" "Sub-agent definitions" ("subagents:" +:+ nl +:+ "  - path: ") ].

Definition MCP_SERVER_FIELDS : list FieldItem.t :=
  [ field "command" "Command to run (npx, node, uvx, uv)" "command: ";
    field "args" "Command arguments" ("args:" +:+ nl +:+ "      - ");
    field "requiredEnvVars" "Required environment variables"
          ("requiredEnvVars:" +:+ nl +:+ "      - ");
    field "allowedEnvVars" "Optional environment variables"
          ("allowedEnvVars:" +:+ nl +:+ "      - ");
    field "env" "Direct environment variables" ("env:" +:+ nl +:+ "      ");
    field "url" "Remote MCP server URL" "url: ";
    field "auth" "Authentication configuration"
          ("auth:" +:+ nl +:+ "      type: bearer" +:+ nl +:+ "      token: ${") ].

Definition MCP_COMMANDS : list CommandItem.t :=
  [ command "npx" "Run npm package";
    command "node" "Run Node.js script";
    command "uvx" "Run Python package";
    command "uv" "Run Python with uv" ].

Definition COMMON_MCP_SERVERS : list (string * MCPServerTemplate.t) :=
  [ ("filesystem", template "File system access"
       (npx "filesystem" "@modelcontextprotocol/server-filesystem"
            ["      - " +:+ quoted "./tmp"]));
    ("puppeteer", template "Browser automation"
       (npx "puppeteer" "@modelcontextprotocol/server-puppeteer" []));
    ("slack", template "Slack integration"
       (npx "slack" "@modelcontextprotocol/server-slack"
            ["    allowedEnvVars:"; "      - SLACK_BOT_TOKEN"; "      - SLACK_TEAM_ID"]));
    ("fetch", template "HTTP fetch capabilities" (uvx "fetch" "mcp-server-fetch" []));
    ("github", template "GitHub API access"
       (npx "github" "@modelcontextprotocol/server-github"
            ["    requiredEnvVars:"; "      - GITHUB_PERSONAL_ACCESS_TOKEN"]));
    ("memory", template "Persistent memory storage"
       (npx "memory" "@modelcontextprotocol/server-memory" []));
    ("brave-search", template "Brave search API"
       (npx "brave-search" "@modelcontextprotocol/server-brave-search"
            ["    requiredEnvVars:"; "      - BRAVE_API_KEY"]));
    ("google-maps", template "Google Maps API"
       (npx "google-maps" "@modelcontextprotocol/server-google-maps"
            ["    requiredEnvVars:"; "      - GOOGLE_MAPS_API_KEY"]));
    ("sqlite", template "SQLite database access"
       (uvx "sqlite" "mcp-server-sqlite"
            ["      - " +:+ quoted "--db-path"; "      - " +:+ quoted "./data.db"]));
    ("postgres", template "PostgreSQL database access"
       (npx "postgres" "@modelcontextprotocol/server-postgres"
            ["    requiredEnvVars:"; "      - POSTGRES_CONNECTION_STRING"]));
    ("exa", template "Exa search API"
       (npx "exa" "exa-mcp-server" ["    requiredEnvVars:"; "      - EXA_API_KEY"]));
    ("notion", template "Notion integration"
       (npx "notion" "@suekou/mcp-notion-server"
            ["    requiredEnvVars:"; "      - NOTION_API_KEY"]));
    ("slack-webhook", template "Slack webhook notifications"
       (npx "slack" "@agentuse/mcp-slack-webhook"
            ["    requiredEnvVars:"; "      - SLACK_WEBHOOK_URL"])) ].

Definition tables : Schema.Tables :=
  {| Schema.MODELS := MODELS;
     Schema.FRONTMATTER_FIELDS := FRONTMATTER_FIELDS;
     Schema.MCP_SERVER_FIELDS := MCP_SERVER_FIELDS;
     Schema.MCP_COMMANDS := MCP_COMMANDS;
     Schema.COMMON_MCP_SERVERS := COMMON_MCP_SERVERS |}.
End Legacy.

(** The tables of the current revision, as [scripts/sync-cli] writes them
    to [generated/schema].  [MODELS] is scraped from the command-line
    tool's own sources, which are not part of this repository: it is a
    parameter here. *)
Module Generated.
Import Text Build.

(** [parseFrontmatterFields], when the schema is found. *)
Definition FRONTMATTER_FIELDS : list FieldItem.t :=
  [ requiredField "model" "LLM provider and model (required)" "model: ";
    field "description" "Brief description of what the agent does" "description: ";
    field "timeout" "Execution timeout in seconds (default: 300)" "timeout: ";
    field "maxSteps" "Maximum reasoning steps (default: 100)" "maxSteps: ";
    field "openai" "OpenAI-specific options (reasoningEffort, textVerbosity)"
          ("openai:" +:+ nl +:+ "  reasoningEffort: ");
    field "mcpServers" "MCP server configurations" ("mcpServers:" +:+ nl +:+ "  ");
    field "subagents" "Sub-agent definitions" ("subagents:" +:+ nl +:+ "  - path: ");
    field "tools" "Custom tool configurations (filesystem, bash)"
          ("tools:" +:+ nl +:+ "  filesystem:" +:+ nl +:+ "    - path: ") ].

(** [parseMCPServerFields]. *)
Definition stdio : list FieldItem.t :=
  [ field "command" "Command to run (npx, node, uvx, uv)" "command: ";
    field "args" "Command arguments array" ("args:" +:+ nl +:+ "      - ");
    field "env" "Environment variables object" ("env:" +:+ nl +:+ "      ") ].
Definition http : list FieldItem.t :=
  [ field "url" "Remote MCP server URL (http:// or https://)" "url: ";
    field "sessionId" "Optional session identifier" "sessionId: ";
    field "auth" "Authentication configuration"
          ("auth:" +:+ nl +:+ "      type: bearer" +:+ nl +:+ "      token: ${env:");
    field "headers" "Custom HTTP headers" ("headers:" +:+ nl +:+ "      ") ].
Definition shared : list FieldItem.t :=
  [ field "requiredEnvVars" "Required environment variables (agent fails if missing)"
          ("requiredEnvVars:" +:+ nl +:+ "      - ");
    field "allowedEnvVars" "Optional environment variables (warns if missing)"
          ("allowedEnvVars:" +:+ nl +:+ "      - ");
    field "disallowedTools" "Tool patterns to exclude from this server"
          ("disallowedTools:" +:+ nl +:+ "      - ");
    field "toolTimeout" "Timeout for tool calls in milliseconds" "toolTimeout: " ].

(** [MCP_SERVER_FIELDS_ALL], which extension.ts imports as
    [MCP_SERVER_FIELDS]. *)
Definition MCP_SERVER_FIELDS_ALL : list FieldItem.t :=
  stdio
  ++ List.filter (fun f => negb (existsb (fun s => String.eqb (FieldItem.label s) (FieldItem.label f)) stdio)) http
  ++ shared.

Definition MCP_COMMANDS : list CommandItem.t :=
  [ command "npx" "Run npm package";
    command "node" "Run Node.js script";
    command "uvx" "Run Python package with uv";
    command "uv" "Run Python with uv" ].

Definition COMMON_MCP_SERVERS : list (string * MCPServerTemplate.t) :=
  [ ("filesystem", template "File system access"
       (npx "filesystem" "@modelcontextprotocol/server-filesystem"
            ["      - " +:+ quoted "${1:./tmp}"]));
    ("puppeteer", template "Browser automation"
       (npx "puppeteer" "@modelcontextprotocol/server-puppeteer" []));
    ("slack", template "Slack integration"
       (npx "slack" "@modelcontextprotocol/server-slack"
            ["    allowedEnvVars:"; "      - SLACK_BOT_TOKEN"; "      - SLACK_TEAM_ID"]));
    ("fetch", template "HTTP fetch capabilities" (uvx "fetch" "mcp-server-fetch" []));
    ("github", template "GitHub API access"
       (npx "github" "@modelcontextprotocol/server-github"
            ["    requiredEnvVars:"; "      - GITHUB_PERSONAL_ACCESS_TOKEN"]));
    ("memory", template "Persistent memory storage"
       (npx "memory" "@modelcontextprotocol/server-memory" []));
    ("brave-search", template "Brave search API"
       (npx "brave-search" "@modelcontextprotocol/server-brave-search"
            ["    requiredEnvVars:"; "      - BRAVE_API_KEY"]));
    ("google-maps", template "Google Maps API"
       (npx "google-maps" "@modelcontextprotocol/server-google-maps"
            ["    requiredEnvVars:"; "      - GOOGLE_MAPS_API_KEY"]));
    ("sqlite", template "SQLite database access"
       (uvx "sqlite" "mcp-server-sqlite"
            ["      - " +:+ quoted "--db-path"; "      - " +:+ quoted "${1:./data.db}"]));
    ("postgres", template "PostgreSQL database access"
       (npx "postgres" "@modelcontextprotocol/server-postgres"
            ["    requiredEnvVars:"; "      - POSTGRES_CONNECTION_STRING"]));
    ("exa", template "Exa search API"
       (npx "exa" "exa-mcp-server" ["    requiredEnvVars:"; "      - EXA_API_KEY"]));
    ("notion", template "Notion integration"
       (npx "notion" "@suekou/mcp-notion-server"
            ["    requiredEnvVars:"; "      - NOTION_API_KEY"]));
    ("slack-webhook", template "Slack webhook notifications"
       (npx "slack-webhook" "@agentuse/mcp-slack-webhook"
            ["    requiredEnvVars:"; "      - SLACK_WEBHOOK_URL"])) ].

Definition tables (models : list ModelItem.t) : Schema.Tables :=
  {| Schema.MODELS := models;
     Schema.FRONTMATTER_FIELDS := FRONTMATTER_FIELDS;
     Schema.MCP_SERVER_FIELDS := MCP_SERVER_FIELDS_ALL;
     Schema.MCP_COMMANDS := MCP_COMMANDS;
     Schema.COMMON_MCP_SERVERS := COMMON_MCP_SERVERS |}.
End Generated.

(** ** Exceptions and try blocks *)

Module Exn.

(** How a call ends: it returns a value or it throws. *)
Inductive outcome (A : Type) : Type :=
| Returned (a : A)
| Thrown (message : string).
Arguments Returned {A} a.
Arguments Thrown {A} message.

(** A run of statements over a local variable of type [S]: the variable
    keeps what was written to it when a statement throws. *)
Definition Block (S A : Type) : Type := S -> S * outcome A.

Definition ret {S A} (a : A) : Block S A := fun s => (s, Returned a).

Definition bind {S A B} (m : Block S A) (k : A -> Block S B) : Block S B :=
  fun s =>
    match m s with
    | (s', Returned a) => k a s'
    | (s', Thrown e) => (s', Thrown e)
    end.

(** A call whose result is used by the block. *)
Definition call {S A} (o : outcome A) : Block S A := fun s => (s, o).

(** An assignment to the local variable. *)
Definition modify {S} (f : S -> S) : Block S unit := fun s => (f s, Returned tt).

(** [for (const x of xs) body]. *)
Fixpoint forEach {S A} (xs : list A) (body : A -> Block S unit) : Block S unit :=
  match xs with
  | [] => ret tt
  | x :: rest => bind (body x) (fun _ => forEach rest body)
  end.

(** [try body catch handler]. *)
Definition tryCatch {S} (body : Block S unit) (handler : string -> Block S unit) : Block S unit :=
  fun s =>
    match body s with
    | (s', Returned _) => (s', Returned tt)
    | (s', Thrown e) => handler e s'
    end.

(** The statements of a function body that declares a local variable,
    runs [body] and ends with [return] of that variable. *)
Definition returning {S} (init : S) (body : Block S unit) : outcome S :=
  match body init with
  | (s, Returned _) => Returned s
  | (_, Thrown e) => Thrown e
  end.

End Exn.

(** ** What the extension sees of Node and of the editor *)

Module Host.
Import Exn.

(** [fs.Dirent], as far as the scan reads it. *)
Record Dirent := { name : string; isDirectory : bool }.

(** A [Buffer]: the bytes of one chunk that a stream delivers. *)
Definition Buffer : Type := list Byte.byte.

(** The functions of [fs], [path], [Buffer] and [vscode.workspace] that
    the extension calls.  [readdirSync] may throw.  [bufferToString] is
    [Buffer.prototype.toString]: Node's decoder, applied to the bytes of
    one buffer and to nothing else. *)
Record t := {
  readdirSync : string -> outcome (list Dirent);
  join : string -> string -> string;
  relative : string -> string -> string;
  dirname : string -> string;
  basename : string -> string;
  getWorkspaceFolder : string -> option string;
  firstWorkspaceFolder : option string;
  env : gmap string string;
  bufferToString : Buffer -> string
}.

Record Position := { line : nat; character : nat }.

(** [vscode.TextDocument].  The editor calls the providers with a
    position of the document, for which [lineAt] returns.  [wordAt] is
    [getText(getWordRangeAtPosition(position))]. *)
Record TextDocument := {
  getText : string;
  lineAt : nat -> string;
  offsetAt : Position -> nat;
  fsPath : string;
  wordAt : Position -> option string
}.

End Host.

(** ** Completion items *)

Module Item.
Inductive Kind := Value | Property | Snippet | Module_ | File.
Inductive Insert :=
| NoInsertText
| PlainText (s : string)
| SnippetString (s : string).
Record t := { label : string; kind : Kind; detail : string; insertText : Insert }.
End Item.

Definition createCompletion (label detail insertText : string) (kind : Item.Kind) : Item.t :=
  {| Item.label := label; Item.kind := kind; Item.detail := detail;
     Item.insertText := Item.PlainText insertText |}.

Definition createSnippetCompletion (label detail snippet : string) (kind : Item.Kind) : Item.t :=
  {| Item.label := label; Item.kind := kind; Item.detail := detail;
     Item.insertText := Item.SnippetString snippet |}.

(** ** Subagent file discovery *)

Module Discovery.
Import Js Exn.

(** The body of the loop over the directory's entries; [recurse] is the
    call for a subdirectory. *)
Definition visit (h : Host.t) (dir : string)
           (recurse : string -> outcome (list string))
           (entry : Host.Dirent) : Block (list string) unit :=
  if startsWith "." (Host.name entry) || String.eqb (Host.name entry) "node_modules"
  then ret tt
  else
    let fullPath := Host.join h dir (Host.name entry) in
    if Host.isDirectory entry then
      bind (call (recurse fullPath))
           (fun found => modify (fun files => files ++ found))
    else if endsWith (Host.name entry) ".agentuse" then
      modify (fun files => files ++ [fullPath])
    else ret tt.

(** The function below its depth test, with [files] as the local
    variable. *)
Definition scanDirectory (h : Host.t) (dir : string)
           (recurse : string -> outcome (list string)) : outcome (list string) :=
  returning []
    (tryCatch
       (bind (call (Host.readdirSync h dir))
             (fun entries => forEach entries (visit h dir recurse)))
       (fun _ => ret tt)).

(** Recursion on [maxDepth - currentDepth], the number of levels left:
    none left is the source's [currentDepth >= maxDepth].  The source's
    own equation is [findAgentUseFilesRecursive_unfold] below. *)
Fixpoint scanLevels (h : Host.t) (levels : nat) (dir : string) : outcome (list string) :=
  match levels with
  | O => Returned []
  | S below => scanDirectory h dir (scanLevels h below)
  end.

(** [currentDepth] defaults to 0 in the source; the one outside call
    passes a [maxDepth] of 3. *)
Definition findAgentUseFilesRecursive (h : Host.t) (dir : string)
           (maxDepth currentDepth : nat) : outcome (list string) :=
  scanLevels h (maxDepth - currentDepth) dir.

Definition fileItem (h : Host.t) (currentDir file : string) : Item.t :=
  {| Item.label := "./" +:+ Host.relative h currentDir file;
     Item.kind := Item.File;
     Item.detail := Host.basename h file;
     Item.insertText := Item.NoInsertText |}.

(** [getAgentUseFiles], with the method it calls for the scan as an
    argument. *)
Definition getAgentUseFilesWith
           (discover : string -> nat -> nat -> outcome (list string))
           (h : Host.t) (document : Host.TextDocument)
  : outcome (list Item.t) :=
  match Host.getWorkspaceFolder h (Host.fsPath document) with
  | None => Returned []
  | Some workspaceFolder =>
      let currentDir := Host.dirname h (Host.fsPath document) in
      returning []
        (tryCatch
           (bind (call (discover workspaceFolder 3 0))
                 (fun files =>
                    forEach files
                      (fun file => modify (fun items => items ++ [fileItem h currentDir file]))))
           (fun _ => ret tt))
  end.

Definition getAgentUseFiles (h : Host.t) (document : Host.TextDocument)
  : outcome (list Item.t) :=
  getAgentUseFilesWith (findAgentUseFilesRecursive h) h document.

(** *** The words of the specification *)

(** An entry the scan does not skip. *)
Definition visible (name : string) : bool :=
  negb (startsWith "." name || String.eqb name "node_modules").

(** What one entry of a readable directory contributes. *)
Definition contribution (h : Host.t) (dir : string) (below : string -> list string)
           (entry : Host.Dirent) : list string :=
  if visible (Host.name entry) then
    if Host.isDirectory entry then below (Host.join h dir (Host.name entry))
    else if endsWith (Host.name entry) ".agentuse"
         then [Host.join h dir (Host.name entry)]
         else []
  else [].

(** The files collected from the directories that can be read, [levels]
    levels deep: a directory that cannot be enumerated contributes
    nothing. *)
Fixpoint readableFiles (h : Host.t) (levels : nat) (dir : string) : list string :=
  match levels with
  | O => []
  | S below =>
      match Host.readdirSync h dir with
      | Returned entries => flat_map (contribution h dir (readableFiles h below)) entries
      | Thrown _ => []
      end
  end.

(** [dir] lists [entry]. *)
Definition lists (h : Host.t) (dir : string) (entry : Host.Dirent) : Prop :=
  exists entries, Host.readdirSync h dir = Returned entries /\ In entry entries.

(** The directory reached from [dir] through the subdirectories [dirs]. *)
Definition descend (h : Host.t) (dir : string) (dirs : list string) : string :=
  fold_left (Host.join h) dirs dir.

(** Each of [dirs] is a visible subdirectory listed by the directory
    before it. *)
Fixpoint chain (h : Host.t) (dir : string) (dirs : list string) : Prop :=
  match dirs with
  | [] => True
  | d :: rest =>
      visible d = true
      /\ lists h dir {| Host.name := d; Host.isDirectory := true |}
      /\ chain h (Host.join h dir d) rest
  end.

(** [path] names a visible file, with a name that ends in [.agentuse],
    fewer than [levels] subdirectories below [dir], all of them visible. *)
Definition agentFileWithin (h : Host.t) (levels : nat) (dir path : string) : Prop :=
  exists dirs name,
    List.length dirs < levels
    /\ chain h dir dirs
    /\ visible name = true
    /\ endsWith name ".agentuse" = true
    /\ lists h (descend h dir dirs) {| Host.name := name; Host.isDirectory := false |}
    /\ path = Host.join h (descend h dir dirs) name.

End Discovery.

(** ** The completion provider *)

Module Completion.
Import Js Exn Blocks.

(** The rest of [s] after the literal [p], when [s] starts with it. *)
Fixpoint stripPrefix (p s : string) : option string :=
  match p, s with
  | EmptyString, _ => Some s
  | String a p', String b s' => if Ascii.eqb a b then stripPrefix p' s' else None
  | String _ _, EmptyString => None
  end.

Definition allSpaces (s : string) : bool := String.eqb (trimStart s) "".

(** The patterns made of: start, any whitespace, a literal that begins
    with no whitespace, any whitespace, end.  The source has them for
    the literals [model:], [-] and [path:]. *)
Definition matchesKeyOnly (literal linePrefix : string) : bool :=
  match stripPrefix literal (trimStart linePrefix) with
  | Some rest => allSpaces rest
  | None => false
  end.

(** The pattern for [command:], which also lets one opening quote,
    double or single, stand before the end. *)
Definition matchesCommandValue (linePrefix : string) : bool :=
  match stripPrefix "command:" (trimStart linePrefix) with
  | Some rest =>
      let tail := trimStart rest in
      String.eqb tail "" || String.eqb tail Text.dq || String.eqb tail "'"
  | None => false
  end.

(** The frontmatter pattern: three dashes and a line feed at the start
    of the text, then the shortest content that is followed by a line
    feed and three dashes, or by the end of the text with at most one
    line feed before it.  The result is the content and the length of
    what follows it in the match. *)
Fixpoint frontmatterContent (rest : string) : string * nat :=
  if startsWith (Text.nl +:+ "---") rest then (EmptyString, 4)
  else if String.eqb rest Text.nl then (EmptyString, 1)
  else match rest with
       | EmptyString => (EmptyString, 0)
       | String c r => let '(content, closing) := frontmatterContent r in
                       (String c content, closing)
       end.

(** [text.match(...)]: the content (group 1) and the length of the whole
    match, or nothing. *)
Definition frontmatterMatch (text : string) : option (string * nat) :=
  match stripPrefix ("---" +:+ Text.nl) text with
  | Some rest =>
      let '(content, closing) := frontmatterContent rest in
      Some (content, 4 + String.length content + closing)
  | None => None
  end.

(** [getExistingFields]: the set of keys that start a frontmatter line. *)
Definition getExistingFields (frontmatter : string) : gset string :=
  fold_left
    (fun fields line =>
       match matchKey line with
       | Some key => {[ key ]} ∪ fields
       | None => fields
       end)
    (split LF frontmatter) ∅.

Definition startSnippet : string :=
  Text.unlines
    [ "---";
      "model: ${1|anthropic:claude-sonnet-4-0,anthropic:claude-opus-4-1,openai:gpt-5|}";
      "---"; ""; "$0" ].

Definition modelCompletions (T : Schema.Tables) : list Item.t :=
  map (fun m => createCompletion (ModelItem.label m) (ModelItem.detail m)
                                 (ModelItem.label m) Item.Value)
      (Schema.MODELS T).

Definition commandCompletions (T : Schema.Tables) : list Item.t :=
  map (fun c => createCompletion (CommandItem.label c) (CommandItem.detail c)
                                 (Text.quoted (CommandItem.label c)) Item.Value)
      (Schema.MCP_COMMANDS T).

Definition fieldCompletion (f : FieldItem.t) : Item.t :=
  createCompletion (FieldItem.label f) (FieldItem.detail f) (FieldItem.insertText f)
                   Item.Property.

Definition serverFieldCompletions (T : Schema.Tables) : list Item.t :=
  map fieldCompletion (Schema.MCP_SERVER_FIELDS T).

Definition topLevelCompletions (T : Schema.Tables) (frontmatter : string) : list Item.t :=
  let existingFields := getExistingFields frontmatter in
  map fieldCompletion
      (List.filter (fun f => negb (bool_decide (FieldItem.label f ∈ existingFields)))
              (Schema.FRONTMATTER_FIELDS T)).

(** The words of the specification: [label] occurs at the start of some
    frontmatter line, followed by a colon. *)
Definition declares (frontmatter label : string) : bool :=
  existsb (startsWith (label +:+ ":")) (split LF frontmatter).

(** The entries of [FRONTMATTER_FIELDS] whose label the frontmatter does
    not declare, in table order. *)
Definition undeclaredFields (T : Schema.Tables) (frontmatter : string) : list FieldItem.t :=
  List.filter (fun f => negb (declares frontmatter (FieldItem.label f)))
         (Schema.FRONTMATTER_FIELDS T).

(** The provider from the subagents block to its end, which the two
    revisions share. *)
Definition afterMcpServers (T : Schema.Tables) (h : Host.t) (document : Host.TextDocument)
           (frontmatter linePrefix : string) (indent : nat) (inSubagents inTools : bool)
  : outcome (list Item.t) :=
  let blank := String.eqb (trim linePrefix) "" in
  if inSubagents && (2 <=? indent) && matchesKeyOnly "-" linePrefix then
    Returned [createCompletion "path" "Path to subagent file" "path: ./" Item.Property]
  else if inSubagents && (2 <=? indent) && matchesKeyOnly "path:" linePrefix then
    Discovery.getAgentUseFiles h document
  else if inSubagents && (2 <=? indent) && blank then
    Returned [createCompletion "name" "Reference name for subagent" "name: " Item.Property]
  else if inTools && (2 <=? indent) && matchesKeyOnly "-" linePrefix then
    Returned []
  else if (indent =? 0) && blank then
    Returned (topLevelCompletions T frontmatter)
  else Returned [].

(** The provider, with the two places where the revisions differ left
    open: what opens the MCP servers block, and what is suggested in it
    ([None]: nothing is returned there and the provider goes on). *)
Definition provideWith
           (opensMcp : string -> bool)
           (inMcpServersBlock : Schema.Tables -> nat -> string -> option (list Item.t))
           (T : Schema.Tables) (h : Host.t)
           (document : Host.TextDocument) (position : Host.Position)
  : outcome (list Item.t) :=
  let text := Host.getText document in
  let lineText := Host.lineAt document (Host.line position) in
  let linePrefix := substringTo (Host.character position) lineText in
  match frontmatterMatch text with
  | None =>
      if (Host.line position =? 0) && String.eqb linePrefix "" then
        Returned [createSnippetCompletion "---" "Start frontmatter" startSnippet Item.Snippet]
      else Returned []
  | Some (frontmatter, frontmatterEnd) =>
      let cursorOffset := Host.offsetAt document position in
      if (cursorOffset <? 4) || (frontmatterEnd <? cursorOffset) then Returned []
      else
        let inMcpServers := isInBlock opensMcp (Host.line position) frontmatter in
        let inSubagents := isInSubagentsBlock (Host.line position) frontmatter in
        let inTools := isInToolsBlock (Host.line position) frontmatter in
        let indent := leadingSpaces linePrefix in
        if matchesKeyOnly "model:" linePrefix then Returned (modelCompletions T)
        else if matchesCommandValue linePrefix then Returned (commandCompletions T)
        else
          match (if inMcpServers then inMcpServersBlock T indent linePrefix else None) with
          | Some items => Returned items
          | None => afterMcpServers T h document frontmatter linePrefix indent
                                    inSubagents inTools
          end
  end.

(** Current revision: server fields at an indentation of four or more. *)
Definition mcpServerSuggestions (T : Schema.Tables) (indent : nat) (linePrefix : string)
  : option (list Item.t) :=
  if (4 <=? indent) && String.eqb (trim linePrefix) ""
  then Some (serverFieldCompletions T) else None.

Definition provideCompletionItems :=
  provideWith opensMcpServers mcpServerSuggestions.

End Completion.

(** The earlier revision of the provider. *)
Module LegacyCompletion.
Import Js Blocks Completion.

(** Only the [mcp_servers:] spelling opens the block. *)
Definition opensMcpServers (line : string) : bool := startsWith "mcp_servers:" line.
Definition isInMcpServersBlock := isInBlock opensMcpServers.

Definition serverTemplates (T : Schema.Tables) : list Item.t :=
  map (fun entry =>
         createSnippetCompletion (fst entry) (MCPServerTemplate.detail (snd entry))
                                 (MCPServerTemplate.snippet (snd entry)) Item.Module_)
      (Schema.COMMON_MCP_SERVERS T).

(** Server templates at an indentation of two, server fields at four or
    more. *)
Definition mcpServerSuggestions (T : Schema.Tables) (indent : nat) (linePrefix : string)
  : option (list Item.t) :=
  if (indent =? 2) && String.eqb (trim linePrefix) "" then Some (serverTemplates T)
  else if (4 <=? indent) && String.eqb (trim linePrefix) ""
       then Some (serverFieldCompletions T)
       else None.

Definition provideCompletionItems :=
  provideWith opensMcpServers mcpServerSuggestions.

End LegacyCompletion.

(** ** The hover provider *)

Module JsObject.

(** The names every object literal inherits from [Object.prototype]. *)
Definition prototypeKeys : list string :=
  [ "constructor"; "hasOwnProperty"; "isPrototypeOf"; "propertyIsEnumerable";
    "toLocaleString"; "toString"; "valueOf"; "__proto__";
    "__defineGetter__"; "__defineSetter__"; "__lookupGetter__"; "__lookupSetter__" ].

Inductive property (A : Type) : Type :=
| Own (value : A)
| Inherited
| Undefined.
Arguments Own {A} value.
Arguments Inherited {A}.
Arguments Undefined {A}.

Fixpoint ownProperty {A} (object : list (string * A)) (key : string) : option A :=
  match object with
  | [] => None
  | (k, v) :: rest => if String.eqb k key then Some v else ownProperty rest key
  end.

(** [object[key]]. *)
Definition get {A} (object : list (string * A)) (key : string) : property A :=
  match ownProperty object key with
  | Some v => Own v
  | None => if existsb (String.eqb key) prototypeKeys then Inherited else Undefined
  end.

(** [Object.keys(object)]. *)
Definition keys {A} (object : list (string * A)) : list string := map fst object.

End JsObject.

Module Hover.
Import Js Text JsObject.

(** [haystack.includes(needle)]. *)
Fixpoint includes (needle haystack : string) : bool :=
  startsWith needle haystack
  || match haystack with
     | String _ rest => includes needle rest
     | EmptyString => false
     end.

Definition code (s : string) : string := "`" +:+ s +:+ "`".
Definition fence : string := "```".

Definition fieldDocs : list (string * string) :=
  [ ("model", "**model** - The LLM provider and model to use." +:+ nl +:+ nl
              +:+ "Format: " +:+ code "provider:model-name" +:+ nl +:+ nl
              +:+ "Examples:" +:+ nl +:+ "- " +:+ code "anthropic:claude-sonnet-4-0"
              +:+ nl +:+ "- " +:+ code "openai:gpt-5");
    ("timeout", "**timeout** - Execution timeout in milliseconds." +:+ nl +:+ nl
                +:+ "Example: " +:+ code "timeout: 2000");
    ("maxSteps", "**maxSteps** - Maximum number of reasoning steps the agent can take."
                 +:+ nl +:+ nl +:+ "Example: " +:+ code "maxSteps: 200");
    ("tools", "**tools** - List of custom tools to make available to the agent."
              +:+ nl +:+ nl +:+ "Example:" +:+ nl
              +:+ unlines [fence +:+ "yaml"; "tools:"; "  - greet"; "  - file-ops.write"; fence]);
    ("mcp_servers", "**mcp_servers** - MCP (Model Context Protocol) server configurations."
                    +:+ nl +:+ nl +:+ "Provides tools and capabilities to the agent.");
    ("subagents", "**subagents** - Sub-agent definitions for delegating tasks."
                  +:+ nl +:+ nl +:+ "Example:" +:+ nl
                  +:+ unlines [fence +:+ "yaml"; "subagents:"; "  - path: ./helper.agentuse";
                               "    name: helper"; fence]);
    ("command", "**command** - Command to start the MCP server." +:+ nl +:+ nl
                +:+ "Options: " +:+ code "npx" +:+ ", " +:+ code "node" +:+ ", "
                +:+ code "uvx" +:+ ", " +:+ code "uv");
    ("args", "**args** - Arguments to pass to the MCP server command.");
    ("requiredEnvVars", "**requiredEnvVars** - Environment variables that must be set.");
    ("allowedEnvVars", "**allowedEnvVars** - Environment variables that can optionally be used.");
    ("url", "**url** - URL for remote MCP server proxy.");
    ("auth", "**auth** - Authentication configuration for remote MCP servers.") ].

(** What a hover shows: markdown text, or, when the word names a member
    of [Object.prototype], that member in the place of the text. *)
Inductive Contents :=
| Markdown (value : string)
| PrototypeMember (key : string).

Definition serverHover (word detail snippet : string) : string :=
  "**" +:+ word +:+ "** - " +:+ detail +:+ nl +:+ nl
  +:+ unlines [fence +:+ "yaml"; snippet; fence].

(** [fieldDocs[word]] when it is truthy. *)
Definition documented (word : string) : option Contents :=
  match get fieldDocs word with
  | Own text => if truthy text then Some (Markdown text) else None
  | Inherited => Some (PrototypeMember word)
  | Undefined => None
  end.

Definition modelHover (m : ModelItem.t) : string :=
  "**" +:+ ModelItem.label m +:+ "**" +:+ nl +:+ nl +:+ ModelItem.detail m.

Definition provideHover (T : Schema.Tables) (document : Host.TextDocument)
           (position : Host.Position) : option Contents :=
  let lineText := Host.lineAt document (Host.line position) in
  match Host.wordAt document position with
  | None => None
  | Some word =>
      match (if includes (word +:+ ":") lineText then documented word else None) with
      | Some contents => Some contents
      | None =>
          let modelInfo :=
            if includes "model:" lineText then
              find (fun m => String.eqb (ModelItem.label m) word
                             || includes (ModelItem.label m) lineText)
                   (Schema.MODELS T)
            else None in
          match modelInfo with
          | Some m => Some (Markdown (modelHover m))
          | None =>
              match get (Schema.COMMON_MCP_SERVERS T) word with
              | Own server =>
                  Some (Markdown (serverHover word (MCPServerTemplate.detail server)
                                              (MCPServerTemplate.snippet server)))
              | Inherited => Some (Markdown (serverHover word "undefined" "undefined"))
              | Undefined => None
              end
          end
      end
  end.

End Hover.

(** ** The pseudoterminal and the commands *)

Module Terminal.
Import Js Text.

(** [cp.ChildProcess] as the terminal reads it: the [killed] flag and
    which of the three streams exist.  [alive] is Node's side of the
    object: whether the process is still there to take a signal (it is
    not once the process has ended, or when it never started). *)
Record ChildProcess := {
  killed : bool;
  alive : bool;
  stdin : bool;
  stdout : bool;
  stderr : bool
}.

Record SpawnOptions := {
  shell : bool;
  cwd : option string;
  env : gmap string string
}.

Record Pty := { filePath : string; process : option ChildProcess }.

(** What the extension does to the outside, in the order it does it. *)
Inductive Effect :=
| Fire (text : string)
| Spawn (command : string) (args : list string) (options : SpawnOptions)
| Kill (signal : option string)
| StdinWrite (data : string)
| ShowErrorMessage (message : string)
| Save (path : string)
| CreateTerminal (name : string) (pty : Pty)
| Show (preserveFocus : bool)
| Dispose.

Definition rule : string := Js.repeat "="%char 80.

Definition spawnOptions (h : Host.t) : SpawnOptions :=
  {| shell := true;
     cwd := Host.firstWorkspaceFolder h;
     env := <["TERM" := "xterm-256color"]> (<["FORCE_COLOR" := "1"]> (Host.env h)) |}.

(** [new AgentUsePseudoterminal(filePath)] *)
Definition create (path : string) : Pty := {| filePath := path; process := None |}.

(** [open()]; [child] is what [cp.spawn] returns. *)
Definition open (h : Host.t) (child : ChildProcess) (t : Pty) : Pty * list Effect :=
  ({| filePath := filePath t; process := Some child |},
   [ Fire ("Running: agentuse run " +:+ quoted (filePath t) +:+ crlf);
     Fire (rule +:+ crlf +:+ crlf);
     Spawn "agentuse" ["run"; filePath t] (spawnOptions h) ]).

(** The listener of [stdout]'s [data], registered when the stream
    exists: [data] is the buffer of one chunk, decoded by itself. *)
Definition onStdout (h : Host.t) (t : Pty) (data : Host.Buffer) : list Effect :=
  match process t with
  | Some p => if stdout p then [Fire (replaceLF (Host.bufferToString h data))] else []
  | None => []
  end.

Definition onStderr (h : Host.t) (t : Pty) (data : Host.Buffer) : list Effect :=
  match process t with
  | Some p => if stderr p then [Fire (replaceLF (Host.bufferToString h data))] else []
  | None => []
  end.

(** A number in a template literal: an exit code is an integer of at
    most 32 bits, which JavaScript writes in decimal. *)
Definition showNumber (n : Z) : string :=
  NilZero.string_of_int (Z.to_int n).

(** The [code] that Node hands to the listener of [close]: the exit code
    of a child that ended by itself, [null] ([None]) for a child that a
    signal ended.  In a template literal [null] reads [null]. *)
Definition showCode (code : option Z) : string :=
  match code with
  | Some n => showNumber n
  | None => "null"
  end.

(** The listener of the process's [close]. *)
Definition onClose (t : Pty) (code : option Z) : list Effect :=
  match process t with
  | Some _ =>
      [ Fire (crlf +:+ rule +:+ crlf);
        Fire ("Process exited with code " +:+ showCode code +:+ crlf) ]
  | None => []
  end.

(** The listener of the process's [error]. *)
Definition onError (t : Pty) (message : string) : list Effect :=
  match process t with
  | Some _ => [Fire ("Error: " +:+ message +:+ crlf)]
  | None => []
  end.

(** What [kill] does to the object: Node sets the [killed] flag when
    the signal has been delivered, which needs a process that is alive;
    on a process that has ended the call returns [false] and leaves the
    flag as it was. *)
Definition kill (p : ChildProcess) : ChildProcess :=
  if alive p then
    {| killed := true; alive := alive p;
       stdin := stdin p; stdout := stdout p; stderr := stderr p |}
  else p.

(** The child ends, by itself or by a signal: from then on no signal
    reaches it. *)
Definition ended (t : Pty) : Pty :=
  {| filePath := filePath t;
     process :=
       option_map
         (fun p => {| killed := killed p; alive := false;
                      stdin := stdin p; stdout := stdout p; stderr := stderr p |})
         (process t) |}.

Definition CtrlC : string := String "003"%char EmptyString.

Definition handleInput (t : Pty) (data : string) : Pty * list Effect :=
  if String.eqb data CtrlC then
    match process t with
    | Some p =>
        if negb (killed p) then
          ({| filePath := filePath t; process := Some (kill p) |},
           [Kill (Some "SIGINT"); Fire ("^C" +:+ crlf)])
        else (t, [])
    | None => (t, [])
    end
  else
    match process t with
    | Some p => if stdin p then (t, [StdinWrite data]) else (t, [])
    | None => (t, [])
    end.

Definition close (t : Pty) : Pty * list Effect :=
  match process t with
  | Some p =>
      if negb (killed p) then
        ({| filePath := filePath t; process := Some (kill p) |}, [Kill None])
      else (t, [])
  | None => (t, [])
  end.

End Terminal.

(** ** The shell between [cp.spawn] and the command *)

Module Shell.
Import Js.

(** With the option [shell], Node does not start the command with the
    argument list it was given: it joins the command and the arguments
    with single spaces and runs the shell on that line ([/bin/sh -c line];
    the command interpreter on Windows). *)
Definition commandLine (command : string) (args : list string) : string :=
  String.concat " " (command :: args).

(** Characters that stand for themselves in a word of the shell:
    letters, digits, underscore, slash, dot and hyphen. *)
Definition plain (c : ascii) : bool :=
  isWord c || Ascii.eqb c "/" || Ascii.eqb c "." || Ascii.eqb c "-".

(** The fields of a line: its pieces between blanks, the empty ones
    dropped. *)
Definition fields (line : string) : list string :=
  List.filter truthy (split " " line).

(** What [sh -c line] executes for a line of plain characters and
    blanks: one simple command, whose name and arguments are the fields
    of the line.  Lines with anything else (quotes, expansions,
    operators) are outside this fragment. *)
Definition argv (line : string) : option (list string) :=
  if forallb (fun c => plain c || Ascii.eqb c " ") (list_ascii_of_string line)
  then Some (fields line) else None.

End Shell.

Module Commands.
Import Js Terminal.

(** [filePath.split('/').pop() || 'output'] *)
Definition fileNameOf (path : string) : string :=
  let popped := List.last (split "/"%char path) "" in
  if truthy popped then popped else "output".

(** The handler of [agentuse.run]; the argument is
    [vscode.window.activeTextEditor]'s document, if there is an editor. *)
Definition run (activeTextEditor : option Host.TextDocument) : list Effect :=
  match activeTextEditor with
  | None => [ShowErrorMessage "No active file"]
  | Some document =>
      let path := Host.fsPath document in
      if negb (endsWith path ".agentuse") then
        [ShowErrorMessage "Current file is not an .agentuse file"]
      else
        [ Save path;
          CreateTerminal ("AgentUse: " +:+ fileNameOf path) (create path);
          Show true ]
  end.

(** The handler of [agentuse.closeTerminal]; the argument is the name of
    [vscode.window.activeTerminal], if there is one. *)
Definition closeTerminal (activeTerminal : option string) : list Effect :=
  match activeTerminal with
  | Some name => if startsWith "AgentUse:" name then [Dispose] else []
  | None => []
  end.

(** The terminals an effect list creates. *)
Definition created (effects : list Effect) : list Pty :=
  omap (fun e => match e with CreateTerminal _ pty => Some pty | _ => None end) effects.

(** The processes an effect list spawns: command and arguments. *)
Definition spawned (effects : list Effect) : list (string * list string) :=
  omap (fun e => match e with Spawn c a _ => Some (c, a) | _ => None end) effects.

Definition saved (effects : list Effect) : list string :=
  omap (fun e => match e with Save p => Some p | _ => None end) effects.

(** What each spawn of an effect list executes, name first: the command
    and the argument list as they are, or, with the option [shell], what
    the shell makes of the joined line ([None] for a line outside the
    fragment of [Shell.argv]). *)
Definition executed (effects : list Effect) : list (option (list string)) :=
  omap (fun e =>
          match e with
          | Spawn command args options =>
              Some (if shell options
                    then Shell.argv (Shell.commandLine command args)
                    else Some (command :: args))
          | _ => None
          end) effects.

(** One run action from the button to the running process: the command
    handler, then the editor opens each terminal the handler created;
    [child] is what [cp.spawn] returns to [open]. *)
Definition runAction (h : Host.t) (child : ChildProcess)
           (activeTextEditor : option Host.TextDocument) : list Effect :=
  let effects := run activeTextEditor in
  effects ++ concat (map (fun pty => snd (open h child pty)) (created effects)).

End Commands.

(** ** The activated extension: tables, terminals, requests *)

Module Extension.
Import Exn Terminal.

(** The module-level state: the imported tables and the terminals the
    run command has created. *)
Record State := { tables : Schema.Tables; terminals : list Pty }.

Definition Provider : Type :=
  Schema.Tables -> Host.t -> Host.TextDocument -> Host.Position -> outcome (list Item.t).

(** What the editor and the child process ask of the extension.
    [Exited] is the end of the child, for which the extension has no
    listener; [close] is emitted after it, so that [Closed] finds the
    child ended too. *)
Inductive Request :=
| Complete (document : Host.TextDocument) (position : Host.Position)
| HoverAt (document : Host.TextDocument) (position : Host.Position)
| Run (activeTextEditor : option Host.TextDocument)
| CloseTerminal (activeTerminal : option string)
| Open (terminal : nat) (child : ChildProcess)
| Input (terminal : nat) (data : string)
| Stdout (terminal : nat) (chunk : Host.Buffer)
| Stderr (terminal : nat) (chunk : Host.Buffer)
| Closed (terminal : nat) (code : option Z)
| Failed (terminal : nat) (message : string)
| Close (terminal : nat)
| Exited (terminal : nat).

Inductive Response :=
| Items (result : outcome (list Item.t))
| Hovered (result : option Hover.Contents)
| Did (effects : list Effect).

(** A call on the terminal with index [i]; the terminal is replaced by
    what the call leaves. *)
Definition onTerminal (s : State) (i : nat) (f : Pty -> Pty * list Effect)
  : State * Response :=
  match terminals s !! i with
  | Some t =>
      let '(t', effects) := f t in
      ({| tables := tables s; terminals := <[ i := t' ]> (terminals s) |}, Did effects)
  | None => (s, Did [])
  end.

Definition handleWith (provide : Provider) (h : Host.t) (s : State) (r : Request)
  : State * Response :=
  match r with
  | Complete document position => (s, Items (provide (tables s) h document position))
  | HoverAt document position => (s, Hovered (Hover.provideHover (tables s) document position))
  | Run activeTextEditor =>
      let effects := Commands.run activeTextEditor in
      ({| tables := tables s; terminals := terminals s ++ Commands.created effects |},
       Did effects)
  | CloseTerminal activeTerminal => (s, Did (Commands.closeTerminal activeTerminal))
  | Open i child => onTerminal s i (open h child)
  | Input i data => onTerminal s i (fun t => handleInput t data)
  | Stdout i chunk => onTerminal s i (fun t => (t, onStdout h t chunk))
  | Stderr i chunk => onTerminal s i (fun t => (t, onStderr h t chunk))
  | Closed i code => onTerminal s i (fun t => (ended t, onClose t code))
  | Failed i message => onTerminal s i (fun t => (t, onError t message))
  | Close i => onTerminal s i close
  | Exited i => onTerminal s i (fun t => (ended t, []))
  end.

Definition handle := handleWith Completion.provideCompletionItems.
Definition handleLegacy := handleWith LegacyCompletion.provideCompletionItems.

(** The state after a sequence of requests. *)
Definition after (provide : Provider) (h : Host.t) (s : State) (requests : list Request) : State :=
  fold_left (fun s r => fst (handleWith provide h s r)) requests s.

(** The state when the module has been loaded. *)
Definition loaded (T : Schema.Tables) : State := {| tables := T; terminals := [] |}.

(** The labels of a table. *)
Definition modelLabels (T : Schema.Tables) := map ModelItem.label (Schema.MODELS T).
Definition fieldLabels (T : Schema.Tables) := map FieldItem.label (Schema.FRONTMATTER_FIELDS T).
Definition serverFieldLabels (T : Schema.Tables) := map FieldItem.label (Schema.MCP_SERVER_FIELDS T).
Definition commandLabels (T : Schema.Tables) := map CommandItem.label (Schema.MCP_COMMANDS T).
Definition serverNames (T : Schema.Tables) := JsObject.keys (Schema.COMMON_MCP_SERVERS T).

Definition distinctKeys (T : Schema.Tables) : Prop :=
  NoDup (modelLabels T) /\ NoDup (fieldLabels T) /\ NoDup (serverFieldLabels T)
  /\ NoDup (commandLabels T) /\ NoDup (serverNames T).

End Extension.

(** ** A small workspace to run the definitions on *)

Module Fixture.
Import Exn Text.

Definition entry (n : string) (d : bool) : Host.Dirent :=
  {| Host.name := n; Host.isDirectory := d |}.

(** A workspace [/ws] with an agent at the top, one in [agents], a
    directory that cannot be read, and entries the scan skips. *)
Definition readdir (dir : string) : outcome (list Host.Dirent) :=
  if String.eqb dir "/ws" then
    Returned [ entry "main.agentuse" false; entry "README.md" false;
               entry ".git" true; entry "node_modules" true;
               entry "agents" true; entry "locked" true ]
  else if String.eqb dir "/ws/agents" then
    Returned [ entry "helper.agentuse" false; entry ".hidden.agentuse" false;
               entry "deep" true ]
  else if String.eqb dir "/ws/agents/deep" then
    Returned [ entry "third.agentuse" false; entry "deeper" true ]
  else if String.eqb dir "/ws/agents/deep/deeper" then
    Returned [ entry "fourth.agentuse" false ]
  else if String.eqb dir "/ws/locked" then Thrown "EACCES"
  else Thrown "ENOENT".

(** The text of a chunk of ASCII bytes, where every decoding that Node
    has, UTF-8 first, gives each byte the character of its code.  The
    sample host decodes every buffer that way. *)
Definition asciiText (data : Host.Buffer) : string := string_of_list_byte data.

(** The bytes of a text of ASCII characters. *)
Definition bytes (text : string) : Host.Buffer := list_byte_of_string text.

Definition host : Host.t :=
  {| Host.readdirSync := readdir;
     Host.join := fun a b => a +:+ "/" +:+ b;
     Host.relative := fun from to => to;
     Host.dirname := fun p => "/ws";
     Host.basename := fun p => List.last (Js.split "/"%char p) "";
     Host.getWorkspaceFolder := fun p => if Js.startsWith "/ws/" p then Some "/ws" else None;
     Host.firstWorkspaceFolder := Some "/ws";
     Host.env := ∅;
     Host.bufferToString := asciiText |}.

(** A document over a text with line feeds between its lines. *)
Definition offsetOf (lines : list string) (p : Host.Position) : nat :=
  list_sum (map (fun l => S (String.length l)) (firstn (Host.line p) lines))
  + Nat.min (Host.character p) (String.length (nth (Host.line p) lines "")).

Definition textDocument (path text : string) : Host.TextDocument :=
  {| Host.getText := text;
     Host.lineAt := fun n => nth n (Js.split Js.LF text) "";
     Host.offsetAt := offsetOf (Js.split Js.LF text);
     Host.fsPath := path;
     Host.wordAt := fun _ => None |}.

Definition at_ (l c : nat) : Host.Position := {| Host.line := l; Host.character := c |}.

Definition agentFrontmatter : string :=
  unlines [ "model: openai:gpt-5"; "mcpServers:"; "  fetch:"; "    ";
            "subagents:"; "  - path: ./helper.agentuse"; "" ].

Definition agentText : string :=
  unlines [ "---"; agentFrontmatter; "---"; "Do the task." ].

Definition agent : Host.TextDocument := textDocument "/ws/main.agentuse" agentText.
Definition notes : Host.TextDocument := textDocument "/ws/notes.md" "notes".

Definition child : Terminal.ChildProcess :=
  {| Terminal.killed := false; Terminal.alive := true; Terminal.stdin := true;
     Terminal.stdout := true; Terminal.stderr := true |}.

Definition running : Terminal.Pty :=
  fst (Terminal.open host child (Terminal.create "/ws/main.agentuse")).

End Fixture.

(** ** The inline completion provider (current revision) *)

Module Inline.
Import Js Text Blocks Completion.

(** [vscode.InlineCompletionItem]: the text and the range it replaces. *)
Record Item := { insertText : string; range : Host.Position * Host.Position }.

(** The patterns made of: start, a literal, any whitespace, end.  The
    source has them for [tools:] and [mcpServers:]. *)
Definition isBareKey (key line : string) : bool :=
  match stripPrefix key line with
  | Some rest => allSpaces rest
  | None => false
  end.

(** The loop that walks back over blank lines.  [bound] is
    [prevLineIndex + 1]; the result is [lines[prevLineIndex]] when the
    loop stops at an index that is not negative.  The loop runs below the
    bounds test, where every index it reads is in the list. *)
Fixpoint previousNonBlank (lines : list string) (bound : nat) : option string :=
  match bound with
  | O => None
  | S k =>
      match nth_error lines k with
      | Some line => if String.eqb (trim line) "" then previousNonBlank lines k else Some line
      | None => None
      end
  end.

Definition toolsCompletion (indent : string) : string :=
  "filesystem:" +:+ nl +:+ indent +:+ "  - path: ${root}/" +:+ nl
  +:+ indent +:+ "    permissions:" +:+ nl +:+ indent +:+ "      - read".

Definition serverCompletion (indent : string) : string :=
  "fetch:" +:+ nl +:+ indent +:+ "  command: " +:+ quoted "uvx" +:+ nl
  +:+ indent +:+ "  args:" +:+ nl +:+ indent +:+ "    - " +:+ quoted "mcp-server-fetch".

Definition itemAt (position : Host.Position) (completion : string) : Item :=
  {| insertText := completion; range := (position, position) |}.

(** The part of the provider under [frontmatterLineIndex >= 0 &&
    frontmatterLineIndex < lines.length]: what it returns there, or
    nothing when it falls through. *)
Definition afterKey (lines : list string) (frontmatterLineIndex : Z)
           (linePrefix : string) (position : Host.Position) : option (list Item) :=
  if (0 <=? frontmatterLineIndex)%Z
     && (frontmatterLineIndex <? Z.of_nat (List.length lines))%Z
  then
    match previousNonBlank lines (Z.to_nat frontmatterLineIndex) with
    | Some prevLine =>
        if isBareKey "tools:" prevLine && allSpaces linePrefix then
          Some [itemAt position (toolsCompletion linePrefix)]
        else if isBareKey "mcpServers:" prevLine && allSpaces linePrefix then
          Some [itemAt position (serverCompletion linePrefix)]
        else None
    | None => None
    end
  else None.

(** [isInBlockContext]: the last key that starts a line up to the index
    is one of [blockNames]. *)
Definition isInBlockContext (frontmatter : string) (lineIndex : Z)
           (blockNames : list string) : bool :=
  let lines := split LF frontmatter in
  if (lineIndex <? 0)%Z || (Z.of_nat (List.length lines) <=? lineIndex)%Z then false
  else
    let currentBlock :=
      fold_left (fun current line =>
                   match matchKey line with
                   | Some key => Some key
                   | None => current
                   end)
                (firstn (S (Z.to_nat lineIndex)) lines) None in
    match currentBlock with
    | Some block => existsb (String.eqb block) blockNames
    | None => false
    end.

Definition provideInlineCompletionItems
           (document : Host.TextDocument) (position : Host.Position) : list Item :=
  let text := Host.getText document in
  let lineText := Host.lineAt document (Host.line position) in
  let linePrefix := substringTo (Host.character position) lineText in
  match frontmatterMatch text with
  | None => []
  | Some (frontmatter, frontmatterEnd) =>
      let cursorOffset := Host.offsetAt document position in
      if (cursorOffset <? 4) || (frontmatterEnd <? cursorOffset) then []
      else
        let lines := split LF frontmatter in
        let frontmatterLineIndex := (Z.of_nat (Host.line position) - 1)%Z in
        match afterKey lines frontmatterLineIndex linePrefix position with
        | Some items => items
        | None =>
            if isInBlockContext frontmatter frontmatterLineIndex
                                ["tools"; "mcpServers"; "mcp_servers"; "subagents"]
            then [] else []
        end
  end.

(** *** In words *)

(** Line [j] is the nearest line above line [idx] that is not blank. *)
Definition nearestAbove (lines : list string) (idx : nat) (line : string) : Prop :=
  exists j,
    j < idx /\ nth_error lines j = Some line /\ trim line <> ""
    /\ forall k l, j < k < idx -> nth_error lines k = Some l -> trim l = "".

End Inline.

(** ** The effects of a run of requests *)

Module Trace.
Import Terminal Extension.

Definition effectsOf (r : Response) : list Effect :=
  match r with
  | Did effects => effects
  | _ => []
  end.

(** Everything the extension does to the outside while it serves
    [requests], in order. *)
Fixpoint effects (provide : Provider) (h : Host.t) (s : State) (requests : list Request)
  : list Effect :=
  match requests with
  | [] => []
  | r :: rest =>
      effectsOf (snd (handleWith provide h s r))
      ++ effects provide h (fst (handleWith provide h s r)) rest
  end.

Definition isOpen (r : Request) : bool :=
  match r with
  | Open _ _ => true
  | _ => false
  end.

(** An effect on the child process or on the display. *)
Definition touchesProcess (e : Effect) : bool :=
  match e with
  | Fire _ | Spawn _ _ _ | Kill _ | StdinWrite _ => true
  | _ => false
  end.

End Trace.

(** ** The generated schema's combined field list, for any three lists *)

Module Combined.

(** [MCP_SERVER_FIELDS_ALL] as the generated file computes it from
    [MCP_SERVER_FIELDS]. *)
Definition fieldsAll (stdio http shared : list FieldItem.t) : list FieldItem.t :=
  stdio
  ++ List.filter
       (fun f => negb (existsb (fun s => String.eqb (FieldItem.label s) (FieldItem.label f))
                               stdio))
       http
  ++ shared.

Definition labels (fields : list FieldItem.t) : list string := map FieldItem.label fields.

End Combined.

(** ** More sample inputs *)

Module Samples.
Import Text.

(** A one-line document with the cursor on [word]. *)
Definition hovered (text word : string) : Host.TextDocument :=
  {| Host.getText := text;
     Host.lineAt := fun n => nth n (Js.split Js.LF text) "";
     Host.offsetAt := Fixture.offsetOf (Js.split Js.LF text);
     Host.fsPath := "/ws/main.agentuse";
     Host.wordAt := fun _ => Some word |}.

(** A host whose environment sets two variables, one of which the
    terminal overrides. *)
Definition hostWithEnv : Host.t :=
  {| Host.readdirSync := Fixture.readdir;
     Host.join := Host.join Fixture.host;
     Host.relative := Host.relative Fixture.host;
     Host.dirname := Host.dirname Fixture.host;
     Host.basename := Host.basename Fixture.host;
     Host.getWorkspaceFolder := Host.getWorkspaceFolder Fixture.host;
     Host.firstWorkspaceFolder := Some "/ws";
     Host.env := <["TERM" := "dumb"]> (<["PATH" := "/usr/bin"]> ∅);
     Host.bufferToString := Host.bufferToString Fixture.host |}.

Definition toolsFrontmatter : string :=
  unlines [ "model: x"; "tools:"; ""; "  " ].

Definition toolsText : string := unlines [ "---"; toolsFrontmatter; "---" ].

Definition toolsDocument : Host.TextDocument :=
  Fixture.textDocument "/ws/main.agentuse" toolsText.



(** A file of models in the shape that [parseModels] scrapes, and the
    same file with an entry more, an alias that has the [id] of the
    first entry. *)
Definition modelEntry (key id name reasoning toolCall context : string) : list string :=
  [ "    '" +:+ key +:+ "': {";
    "      id: '" +:+ id +:+ "',";
    "      name: '" +:+ name +:+ "',";
    "      reasoning: " +:+ reasoning +:+ ",";
    "      toolCall: " +:+ toolCall +:+ ",";
    "      limit: {";
    "        context: " +:+ context +:+ ",";
    "        output: 32000,";
    "      },";
    "    }," ].

Definition registryOf (alias : list string) : string :=
  unlines
    ([ "export const models = {"; "  anthropic: {" ]
     ++ modelEntry "claude-opus-4-1" "claude-opus-4-1" "Claude Opus 4.1" "true" "true" "200000"
     ++ alias
     ++ [ "  },"; "  openai: {" ]
     ++ modelEntry "gpt-5" "gpt-5" "GPT-5" "true" "false" "400000"
     ++ [ "  },"; "};" ]).

Definition registry : string := registryOf [].

Definition registryWithAlias : string :=
  registryOf (modelEntry "claude-opus-latest" "claude-opus-4-1" "Claude Opus (latest)"
                         "true" "true" "200000").

(** A comparison of strings by their code units, in the place of
    [localeCompare]. *)
Definition compareUnits (a b : string) : Z :=
  match String.compare a b with
  | Lt => (-1)%Z
  | Eq => 0%Z
  | Gt => 1%Z
  end.

(** A document with the cursor after [model:], inside the
    frontmatter. *)
Definition modelDocument : Host.TextDocument :=
  Fixture.textDocument "/ws/main.agentuse" (unlines [ "---"; "model: "; "---" ]).

(** A document with a line for every branch of the completion
    providers, under the key that opens the servers' block in one
    revision or the other, and a grid of cursor positions over it and
    past its end. *)
Definition branches (path serversKey : string) : Host.TextDocument :=
  Fixture.textDocument path
    (unlines [ "---"; "model: openai:gpt-5"; serversKey; "  fetch:";
               "    command: " +:+ dq; "    "; "  "; "subagents:"; "  - "; "    path: ";
               "  "; "tools:"; "  - "; ""; "x"; "---"; "body" ]).

Definition grid : list Host.Position :=
  flat_map (fun l => map (fun c => Fixture.at_ l c) [0; 2; 4; 7; 10; 14]) (seq 0 18).

(** Lines with the word under the cursor. *)
Definition hoveredWords : list (string * string) :=
  [ ("model: openai:gpt-5", "model"); ("model: openai:gpt-5-mini", "gpt");
    ("model: openai:gpt-5-mini", "openai:gpt-5-mini"); ("  fetch:", "fetch");
    ("toString: x", "toString"); ("  x", "constructor"); ("zzz", "zzz");
    ("timeout: 3", "timeout"); ("model: nothing", "nothing"); ("model", "model");
    ("  github:", "github") ].

End Samples.

(** ** scripts/sync-cli: the tools configuration *)

Module SyncCli.
Import Js Text Build Completion.

(** The literal part of the pattern that finds the permission schema, up
    to and with the opening bracket of the array. *)
Definition permissionMarker : string := "FilesystemPermissionSchema = z.enum([".

(** The longest run of characters other than a closing bracket, and what
    follows it. *)
Fixpoint runUntilBracket (s : string) : string * string :=
  match s with
  | String c r =>
      if Ascii.eqb c "]"%char then (EmptyString, s)
      else let '(run, rest) := runUntilBracket r in (String c run, rest)
  | EmptyString => (EmptyString, EmptyString)
  end.

(** The pattern tried at the start of [s]: the marker, one or more
    characters other than a closing bracket, then a closing bracket and a
    closing parenthesis.  The result is the captured run. *)
Definition permissionsAt (s : string) : option string :=
  match stripPrefix permissionMarker s with
  | Some rest =>
      let '(run, after) := runUntilBracket rest in
      if truthy run && startsWith "])" after then Some run else None
  | None => None
  end.

(** [content.match(pattern)]: the leftmost start at which the pattern
    matches. *)
Fixpoint matchPermissions (content : string) : option string :=
  match permissionsAt content with
  | Some captured => Some captured
  | None =>
      match content with
      | String _ rest => matchPermissions rest
      | EmptyString => None
      end
  end.

(** The global replacement of every single and every double quote by
    nothing. *)
Fixpoint removeQuotes (s : string) : string :=
  match s with
  | String c r =>
      if Ascii.eqb c "'"%char || Ascii.eqb c "034"%char then removeQuotes r
      else String c (removeQuotes r)
  | EmptyString => EmptyString
  end.

Definition parsePermissions (captured : string) : list string :=
  map (fun p => removeQuotes (trim p)) (split ","%char captured).

Record ToolsConfig := {
  permissions : list string;
  filesystemFields : list FieldItem.t;
  bashFields : list FieldItem.t
}.

Definition parseToolsConfig (content : string) : ToolsConfig :=
  let permissions :=
    match matchPermissions content with
    | Some captured => parsePermissions captured
    | None => ["read"; "write"; "edit"]
    end in
  {| permissions := permissions;
     filesystemFields :=
       [ field "path" "Single path to allow access" "path: ${root}/";
         field "paths" "Multiple paths to allow access" ("paths:" +:+ nl +:+ "        - ");
         field "permissions" ("Allowed operations: " +:+ String.concat ", " permissions)
               ("permissions:" +:+ nl +:+ "        - read") ];
     bashFields :=
       [ field "commands" "Allowed command patterns (e.g., git:*, npm:run:*)"
               ("commands:" +:+ nl +:+ "      - ");
         field "timeout" "Command execution timeout in milliseconds" "timeout: ";
         field "allowedPaths" "Paths that commands can access"
               ("allowedPaths:" +:+ nl +:+ "      - ") ] |}.

(** *** In words *)

(** A name that can stand between quotes in the array: no comma, no
    closing bracket, no quote. *)
Definition plainName (name : string) : bool :=
  forallb (fun c => negb (Ascii.eqb c ","%char || Ascii.eqb c "]"%char
                          || Ascii.eqb c "'"%char || Ascii.eqb c "034"%char))
          (list_ascii_of_string name).

(** The array's elements as the tool's source writes them: each name in
    single quotes, a comma and a space between. *)
Definition writtenNames (names : list string) : string :=
  String.concat ", " (map (fun n => "'" +:+ n +:+ "'") names).

(** The marker without its last character. *)
Definition markerStem : string := "FilesystemPermissionSchema = z.enum(".

End SyncCli.

(** ** scripts/sync-cli: the models of the command-line tool *)

Module SyncModels.
Import Js Text Completion Hover.

(** What the model pattern captures: the key of the entry, then the
    values of [id], [name], [reasoning], [toolCall] and [context]. *)
Record Captures := {
  key : string;
  id : string;
  name : string;
  reasoning : string;
  toolCall : string;
  context : string
}.

(** The run of characters that are no quote, up to the quote that ends
    it. *)
Fixpoint untilQuote (s : string) : option (string * string) :=
  match s with
  | EmptyString => None
  | String c r =>
      if Ascii.eqb c "'" then Some (EmptyString, r)
      else match untilQuote r with
           | Some (run, rest) => Some (String c run, rest)
           | None => None
           end
  end.

(** A quote, one or more characters that are no quote, a quote: the
    text between the quotes and what follows. *)
Definition quotedText (s : string) : option (string * string) :=
  match stripPrefix "'" s with
  | Some r =>
      match untilQuote r with
      | Some (String c run, rest) => Some (String c run, rest)
      | _ => None
      end
  | None => None
  end.

(** The alternative of [true] and [false]. *)
Definition booleanText (s : string) : option (string * string) :=
  match stripPrefix "true" s with
  | Some r => Some ("true", r)
  | None =>
      match stripPrefix "false" s with
      | Some r => Some ("false", r)
      | None => None
      end
  end.

Definition isDigit (c : ascii) : bool :=
  (48 <=? nat_of_ascii c) && (nat_of_ascii c <=? 57).

Fixpoint digitRun (s : string) : string * string :=
  match s with
  | String c r =>
      if isDigit c then let '(digits, rest) := digitRun r in (String c digits, rest)
      else (EmptyString, s)
  | EmptyString => (EmptyString, EmptyString)
  end.

(** One or more digits, as many as there are. *)
Definition digitsText (s : string) : option (string * string) :=
  match digitRun s with
  | (String c digits, rest) => Some (String c digits, rest)
  | _ => None
  end.

(** The end of the pattern at the start of [s]: [context:], any
    whitespace, digits, a comma. *)
Definition contextAt (s : string) : option (string * string) :=
  s ← stripPrefix "context:" s;
  '(digits, s) ← digitsText (trimStart s);
  s ← stripPrefix "," s;
  Some (digits, s).

(** The shortest run of any characters before the end of the pattern:
    the first place where [contextAt] matches. *)
Fixpoint findContext (s : string) : option (string * string) :=
  match contextAt s with
  | Some found => Some found
  | None =>
      match s with
      | String _ r => findContext r
      | EmptyString => None
      end
  end.

(** [modelBlockRegex] at the start of [s]: the captures and what
    follows the match.  Each run of whitespace is followed by a
    character that is none, and each quoted text and digit run by a
    character that cannot be part of it, so that the longest run is the
    only one that lets the pattern go on. *)
Definition blockAt (s : string) : option (Captures * string) :=
  '(key, s) ← quotedText s;
  s ← stripPrefix ":" s;
  s ← stripPrefix "{" (trimStart s);
  s ← stripPrefix "id:" (trimStart s);
  '(id, s) ← quotedText (trimStart s);
  s ← stripPrefix "," s;
  s ← stripPrefix "name:" (trimStart s);
  '(name, s) ← quotedText (trimStart s);
  s ← stripPrefix "," s;
  s ← stripPrefix "reasoning:" (trimStart s);
  '(reasoning, s) ← booleanText (trimStart s);
  s ← stripPrefix "," s;
  s ← stripPrefix "toolCall:" (trimStart s);
  '(toolCall, s) ← booleanText (trimStart s);
  s ← stripPrefix "," s;
  '(context, s) ← findContext s;
  Some ({| key := key; id := id; name := name; reasoning := reasoning;
           toolCall := toolCall; context := context |}, s).

(** The loop over [modelBlockRegex.exec(section)], a pattern with the
    flag [g]: every search takes the first place at or after
    [lastIndex] where the pattern matches and moves [lastIndex] to the
    end of the match.  [inside] counts the characters of the last match
    that the walk has still to pass. *)
Fixpoint matchesFrom (s : string) (inside : nat) : list Captures :=
  match s with
  | EmptyString => []
  | String _ r =>
      match inside with
      | S k => matchesFrom r k
      | O =>
          match blockAt s with
          | Some (block, rest) =>
              block :: matchesFrom r (String.length s - String.length rest - 1)
          | None => matchesFrom r 0
          end
      end
  end.

(** The pattern of a provider at the start of [s]: the name, a colon,
    any whitespace and an opening brace. *)
Definition providerAt (provider s : string) : bool :=
  match stripPrefix (provider +:+ ":") s with
  | Some r => startsWith "{" (trimStart r)
  | None => false
  end.

(** [regex.exec(content)] of a provider's pattern: the index of its
    first match. *)
Fixpoint indexOfProvider (provider s : string) : option nat :=
  if providerAt provider s then Some 0
  else match s with
       | String _ r => option_map S (indexOfProvider provider r)
       | EmptyString => None
       end.

Definition providerStarts : list string := [ "anthropic"; "openai"; "openrouter" ].

Record Provider := { providerName : string; start : nat; end_ : nat }.

(** The providers the content names, in the order of [providerStarts],
    with an [end] of 0. *)
Definition found (content : string) : list Provider :=
  omap (fun provider =>
          option_map (fun index => {| providerName := provider; start := index; end_ := 0 |})
                     (indexOfProvider provider content))
       providerStarts.

(** [Array.prototype.sort] on a comparator that gives a number: a
    stable sort. *)
Fixpoint insertSorted {A} (compare : A -> A -> Z) (x : A) (sorted : list A) : list A :=
  match sorted with
  | [] => [x]
  | y :: rest =>
      if (compare x y <=? 0)%Z then x :: sorted else y :: insertSorted compare x rest
  end.

Definition sort {A} (compare : A -> A -> Z) (xs : list A) : list A :=
  fold_right (insertSorted compare) [] xs.

(** The loop that sets each [end]: the start of the next provider, or
    the length of the content for the last. *)
Fixpoint withEnds (contentLength : nat) (providers : list Provider) : list Provider :=
  match providers with
  | [] => []
  | p :: rest =>
      {| providerName := providerName p;
         start := start p;
         end_ := match rest with
                 | next :: _ => start next
                 | [] => contentLength
                 end |}
      :: withEnds contentLength rest
  end.

Definition providers (content : string) : list Provider :=
  withEnds (String.length content)
           (sort (fun a b => (Z.of_nat (start a) - Z.of_nat (start b))%Z) (found content)).

(** [content.slice(start, end)] *)
Definition slice (from to : nat) (s : string) : string := substring from (to - from) s.

(** [parseInt(digits, 10)] of a run of digits. *)
Definition parseInt (digits : string) : nat :=
  fold_left (fun n c => 10 * n + (nat_of_ascii c - 48)) (list_ascii_of_string digits) 0.

(** The entry pushed for a match in the section of [provider]. *)
Definition modelOf (provider : string) (block : Captures) : ModelItem.t :=
  {| ModelItem.label := provider +:+ ":" +:+ id block;
     ModelItem.detail := name block;
     ModelItem.modelInfo :=
       Some {| ModelItem.reasoning := String.eqb (reasoning block) "true";
               ModelItem.toolCall := String.eqb (toolCall block) "true";
               ModelItem.contextLimit := parseInt (context block) |} |}.

(** The matches of every provider section, section after section, each
    with the name of its provider. *)
Definition scraped (content : string) : list (string * Captures) :=
  flat_map (fun p => map (pair (providerName p))
                         (matchesFrom (slice (start p) (end_ p) content) 0))
           (providers content).

(** [s.toLowerCase()] on code units below 256. *)
Definition lowerCase (c : ascii) : ascii :=
  let n := nat_of_ascii c in
  if ((65 <=? n) && (n <=? 90)) || ((192 <=? n) && (n <=? 222) && negb (n =? 215))
  then ascii_of_nat (n + 32) else c.

Fixpoint toLowerCase (s : string) : string :=
  match s with
  | EmptyString => EmptyString
  | String c r => String (lowerCase c) (toLowerCase r)
  end.

(** The comparator of the final sort; [localeCompare] is the host's. *)
Definition compareModels (localeCompare : string -> string -> Z) (a b : ModelItem.t) : Z :=
  let aLatest := if includes "latest" (toLowerCase (ModelItem.detail a)) then 0%Z else 1%Z in
  let bLatest := if includes "latest" (toLowerCase (ModelItem.detail b)) then 0%Z else 1%Z in
  if negb (aLatest =? bLatest)%Z then (aLatest - bLatest)%Z
  else
    let aProvider := hd "" (split ":" (ModelItem.label a)) in
    let bProvider := hd "" (split ":" (ModelItem.label b)) in
    if negb (String.eqb aProvider bProvider) then localeCompare aProvider bProvider
    else localeCompare (ModelItem.label a) (ModelItem.label b).

Definition parseModels (localeCompare : string -> string -> Z) (content : string)
  : list ModelItem.t :=
  sort (compareModels localeCompare)
       (map (fun found => modelOf (fst found) (snd found)) (scraped content)).

(** The provider and the id of every match, in the order of the
    scan. *)
Definition scrapedIds (content : string) : list (string * string) :=
  map (fun found => (fst found, id (snd found))) (scraped content).

End SyncModels.

(** ** The tables as objects of the JavaScript heap *)

(** The providers once more, on a heap: the tables are arrays and
    objects at addresses of the heap, the module's constants hold
    references to them, and what a provider hands to the editor (items,
    arrays of items, hovers) is allocated on the same heap.  Strings,
    numbers and the collections a call builds and drops (the set of
    existing fields, the list of files found) are values as before.  An
    address is the index of its object; the order in which new objects
    get their addresses cannot be observed. *)
Module Store.
Import Js Text Exn Blocks Completion Terminal Extension.

Inductive value :=
| Str (s : string)
| Num (n : nat)
| Bool (b : bool)
| Kind (kind : Item.Kind)
| Ref (address : nat)
| Builtin (key : string)
| Undefined
| Null.

Inductive object :=
| Fields (properties : list (string * value))
| Elements (elements : list value).

Abbreviation Heap := (list object).

Local Notation "'let*' x ':=' m 'in' k" := (bind m (fun x => k))
  (at level 10, x name, m at level 100, k at level 200, only parsing).

(** A new object, at the first free address. *)
Definition place (o : object) (h : Heap) : Heap * value := (h ++ [o], Ref (length h)).

Definition alloc (o : object) : Block Heap value :=
  fun h => (fst (place o h), Returned (snd (place o h))).

(** [target[key]] and [target.key].  An object literal inherits the
    members of [Object.prototype].  By a fixed name the providers read
    [label], [detail], [insertText] and [snippet], which no array,
    string, number, boolean or function has; by a word of the document
    they read the hover's own object and [COMMON_MCP_SERVERS], which
    the module binds to an object literal.  Reading a property of
    [undefined] or [null] throws. *)
Definition getProperty (target : value) (key : string) : Block Heap value :=
  fun h =>
    match target with
    | Ref address =>
        match h !! address with
        | Some (Fields properties) =>
            (h, Returned match JsObject.get properties key with
                         | JsObject.Own v => v
                         | JsObject.Inherited => Builtin key
                         | JsObject.Undefined => Undefined
                         end)
        | _ => (h, Returned Undefined)
        end
    | Undefined | Null => (h, Thrown "TypeError")
    | _ => (h, Returned Undefined)
    end.

Fixpoint assign (properties : list (string * value)) (key : string) (x : value)
  : list (string * value) :=
  match properties with
  | [] => [(key, x)]
  | (k, v) :: rest =>
      if String.eqb k key then (k, x) :: rest else (k, v) :: assign rest key x
  end.

(** [target.key = x] *)
Definition setProperty (target : value) (key : string) (x : value) : Block Heap unit :=
  fun h =>
    match target with
    | Ref address =>
        match h !! address with
        | Some (Fields properties) =>
            (<[ address := Fields (assign properties key x) ]> h, Returned tt)
        | _ => (h, Returned tt)
        end
    | Undefined | Null => (h, Thrown "TypeError")
    | _ => (h, Returned tt)
    end.

(** [target.push(x)] *)
Definition push (target : value) (x : value) : Block Heap unit :=
  fun h =>
    match target with
    | Ref address =>
        match h !! address with
        | Some (Elements elements) =>
            (<[ address := Elements (elements ++ [x]) ]> h, Returned tt)
        | _ => (h, Thrown "TypeError")
        end
    | _ => (h, Thrown "TypeError")
    end.

(** The elements of an array, for the methods that walk it; on anything
    else those methods are not there to call. *)
Definition elementsOf (target : value) : Block Heap (list value) :=
  fun h =>
    match target with
    | Ref address =>
        match h !! address with
        | Some (Elements elements) => (h, Returned elements)
        | _ => (h, Thrown "TypeError")
        end
    | _ => (h, Thrown "TypeError")
    end.

(** The calls of a callback on the elements, in order. *)
Fixpoint forEachValue {A} (xs : list value) (callback : value -> Block Heap A)
  : Block Heap (list A) :=
  match xs with
  | [] => ret []
  | x :: rest =>
      let* y := callback x in
      let* ys := forEachValue rest callback in
      ret (y :: ys)
  end.

(** [array.map(callback)]: a new array. *)
Definition arrayMap (array : value) (callback : value -> Block Heap value)
  : Block Heap value :=
  let* xs := elementsOf array in
  let* ys := forEachValue xs callback in
  alloc (Elements ys).

(** [array.filter(callback)]: a new array of the elements kept. *)
Definition arrayFilter (array : value) (callback : value -> Block Heap bool)
  : Block Heap value :=
  let* xs := elementsOf array in
  let* keep := forEachValue xs callback in
  alloc (Elements (map fst (List.filter snd (combine xs keep)))).

(** [array.find(callback)]: the first element the callback accepts, or
    [undefined]; the callback is not called after it. *)
Fixpoint findValue (xs : list value) (callback : value -> Block Heap bool)
  : Block Heap value :=
  match xs with
  | [] => ret Undefined
  | x :: rest =>
      let* accepted := callback x in
      if accepted : bool then ret x else findValue rest callback
  end.

Definition arrayFind (array : value) (callback : value -> Block Heap bool)
  : Block Heap value :=
  let* xs := elementsOf array in
  findValue xs callback.

(** The index of an element as the name of a property. *)
Definition indexKey (i : nat) : string :=
  NilZero.string_of_uint (Nat.to_uint i).

(** The own enumerable properties of a value, in the order in which
    they were written: those of an object; the elements of an array and
    the code units of a string under their indices; none of a number, a
    boolean or a function. *)
Definition propertiesOf (target : value) : Block Heap (list (string * value)) :=
  fun h =>
    match target with
    | Ref address =>
        match h !! address with
        | Some (Fields properties) => (h, Returned properties)
        | Some (Elements elements) =>
            (h, Returned (imap (fun i v => (indexKey i, v)) elements))
        | None => (h, Returned [])
        end
    | Str s =>
        (h, Returned (imap (fun i c => (indexKey i, Str (String c EmptyString)))
                           (list_ascii_of_string s)))
    | Undefined | Null => (h, Thrown "TypeError")
    | _ => (h, Returned [])
    end.

Fixpoint allocAll (objects : list object) : Block Heap (list value) :=
  match objects with
  | [] => ret []
  | o :: rest =>
      let* v := alloc o in
      let* vs := allocAll rest in
      ret (v :: vs)
  end.

(** [Object.entries(target)]: a new array of new two-element arrays,
    one for each own property. *)
Definition objectEntries (target : value) : Block Heap value :=
  let* properties := propertiesOf target in
  let* entries := allocAll (map (fun p => Elements [Str (fst p); snd p]) properties) in
  alloc (Elements entries).

(** A value where a text is wanted: in a template literal, as the
    argument of [includes].  (An object or a function reads otherwise;
    the providers put none there.) *)
Definition text (v : value) : string :=
  match v with
  | Str s => s
  | Num n => NilZero.string_of_uint (Nat.to_uint n)
  | Bool true => "true"
  | Bool false => "false"
  | Undefined => "undefined"
  | Null => "null"
  | Kind _ | Ref _ | Builtin _ => "[object Object]"
  end.

(** A value where a condition is wanted. *)
Definition truthy (v : value) : bool :=
  match v with
  | Str s => Js.truthy s
  | Num n => negb (n =? 0)
  | Bool b => b
  | Undefined | Null => false
  | Kind _ | Ref _ | Builtin _ => true
  end.

(** [a === b] for a value and a string. *)
Definition isString (v : value) (s : string) : bool :=
  match v with
  | Str s' => String.eqb s' s
  | _ => false
  end.

(** *** The module's constants and the load of the module *)

(** The five constants of the module: references to the tables. *)
Record Refs := {
  MODELS : value;
  FRONTMATTER_FIELDS : value;
  MCP_SERVER_FIELDS : value;
  MCP_COMMANDS : value;
  COMMON_MCP_SERVERS : value
}.

(** The object of each kind of entry, as the table literal writes it. *)
Definition modelObject (m : ModelItem.t) (info : option value) : object :=
  Fields ([ ("label", Str (ModelItem.label m)); ("detail", Str (ModelItem.detail m)) ]
          ++ match info with
             | Some reference => [ ("info", reference) ]
             | None => []
             end).

Definition infoObject (i : ModelItem.info) : object :=
  Fields [ ("reasoning", Bool (ModelItem.reasoning i));
           ("toolCall", Bool (ModelItem.toolCall i));
           ("contextLimit", Num (ModelItem.contextLimit i)) ].

Definition fieldObject (f : FieldItem.t) : object :=
  Fields ([ ("label", Str (FieldItem.label f)); ("detail", Str (FieldItem.detail f));
            ("insertText", Str (FieldItem.insertText f)) ]
          ++ match FieldItem.required f with
             | Some b => [ ("required", Bool b) ]
             | None => []
             end).

Definition commandObject (c : CommandItem.t) : object :=
  Fields [ ("label", Str (CommandItem.label c)); ("detail", Str (CommandItem.detail c)) ].

Definition templateObject (t : MCPServerTemplate.t) : object :=
  Fields [ ("detail", Str (MCPServerTemplate.detail t));
           ("snippet", Str (MCPServerTemplate.snippet t)) ].

(** An object literal: a key written twice keeps its first place and
    its last value. *)
Definition objectLiteral (properties : list (string * value)) : object :=
  Fields (fold_left (fun written property => assign written (fst property) (snd property))
                    properties []).

Definition placeModel (m : ModelItem.t) (h : Heap) : Heap * value :=
  match ModelItem.modelInfo m with
  | Some i => let '(h1, info) := place (infoObject i) h in place (modelObject m (Some info)) h1
  | None => place (modelObject m None) h
  end.

(** The elements of a literal, evaluated from left to right. *)
Fixpoint placeAll {A} (placeOne : A -> Heap -> Heap * value) (xs : list A) (h : Heap)
  : Heap * list value :=
  match xs with
  | [] => (h, [])
  | x :: rest =>
      let '(h1, v) := placeOne x h in
      let '(h2, vs) := placeAll placeOne rest h1 in
      (h2, v :: vs)
  end.

Definition placeArray {A} (placeOne : A -> Heap -> Heap * value) (xs : list A) (h : Heap)
  : Heap * value :=
  let '(h1, vs) := placeAll placeOne xs h in place (Elements vs) h1.

(** The evaluation of the five table literals when the module is
    loaded. *)
Definition load (T : Schema.Tables) : Heap * Refs :=
  let '(h1, models) := placeArray placeModel (Schema.MODELS T) [] in
  let '(h2, fields) := placeArray (fun f => place (fieldObject f)) (Schema.FRONTMATTER_FIELDS T) h1 in
  let '(h3, serverFields) :=
    placeArray (fun f => place (fieldObject f)) (Schema.MCP_SERVER_FIELDS T) h2 in
  let '(h4, commands) :=
    placeArray (fun c => place (commandObject c)) (Schema.MCP_COMMANDS T) h3 in
  let '(h5, templates) :=
    placeAll (fun entry => place (templateObject (snd entry))) (Schema.COMMON_MCP_SERVERS T) h4 in
  let '(h6, servers) :=
    place (objectLiteral (combine (map fst (Schema.COMMON_MCP_SERVERS T)) templates)) h5 in
  (h6, {| MODELS := models; FRONTMATTER_FIELDS := fields; MCP_SERVER_FIELDS := serverFields;
          MCP_COMMANDS := commands; COMMON_MCP_SERVERS := servers |}).

(** *** The completion provider *)

Definition createCompletion (label detail insertText : value) (kind : Item.Kind)
  : Block Heap value :=
  let* item := alloc (Fields [ ("label", label); ("kind", Kind kind) ]) in
  let* _ := setProperty item "detail" detail in
  let* _ := setProperty item "insertText" insertText in
  ret item.

Definition createSnippetCompletion (label detail snippet : value) (kind : Item.Kind)
  : Block Heap value :=
  let* item := alloc (Fields [ ("label", label); ("kind", Kind kind) ]) in
  let* _ := setProperty item "detail" detail in
  let* snippetString := alloc (Fields [ ("value", snippet) ]) in
  let* _ := setProperty item "insertText" snippetString in
  ret item.

(** An array literal: its elements are evaluated from left to right. *)
Fixpoint evalAll (elements : list (Block Heap value)) : Block Heap (list value) :=
  match elements with
  | [] => ret []
  | element :: rest =>
      let* v := element in
      let* vs := evalAll rest in
      ret (v :: vs)
  end.

Definition arrayOf (elements : list (Block Heap value)) : Block Heap value :=
  let* vs := evalAll elements in
  alloc (Elements vs).

Definition modelCompletions (R : Refs) : Block Heap value :=
  arrayMap (MODELS R)
           (fun m =>
              let* label := getProperty m "label" in
              let* detail := getProperty m "detail" in
              let* insertText := getProperty m "label" in
              createCompletion label detail insertText Item.Value).

Definition commandCompletions (R : Refs) : Block Heap value :=
  arrayMap (MCP_COMMANDS R)
           (fun c =>
              let* label := getProperty c "label" in
              let* detail := getProperty c "detail" in
              let* quotedLabel := getProperty c "label" in
              createCompletion label detail (Str (quoted (text quotedLabel))) Item.Value).

Definition fieldCompletion (f : value) : Block Heap value :=
  let* label := getProperty f "label" in
  let* detail := getProperty f "detail" in
  let* insertText := getProperty f "insertText" in
  createCompletion label detail insertText Item.Property.

Definition serverFieldCompletions (R : Refs) : Block Heap value :=
  arrayMap (MCP_SERVER_FIELDS R) fieldCompletion.

(** [existingFields.has(v)] for the set of keys. *)
Definition has (existingFields : gset string) (v : value) : bool :=
  match v with
  | Str s => bool_decide (s ∈ existingFields)
  | _ => false
  end.

Definition topLevelCompletions (R : Refs) (frontmatter : string) : Block Heap value :=
  let existingFields := getExistingFields frontmatter in
  let* remaining := arrayFilter (FRONTMATTER_FIELDS R)
                           (fun f =>
                              let* label := getProperty f "label" in
                              ret (negb (has existingFields label))) in
  arrayMap remaining fieldCompletion.

(** [getAgentUseFiles]: the array [items] is allocated first and grows
    by [push]. *)
Definition getAgentUseFiles (h : Host.t) (document : Host.TextDocument) : Block Heap value :=
  match Host.getWorkspaceFolder h (Host.fsPath document) with
  | None => alloc (Elements [])
  | Some workspaceFolder =>
      let* items := alloc (Elements []) in
      let currentDir := Host.dirname h (Host.fsPath document) in
      let* _ := tryCatch
             (let* files := call (Discovery.findAgentUseFilesRecursive h workspaceFolder 3 0) in
              forEach files
                (fun file =>
                   let* item := alloc (Fields [ ("label", Str ("./" +:+ Host.relative h currentDir file));
                                           ("kind", Kind Item.File) ]) in
                   let* _ := setProperty item "detail" (Str (Host.basename h file)) in
                   push items item))
             (fun _ => ret tt) in
      ret items
  end.

Definition afterMcpServers (R : Refs) (h : Host.t) (document : Host.TextDocument)
           (frontmatter linePrefix : string) (indent : nat) (inSubagents inTools : bool)
  : Block Heap value :=
  let blank := String.eqb (trim linePrefix) "" in
  if inSubagents && (2 <=? indent) && matchesKeyOnly "-" linePrefix then
    arrayOf [ createCompletion (Str "path") (Str "Path to subagent file") (Str "path: ./")
                               Item.Property ]
  else if inSubagents && (2 <=? indent) && matchesKeyOnly "path:" linePrefix then
    getAgentUseFiles h document
  else if inSubagents && (2 <=? indent) && blank then
    arrayOf [ createCompletion (Str "name") (Str "Reference name for subagent") (Str "name: ")
                               Item.Property ]
  else if inTools && (2 <=? indent) && matchesKeyOnly "-" linePrefix then
    arrayOf []
  else if (indent =? 0) && blank then
    topLevelCompletions R frontmatter
  else arrayOf [].

Definition provideWith
           (opensMcp : string -> bool)
           (inMcpServersBlock : Refs -> nat -> string -> option (Block Heap value))
           (R : Refs) (h : Host.t)
           (document : Host.TextDocument) (position : Host.Position)
  : Block Heap value :=
  let text := Host.getText document in
  let lineText := Host.lineAt document (Host.line position) in
  let linePrefix := substringTo (Host.character position) lineText in
  match frontmatterMatch text with
  | None =>
      if (Host.line position =? 0) && String.eqb linePrefix "" then
        arrayOf [ createSnippetCompletion (Str "---") (Str "Start frontmatter")
                                          (Str startSnippet) Item.Snippet ]
      else arrayOf []
  | Some (frontmatter, frontmatterEnd) =>
      let cursorOffset := Host.offsetAt document position in
      if (cursorOffset <? 4) || (frontmatterEnd <? cursorOffset) then arrayOf []
      else
        let inMcpServers := isInBlock opensMcp (Host.line position) frontmatter in
        let inSubagents := isInSubagentsBlock (Host.line position) frontmatter in
        let inTools := isInToolsBlock (Host.line position) frontmatter in
        let indent := leadingSpaces linePrefix in
        if matchesKeyOnly "model:" linePrefix then modelCompletions R
        else if matchesCommandValue linePrefix then commandCompletions R
        else
          match (if inMcpServers then inMcpServersBlock R indent linePrefix else None) with
          | Some suggestions => suggestions
          | None => afterMcpServers R h document frontmatter linePrefix indent
                                    inSubagents inTools
          end
  end.

(** Current revision. *)
Definition mcpServerSuggestions (R : Refs) (indent : nat) (linePrefix : string)
  : option (Block Heap value) :=
  if (4 <=? indent) && String.eqb (trim linePrefix) ""
  then Some (serverFieldCompletions R) else None.

Definition provideCompletionItems := provideWith opensMcpServers mcpServerSuggestions.

(** Earlier revision: the server templates, from the entries of
    [COMMON_MCP_SERVERS]. *)
Definition serverTemplates (R : Refs) : Block Heap value :=
  let* entries := objectEntries (COMMON_MCP_SERVERS R) in
  arrayMap entries
           (fun entry =>
              let* pair := elementsOf entry in
              let name := nth 0 pair Undefined in
              let config := nth 1 pair Undefined in
              let* detail := getProperty config "detail" in
              let* snippet := getProperty config "snippet" in
              createSnippetCompletion name detail snippet Item.Module_).

Definition legacySuggestions (R : Refs) (indent : nat) (linePrefix : string)
  : option (Block Heap value) :=
  if (indent =? 2) && String.eqb (trim linePrefix) "" then Some (serverTemplates R)
  else if (4 <=? indent) && String.eqb (trim linePrefix) ""
       then Some (serverFieldCompletions R)
       else None.

Definition provideLegacyCompletionItems :=
  provideWith LegacyCompletion.opensMcpServers legacySuggestions.

(** *** The hover provider *)

(** [new vscode.Hover(new vscode.MarkdownString(contents))] *)
Definition hover (contents : value) : Block Heap value :=
  let* markdown := alloc (Fields [ ("value", contents) ]) in
  alloc (Fields [ ("contents", markdown) ]).

Definition provideHover (R : Refs) (document : Host.TextDocument) (position : Host.Position)
  : Block Heap value :=
  let lineText := Host.lineAt document (Host.line position) in
  match Host.wordAt document position with
  | None => ret Null
  | Some word =>
      let* fieldDocs := alloc (Fields (map (fun doc => (fst doc, Str (snd doc))) Hover.fieldDocs)) in
      let* documented := getProperty fieldDocs word in
      if truthy documented && Hover.includes (word +:+ ":") lineText then
        let* contents := getProperty fieldDocs word in
        hover contents
      else
        let* modelInfo :=
          (if Hover.includes "model:" lineText then
             arrayFind (MODELS R)
                       (fun m =>
                          let* label := getProperty m "label" in
                          if isString label word then ret true
                          else
                            let* label := getProperty m "label" in
                            ret (Hover.includes (text label) lineText))
           else ret Undefined) in
        if truthy modelInfo then
          let* label := getProperty modelInfo "label" in
          let* detail := getProperty modelInfo "detail" in
          hover (Str ("**" +:+ text label +:+ "**" +:+ nl +:+ nl +:+ text detail))
        else
          let* found := getProperty (COMMON_MCP_SERVERS R) word in
          if truthy found then
            let* server := getProperty (COMMON_MCP_SERVERS R) word in
            let* detail := getProperty server "detail" in
            let* snippet := getProperty server "snippet" in
            hover (Str (Hover.serverHover word (text detail) (text snippet)))
          else ret Null
  end.

(** *** The extension on the heap *)

Record State := { heap : Heap; refs : Refs; terminals : list Pty }.

Inductive Response :=
| Answered (result : outcome value)
| Did (effects : list Effect).

Definition Provider : Type :=
  Refs -> Host.t -> Host.TextDocument -> Host.Position -> Block Heap value.

Definition onTerminal (s : State) (i : nat) (f : Pty -> Pty * list Effect)
  : State * Response :=
  match terminals s !! i with
  | Some t =>
      ({| heap := heap s; refs := refs s; terminals := <[ i := fst (f t) ]> (terminals s) |},
       Did (snd (f t)))
  | None => (s, Did [])
  end.

(** A call of a provider: it runs on the heap as it is and leaves the
    heap it made. *)
Definition answer (s : State) (call : Block Heap value) : State * Response :=
  ({| heap := fst (call (heap s)); refs := refs s; terminals := terminals s |},
   Answered (snd (call (heap s)))).

Definition handleWith (provide : Provider) (h : Host.t) (s : State) (r : Request)
  : State * Response :=
  match r with
  | Complete document position => answer s (provide (refs s) h document position)
  | HoverAt document position => answer s (provideHover (refs s) document position)
  | Run activeTextEditor =>
      let effects := Commands.run activeTextEditor in
      ({| heap := heap s; refs := refs s;
          terminals := terminals s ++ Commands.created effects |},
       Did effects)
  | CloseTerminal activeTerminal => (s, Did (Commands.closeTerminal activeTerminal))
  | Open i child => onTerminal s i (open h child)
  | Input i data => onTerminal s i (fun t => handleInput t data)
  | Stdout i chunk => onTerminal s i (fun t => (t, onStdout h t chunk))
  | Stderr i chunk => onTerminal s i (fun t => (t, onStderr h t chunk))
  | Closed i code => onTerminal s i (fun t => (ended t, onClose t code))
  | Failed i message => onTerminal s i (fun t => (t, onError t message))
  | Close i => onTerminal s i close
  | Exited i => onTerminal s i (fun t => (ended t, []))
  end.

(** The state after a sequence of requests. *)
Definition after (provide : Provider) (h : Host.t) (s : State) (requests : list Request) : State :=
  fold_left (fun s r => fst (handleWith provide h s r)) requests s.

(** The state when the module has been loaded. *)
Definition loaded (T : Schema.Tables) : State :=
  {| heap := fst (load T); refs := snd (load T); terminals := [] |}.

(** *** Reading the heap back *)

(** The five tables that the constants refer to, when the heap holds
    them. *)
Definition stringOf (properties : list (string * value)) (key : string) : option string :=
  match JsObject.ownProperty properties key with
  | Some (Str s) => Some s
  | _ => None
  end.

Definition fieldsAt (h : Heap) (v : value) : option (list (string * value)) :=
  match v with
  | Ref address =>
      match h !! address with
      | Some (Fields properties) => Some properties
      | _ => None
      end
  | _ => None
  end.

Definition elementsAt (h : Heap) (v : value) : option (list value) :=
  match v with
  | Ref address =>
      match h !! address with
      | Some (Elements elements) => Some elements
      | _ => None
      end
  | _ => None
  end.

Definition boolOf (properties : list (string * value)) (key : string) : option bool :=
  match JsObject.ownProperty properties key with
  | Some (Bool b) => Some b
  | _ => None
  end.

Definition numberOf (properties : list (string * value)) (key : string) : option nat :=
  match JsObject.ownProperty properties key with
  | Some (Num n) => Some n
  | _ => None
  end.

Definition infoAt (h : Heap) (v : value) : option ModelItem.info :=
  properties ← fieldsAt h v;
  reasoning ← boolOf properties "reasoning";
  toolCall ← boolOf properties "toolCall";
  contextLimit ← numberOf properties "contextLimit";
  Some {| ModelItem.reasoning := reasoning; ModelItem.toolCall := toolCall;
          ModelItem.contextLimit := contextLimit |}.

Definition modelAt (h : Heap) (v : value) : option ModelItem.t :=
  properties ← fieldsAt h v;
  label ← stringOf properties "label";
  detail ← stringOf properties "detail";
  match JsObject.ownProperty properties "info" with
  | Some reference =>
      info ← infoAt h reference;
      Some {| ModelItem.label := label; ModelItem.detail := detail;
              ModelItem.modelInfo := Some info |}
  | None =>
      Some {| ModelItem.label := label; ModelItem.detail := detail;
              ModelItem.modelInfo := None |}
  end.

Definition fieldAt (h : Heap) (v : value) : option FieldItem.t :=
  properties ← fieldsAt h v;
  label ← stringOf properties "label";
  detail ← stringOf properties "detail";
  insertText ← stringOf properties "insertText";
  match JsObject.ownProperty properties "required" with
  | Some (Bool b) =>
      Some {| FieldItem.label := label; FieldItem.detail := detail;
              FieldItem.insertText := insertText; FieldItem.required := Some b |}
  | Some _ => None
  | None =>
      Some {| FieldItem.label := label; FieldItem.detail := detail;
              FieldItem.insertText := insertText; FieldItem.required := None |}
  end.

Definition commandAt (h : Heap) (v : value) : option CommandItem.t :=
  properties ← fieldsAt h v;
  label ← stringOf properties "label";
  detail ← stringOf properties "detail";
  Some {| CommandItem.label := label; CommandItem.detail := detail |}.

Definition templateAt (h : Heap) (v : value) : option MCPServerTemplate.t :=
  properties ← fieldsAt h v;
  detail ← stringOf properties "detail";
  snippet ← stringOf properties "snippet";
  Some {| MCPServerTemplate.detail := detail; MCPServerTemplate.snippet := snippet |}.

Definition arrayAt {A} (entryAt : Heap -> value -> option A) (h : Heap) (v : value)
  : option (list A) :=
  elements ← elementsAt h v;
  mapM (entryAt h) elements.

Definition serversAt (h : Heap) (v : value) : option (list (string * MCPServerTemplate.t)) :=
  properties ← fieldsAt h v;
  mapM (fun property => template ← templateAt h (snd property);
                        Some (fst property, template))
       properties.

(** The five tables that the constants refer to, read from the heap. *)
Definition tablesAt (h : Heap) (R : Refs) : option Schema.Tables :=
  models ← arrayAt modelAt h (MODELS R);
  fields ← arrayAt fieldAt h (FRONTMATTER_FIELDS R);
  serverFields ← arrayAt fieldAt h (MCP_SERVER_FIELDS R);
  commands ← arrayAt commandAt h (MCP_COMMANDS R);
  servers ← serversAt h (COMMON_MCP_SERVERS R);
  Some {| Schema.MODELS := models; Schema.FRONTMATTER_FIELDS := fields;
          Schema.MCP_SERVER_FIELDS := serverFields; Schema.MCP_COMMANDS := commands;
          Schema.COMMON_MCP_SERVERS := servers |}.

(** The items of an array that a completion call returned: for each,
    its label, kind and detail, and its insert text, which is a string,
    a snippet string or not there. *)
Definition kindOf (properties : list (string * value)) : option Item.Kind :=
  match JsObject.ownProperty properties "kind" with
  | Some (Kind kind) => Some kind
  | _ => None
  end.

Definition insertTextAt (h : Heap) (properties : list (string * value)) : option Item.Insert :=
  match JsObject.ownProperty properties "insertText" with
  | Some (Str s) => Some (Item.PlainText s)
  | Some reference =>
      snippet ← fieldsAt h reference;
      s ← stringOf snippet "value";
      Some (Item.SnippetString s)
  | None => Some Item.NoInsertText
  end.

Definition itemAt (h : Heap) (v : value) : option Item.t :=
  properties ← fieldsAt h v;
  label ← stringOf properties "label";
  kind ← kindOf properties;
  detail ← stringOf properties "detail";
  insertText ← insertTextAt h properties;
  Some {| Item.label := label; Item.kind := kind; Item.detail := detail;
          Item.insertText := insertText |}.

Definition itemsAt (h : Heap) (result : outcome value) : option (list Item.t) :=
  match result with
  | Returned array => arrayAt itemAt h array
  | Thrown _ => None
  end.

(** The hover at a reference, as contents, and what a call of the hover
    provider returned: a hover or [null]. *)
Definition contentsAt (h : Heap) (v : value) : option Hover.Contents :=
  hover ← fieldsAt h v;
  markdown ← JsObject.ownProperty hover "contents";
  properties ← fieldsAt h markdown;
  match JsObject.ownProperty properties "value" with
  | Some (Str s) => Some (Hover.Markdown s)
  | Some (Builtin key) => Some (Hover.PrototypeMember key)
  | _ => None
  end.

Definition hoverAt (h : Heap) (result : outcome value) : option (option Hover.Contents) :=
  match result with
  | Returned Null => Some None
  | Returned v => option_map Some (contentsAt h v)
  | Thrown _ => None
  end.

(** A call on the heap that the load of the tables leaves, read
    back. *)
Definition itemsOn (T : Schema.Tables) (call : Refs -> Block Heap value)
  : option (outcome (list Item.t)) :=
  let s := loaded T in
  option_map Returned (itemsAt (fst (call (refs s) (heap s))) (snd (call (refs s) (heap s)))).

Definition hoverOn (T : Schema.Tables) (call : Refs -> Block Heap value)
  : option (option Hover.Contents) :=
  let s := loaded T in
  hoverAt (fst (call (refs s) (heap s))) (snd (call (refs s) (heap s))).

End Store.

(** * Properties *)

(** ** Strings *)

Module JsFacts.
Import Js.

Lemma startsWith_app (p rest : string) : startsWith p (p +:+ rest) = true.
Proof.
  induction p as [|a p IH]; simpl; [reflexivity|].
  rewrite Ascii.eqb_refl. exact IH.
Qed.

Lemma startsWith_inv (p s : string) :
  startsWith p s = true -> exists rest, s = p +:+ rest.
Proof.
  revert s. induction p as [|a p IH]; intros s H.
  - exists s. reflexivity.
  - destruct s as [|b s]; simpl in H; [discriminate|].
    apply andb_true_iff in H as [Hab Hps].
    apply Ascii.eqb_eq in Hab. subst b.
    destruct (IH s Hps) as [rest ->]. exists rest. reflexivity.
Qed.

(** [startsWith] is "begins with". *)
Lemma startsWith_spec (p s : string) :
  startsWith p s = true <-> exists rest, s = p +:+ rest.
Proof.
  split; [apply startsWith_inv|].
  intros [rest ->]. apply startsWith_app.
Qed.

Lemma trimEnd_cons_nonspace (c : ascii) (r : string) :
  isSpace c = false -> trimEnd (String c r) <> "".
Proof.
  intros Hc. simpl. destruct (trimEnd r); [rewrite Hc|]; discriminate.
Qed.

(** A line whose first character is no whitespace is not blank. *)
Lemma truthy_trim_cons (c : ascii) (r : string) :
  isSpace c = false -> truthy (trim (String c r)) = true.
Proof.
  intros Hc. unfold truthy, trim. simpl trimStart. rewrite Hc.
  apply negb_true_iff, String.eqb_neq, trimEnd_cons_nonspace, Hc.
Qed.

Lemma split_nonempty (sep : ascii) (s : string) : split sep s <> [].
Proof.
  destruct s as [|c r]; simpl; [discriminate|].
  destruct (Ascii.eqb c sep); [discriminate|].
  destruct (split sep r); discriminate.
Qed.

End JsFacts.

(** ** The block classifiers *)

Module BlocksFacts.
Import Js Blocks JsFacts.

Section OneClassifier.
Variable opener : string -> bool.

Lemma stepLine_true (b : bool) (line : string) :
  stepLine opener b line = true <->
  opener line = true \/ (b = true /\ isTerminator line = false).
Proof.
  unfold stepLine, isTerminator.
  destruct (opener line), b,
    (truthy (trim line)), (startsWithSpace line); simpl; intuition congruence.
Qed.

(** After a whole list of lines the flag is set exactly when the last
    opener or terminator of the list is an opener. *)
Lemma fold_stepLine_true (ls : list string) :
  fold_left (stepLine opener) ls false = true <->
  exists i line,
    nth_error ls i = Some line /\ opener line = true /\
    forall j l, i < j -> nth_error ls j = Some l ->
                opener l = false /\ isTerminator l = false.
Proof.
  induction ls as [|x ls IH] using rev_ind.
  - simpl. split; [discriminate|].
    intros (i & line & H & _). destruct i; discriminate.
  - rewrite fold_left_app. simpl. rewrite stepLine_true. split.
    + intros [Hop | [Hb Hterm]].
      * exists (List.length ls), x. split; [|split; [exact Hop|]].
        -- rewrite nth_error_app2 by lia. rewrite Nat.sub_diag. reflexivity.
        -- intros j l Hj Hl.
           assert (nth_error (ls ++ [x]) j <> None) as Hn by congruence.
           apply nth_error_Some in Hn. rewrite length_app in Hn. simpl in Hn. lia.
      * destruct (opener x) eqn:Hx.
        { exists (List.length ls), x. split; [|split; [exact Hx|]].
          - rewrite nth_error_app2 by lia. rewrite Nat.sub_diag. reflexivity.
          - intros j l Hj Hl.
            assert (nth_error (ls ++ [x]) j <> None) as Hn by congruence.
            apply nth_error_Some in Hn. rewrite length_app in Hn. simpl in Hn. lia. }
        apply IH in Hb as (i & line & Hi & Hop & Hlater).
        assert (i < List.length ls) as Hlt
            by (apply nth_error_Some; congruence).
        exists i, line. split; [|split; [exact Hop|]].
        -- rewrite nth_error_app1 by exact Hlt. exact Hi.
        -- intros j l Hj Hl.
           destruct (Nat.lt_ge_cases j (List.length ls)) as [Hjl | Hjl].
           ++ rewrite nth_error_app1 in Hl by exact Hjl. eauto.
           ++ rewrite nth_error_app2 in Hl by exact Hjl.
              destruct (j - List.length ls) as [|k] eqn:Hk; simpl in Hl.
              ** injection Hl as <-. split; assumption.
              ** destruct k; discriminate.
    + intros (i & line & Hi & Hop & Hlater).
      assert (i < List.length (ls ++ [x])) as Hlt
          by (apply nth_error_Some; congruence).
      rewrite length_app in Hlt. simpl in Hlt.
      destruct (Nat.eq_dec i (List.length ls)) as [-> | Hne].
      * rewrite nth_error_app2 in Hi by lia.
        rewrite Nat.sub_diag in Hi. injection Hi as ->. left. exact Hop.
      * assert (i < List.length ls) as Hi' by lia.
        rewrite nth_error_app1 in Hi by exact Hi'.
        destruct (Hlater (List.length ls) x Hi') as [Hx Hterm].
        { rewrite nth_error_app2 by lia. rewrite Nat.sub_diag. reflexivity. }
        right. split; [|exact Hterm].
        apply IH. exists i, line. split; [exact Hi|split; [exact Hop|]].
        intros j l Hj Hl. apply (Hlater j l Hj).
        assert (j < List.length ls) by (apply nth_error_Some; congruence).
        rewrite nth_error_app1 by assumption. exact Hl.
Qed.

Lemma scanLines_spec (lines : list string) (idx : nat) :
  idx < List.length lines ->
  scanLines opener lines idx = true <-> lastMarkIsOpener opener lines idx.
Proof.
  intros Hidx. unfold scanLines, lastMarkIsOpener.
  rewrite fold_stepLine_true. split.
  - intros (i & line & Hi & Hop & Hlater).
    rewrite nth_error_firstn in Hi.
    destruct (Nat.ltb_spec i (S idx)) as [Hlt|]; [|discriminate].
    exists i, line. split; [lia|split; [exact Hi|split; [exact Hop|]]].
    intros j l Hj Hl. apply (Hlater j l); [lia|].
    rewrite nth_error_firstn.
    destruct (Nat.ltb_spec j (S idx)); [exact Hl|lia].
  - intros (i & line & Hle & Hi & Hop & Hlater).
    exists i, line. split; [|split; [exact Hop|]].
    + rewrite nth_error_firstn.
      destruct (Nat.ltb_spec i (S idx)); [exact Hi|lia].
    + intros j l Hj Hl. rewrite nth_error_firstn in Hl.
      destruct (Nat.ltb_spec j (S idx)); [|discriminate].
      apply (Hlater j l); [lia|exact Hl].
Qed.

Lemma isInBlock_in_bounds (L : nat) (frontmatter : string) :
  1 <= L <= List.length (split LF frontmatter) ->
  isInBlock opener L frontmatter = scanLines opener (split LF frontmatter) (L - 1).
Proof.
  intros HL. unfold isInBlock.
  destruct (Z.ltb_spec (Z.of_nat L - 1) 0); [lia|].
  destruct (Z.leb_spec (Z.of_nat (List.length (split LF frontmatter))) (Z.of_nat L - 1));
    [lia|].
  simpl. f_equal. lia.
Qed.

Lemma isInBlock_out_of_bounds (L : nat) (frontmatter : string) :
  ~ (1 <= L <= List.length (split LF frontmatter)) ->
  isInBlock opener L frontmatter = false.
Proof.
  intros HL. unfold isInBlock.
  destruct (Z.ltb_spec (Z.of_nat L - 1) 0); [reflexivity|].
  destruct (Z.leb_spec (Z.of_nat (List.length (split LF frontmatter))) (Z.of_nat L - 1));
    [reflexivity|lia].
Qed.

Lemma isInBlock_spec (L : nat) (frontmatter : string) :
  1 <= L <= List.length (split LF frontmatter) ->
  isInBlock opener L frontmatter = true <->
  lastMarkIsOpener opener (split LF frontmatter) (L - 1).
Proof.
  intros HL. rewrite isInBlock_in_bounds by exact HL.
  apply scanLines_spec. lia.
Qed.

End OneClassifier.

End BlocksFacts.

Module BlockExclusion.
Import Js Blocks JsFacts.

Section TwoClassifiers.
Variables first second : string -> bool.
Hypothesis first_ends_second :
  forall line, first line = true -> second line = false /\ isTerminator line = true.
Hypothesis second_ends_first :
  forall line, second line = true -> first line = false /\ isTerminator line = true.

Lemma stepLine_exclusive (b1 b2 : bool) (line : string) :
  b1 && b2 = false ->
  stepLine first b1 line && stepLine second b2 line = false.
Proof.
  intros Hb. unfold stepLine.
  destruct (first line) eqn:H1.
  - destruct (first_ends_second line H1) as [-> Hterm].
    unfold isTerminator in Hterm. rewrite <- andb_assoc, Hterm.
    destruct b2; reflexivity.
  - destruct (second line) eqn:H2.
    + destruct (second_ends_first line H2) as [_ Hterm].
      unfold isTerminator in Hterm. rewrite <- andb_assoc, Hterm.
      destruct b1; reflexivity.
    + destruct b1, b2; try discriminate;
        repeat match goal with |- context [if ?c then _ else _] => destruct c end;
        reflexivity.
Qed.

Lemma fold_exclusive (ls : list string) (b1 b2 : bool) :
  b1 && b2 = false ->
  fold_left (stepLine first) ls b1 && fold_left (stepLine second) ls b2 = false.
Proof.
  revert b1 b2. induction ls as [|x ls IH]; intros b1 b2 Hb; simpl.
  - exact Hb.
  - apply IH, stepLine_exclusive, Hb.
Qed.

Lemma isInBlock_exclusive (L : nat) (frontmatter : string) :
  isInBlock first L frontmatter && isInBlock second L frontmatter = false.
Proof.
  unfold isInBlock.
  destruct ((Z.of_nat L - 1 <? 0)%Z
            || (Z.of_nat (List.length (split LF frontmatter)) <=? Z.of_nat L - 1)%Z);
    [reflexivity|].
  apply fold_exclusive. reflexivity.
Qed.

End TwoClassifiers.

(** A line that begins with a given non-blank literal is a terminator. *)
Lemma literal_is_terminator (c : ascii) (p line : string) :
  isSpace c = false -> startsWith (String c p) line = true -> isTerminator line = true.
Proof.
  intros Hc H. apply startsWith_inv in H as [rest ->].
  unfold isTerminator.
  change (String c p +:+ rest) with (String c (p +:+ rest)).
  rewrite truthy_trim_cons by exact Hc. simpl. rewrite Hc. reflexivity.
Qed.

Lemma mcpServers_ends_others (line : string) :
  opensMcpServers line = true ->
  opensSubagents line = false /\ opensTools line = false /\ isTerminator line = true.
Proof.
  unfold opensMcpServers. intros H. apply orb_true_iff in H as [H | H];
    (split; [|split; [|eapply literal_is_terminator; [|exact H]; reflexivity]]);
    apply startsWith_inv in H as [rest ->]; reflexivity.
Qed.

Lemma subagents_ends_others (line : string) :
  opensSubagents line = true ->
  opensMcpServers line = false /\ opensTools line = false /\ isTerminator line = true.
Proof.
  unfold opensSubagents. intros H.
  (split; [|split; [|eapply literal_is_terminator; [|exact H]; reflexivity]]);
    apply startsWith_inv in H as [rest ->]; reflexivity.
Qed.

Lemma tools_ends_others (line : string) :
  opensTools line = true ->
  opensMcpServers line = false /\ opensSubagents line = false /\ isTerminator line = true.
Proof.
  unfold opensTools. intros H.
  (split; [|split; [|eapply literal_is_terminator; [|exact H]; reflexivity]]);
    apply startsWith_inv in H as [rest ->]; reflexivity.
Qed.

(** C8.  For every frontmatter content and every cursor line, at most
    one of the three classifiers answers true: no two of them do.  The
    reason is the one the claim gives: a line that opens one block opens
    neither of the other two and is a terminator. *)
Theorem at_most_one_block (frontmatter : string) (L : nat) :
  isInMcpServersBlock L frontmatter && isInSubagentsBlock L frontmatter = false
  /\ isInMcpServersBlock L frontmatter && isInToolsBlock L frontmatter = false
  /\ isInSubagentsBlock L frontmatter && isInToolsBlock L frontmatter = false.
Proof.
  unfold isInMcpServersBlock, isInSubagentsBlock, isInToolsBlock.
  repeat split; apply isInBlock_exclusive; intros line H.
  - destruct (mcpServers_ends_others line H) as (? & ? & ?). auto.
  - destruct (subagents_ends_others line H) as (? & ? & ?). auto.
  - destruct (mcpServers_ends_others line H) as (? & ? & ?). auto.
  - destruct (tools_ends_others line H) as (? & ? & ?). auto.
  - destruct (subagents_ends_others line H) as (? & ? & ?). auto.
  - destruct (tools_ends_others line H) as (? & ? & ?). auto.
Qed.

(** The same holds in the earlier revision. *)
Lemma legacy_at_most_one_block (frontmatter : string) (L : nat) :
  LegacyCompletion.isInMcpServersBlock L frontmatter && isInSubagentsBlock L frontmatter = false
  /\ LegacyCompletion.isInMcpServersBlock L frontmatter && isInToolsBlock L frontmatter = false.
Proof.
  unfold LegacyCompletion.isInMcpServersBlock, isInSubagentsBlock, isInToolsBlock.
  assert (forall line, LegacyCompletion.opensMcpServers line = true ->
                       opensMcpServers line = true) as Hold.
  { intros line H. unfold opensMcpServers.
    unfold LegacyCompletion.opensMcpServers in H. rewrite H. reflexivity. }
  split; apply isInBlock_exclusive; intros line H.
  - destruct (mcpServers_ends_others line (Hold line H)) as (? & ? & ?). auto.
  - destruct (subagents_ends_others line H) as (Hm & ? & ?). split; [|assumption].
    unfold opensMcpServers in Hm. apply orb_false_iff in Hm as [Hm _]. exact Hm.
  - destruct (mcpServers_ends_others line (Hold line H)) as (? & ? & ?). auto.
  - destruct (tools_ends_others line H) as (Hm & ? & ?). split; [|assumption].
    unfold opensMcpServers in Hm. apply orb_false_iff in Hm as [Hm _]. exact Hm.
Qed.

End BlockExclusion.

Module BlockClassifier.
Import Js Blocks BlocksFacts.

(** C5.  With the cursor on line [L] of the document and [L - 1] an
    index into the frontmatter's lines, each classifier answers true
    exactly when, among the lines [0 .. L - 1], the last line that is an
    opener of its block or a terminator exists and is an opener; the
    openers begin with [mcp_servers:] or [mcpServers:], with
    [subagents:], with [tools:].  When [L - 1] is no index into the
    lines, each classifier answers false. *)
Theorem classifiers_follow_last_mark (frontmatter : string) (L : nat) :
  (1 <= L <= List.length (split LF frontmatter) ->
   (isInMcpServersBlock L frontmatter = true
    <-> lastMarkIsOpener opensMcpServers (split LF frontmatter) (L - 1))
   /\ (isInSubagentsBlock L frontmatter = true
       <-> lastMarkIsOpener opensSubagents (split LF frontmatter) (L - 1))
   /\ (isInToolsBlock L frontmatter = true
       <-> lastMarkIsOpener opensTools (split LF frontmatter) (L - 1)))
  /\ (~ (1 <= L <= List.length (split LF frontmatter)) ->
      isInMcpServersBlock L frontmatter = false
      /\ isInSubagentsBlock L frontmatter = false
      /\ isInToolsBlock L frontmatter = false).
Proof.
  split.
  - intros HL. repeat split; try (apply isInBlock_spec; exact HL);
      try (apply (isInBlock_spec _ L frontmatter HL)).
  - intros HL. repeat split; apply isInBlock_out_of_bounds; exact HL.
Qed.

(** In the sample document the cursor on line 4 lies under
    [mcpServers:], which line 2 opens. *)
Lemma classifiers_follow_last_mark_witness :
  lastMarkIsOpener opensMcpServers
                   (split LF (Text.unlines ["model: x"; "mcpServers:"; "  fetch:"; "    "]))
                   3.
Proof.
  apply (proj1 (classifiers_follow_last_mark
                  (Text.unlines ["model: x"; "mcpServers:"; "  fetch:"; "    "]) 4)).
  - vm_compute. lia.
  - vm_compute. reflexivity.
Defined.

(** The earlier revision does not take the [mcpServers:] spelling for an
    opener: there the same cursor is in no block. *)
Lemma legacy_ignores_camel_case :
  LegacyCompletion.isInMcpServersBlock
    4 (Text.unlines ["model: x"; "mcpServers:"; "  fetch:"; "    "]) = false
  /\ isInMcpServersBlock
       4 (Text.unlines ["model: x"; "mcpServers:"; "  fetch:"; "    "]) = true.
Proof. split; vm_compute; reflexivity. Qed.

Lemma legacy_classifier_follows_last_mark (frontmatter : string) (L : nat) :
  1 <= L <= List.length (split LF frontmatter) ->
  LegacyCompletion.isInMcpServersBlock L frontmatter = true
  <-> lastMarkIsOpener LegacyCompletion.opensMcpServers (split LF frontmatter) (L - 1).
Proof. apply isInBlock_spec. Qed.

End BlockClassifier.

(** ** Subagent file discovery *)

Module ExnFacts.
Import Exn.

(** A try block with an empty handler ends normally, with whatever the
    body had written before it threw. *)
Lemma returning_swallow {S} (init : S) (body : Block S unit) :
  returning init (tryCatch body (fun _ => ret tt)) = Returned (fst (body init)).
Proof.
  unfold returning, tryCatch, ret.
  destruct (body init) as [s [u | e]]; reflexivity.
Qed.

Lemma forEach_modify {S A} (xs : list A) (f : A -> S -> S) (s : S) :
  forEach xs (fun x => modify (f x)) s = (fold_left (fun s x => f x s) xs s, Returned tt).
Proof.
  revert s. induction xs as [|x xs IH]; intros s; simpl; [reflexivity|].
  unfold bind at 1, modify at 1. apply IH.
Qed.

(** Pushing the image of each element is [map]. *)
Lemma fold_left_push {A B} (f : A -> B) (xs : list A) (acc : list B) :
  fold_left (fun s x => s ++ [f x]) xs acc = acc ++ map f xs.
Proof.
  revert acc. induction xs as [|x xs IH]; intros acc; simpl.
  - rewrite app_nil_r. reflexivity.
  - rewrite IH, <- app_assoc. reflexivity.
Qed.

End ExnFacts.

Module DiscoveryFacts.
Import Js Exn Discovery ExnFacts.

Section Scan.
Variable h : Host.t.

(** One entry: when the calls for subdirectories return, the entry
    appends its contribution. *)
Lemma visit_returns (dir : string) (below : string -> list string)
      (entry : Host.Dirent) (files : list string) :
  visit h dir (fun d => Returned (below d)) entry files
  = (files ++ contribution h dir below entry, Returned tt).
Proof.
  unfold visit, contribution, visible.
  destruct (startsWith "." (Host.name entry) || String.eqb (Host.name entry) "node_modules");
    simpl.
  - rewrite app_nil_r. reflexivity.
  - destruct (Host.isDirectory entry); [reflexivity|].
    destruct (endsWith (Host.name entry) ".agentuse"); [reflexivity|].
    rewrite app_nil_r. reflexivity.
Qed.

Lemma forEach_visit (dir : string) (below : string -> list string)
      (entries : list Host.Dirent) (files : list string) :
  forEach entries (visit h dir (fun d => Returned (below d))) files
  = (files ++ flat_map (contribution h dir below) entries, Returned tt).
Proof.
  revert files. induction entries as [|e entries IH]; intros files; simpl.
  - rewrite app_nil_r. reflexivity.
  - unfold bind at 1. rewrite visit_returns, IH, app_assoc. reflexivity.
Qed.

Lemma scanDirectory_returns (dir : string) (below : string -> list string) :
  scanDirectory h dir (fun d => Returned (below d))
  = Returned match Host.readdirSync h dir with
             | Returned entries => flat_map (contribution h dir below) entries
             | Thrown _ => []
             end.
Proof.
  unfold scanDirectory. rewrite returning_swallow. f_equal.
  unfold bind, call. destruct (Host.readdirSync h dir) as [entries | e]; [|reflexivity].
  rewrite forEach_visit. reflexivity.
Qed.

Lemma scanDirectory_ext (dir : string) (f g : string -> outcome (list string)) :
  (forall d, f d = g d) -> scanDirectory h dir f = scanDirectory h dir g.
Proof.
  intros Hfg. unfold scanDirectory. rewrite !returning_swallow. do 2 f_equal.
  unfold bind, call. destruct (Host.readdirSync h dir) as [entries | e]; [|reflexivity].
  generalize (@nil string).
  induction entries as [|x entries IH]; intros files; simpl; [reflexivity|].
  assert (visit h dir f x files = visit h dir g x files) as Hx.
  { unfold visit. rewrite Hfg. reflexivity. }
  unfold bind. rewrite Hx.
  destruct (visit h dir g x files) as [files' [u | e]]; [apply IH|reflexivity].
Qed.

Lemma scanLevels_readable (levels : nat) (dir : string) :
  scanLevels h levels dir = Returned (readableFiles h levels dir).
Proof.
  revert dir. induction levels as [|n IH]; intros dir; simpl; [reflexivity|].
  rewrite (scanDirectory_ext dir _ (fun d => Returned (readableFiles h n d))) by exact IH.
  apply scanDirectory_returns.
Qed.

(** The function as the source writes it: the depth test, then the
    scan of the directory with the calls one level deeper. *)
Lemma findAgentUseFilesRecursive_unfold (dir : string) (maxDepth currentDepth : nat) :
  findAgentUseFilesRecursive h dir maxDepth currentDepth
  = if maxDepth <=? currentDepth then Returned []
    else scanDirectory h dir
           (fun sub => findAgentUseFilesRecursive h sub maxDepth (currentDepth + 1)).
Proof.
  unfold findAgentUseFilesRecursive.
  destruct (Nat.leb_spec maxDepth currentDepth) as [Hle | Hlt].
  - replace (maxDepth - currentDepth) with 0 by lia. reflexivity.
  - replace (maxDepth - currentDepth) with (S (maxDepth - (currentDepth + 1))) by lia.
    reflexivity.
Qed.

Lemma find_readable (dir : string) (maxDepth currentDepth : nat) :
  findAgentUseFilesRecursive h dir maxDepth currentDepth
  = Returned (readableFiles h (maxDepth - currentDepth) dir).
Proof. apply scanLevels_readable. Qed.

Lemma getAgentUseFilesWith_returns
      (discover : string -> nat -> nat -> outcome (list string))
      (document : Host.TextDocument) :
  getAgentUseFilesWith discover h document
  = Returned
      match Host.getWorkspaceFolder h (Host.fsPath document) with
      | None => []
      | Some folder =>
          match discover folder 3 0 with
          | Returned files =>
              map (fileItem h (Host.dirname h (Host.fsPath document))) files
          | Thrown _ => []
          end
      end.
Proof.
  unfold getAgentUseFilesWith.
  destruct (Host.getWorkspaceFolder h (Host.fsPath document)) as [folder|]; [|reflexivity].
  rewrite returning_swallow. f_equal. unfold bind, call.
  destruct (discover folder 3 0) as [files | e]; [|reflexivity].
  rewrite (forEach_modify files (fun file items => items ++ [fileItem h _ file])).
  simpl.
  apply (fold_left_push (fileItem h (Host.dirname h (Host.fsPath document))) files []).
Qed.

(** Soundness of the collected files. *)
Lemma readableFiles_sound (levels : nat) (dir path : string) :
  In path (readableFiles h levels dir) -> agentFileWithin h levels dir path.
Proof.
  revert dir. induction levels as [|n IH]; intros dir Hin; simpl in Hin; [contradiction|].
  destruct (Host.readdirSync h dir) as [entries | e] eqn:Hdir; [|contradiction].
  apply in_flat_map in Hin as (entry & Hentry & Hin).
  unfold contribution in Hin.
  destruct (visible (Host.name entry)) eqn:Hvis; [|contradiction].
  destruct entry as [name isDir]. simpl in *.
  destruct isDir.
  - apply IH in Hin as (dirs & file & Hlen & Hchain & Hv & Hends & Hlists & ->).
    exists (name :: dirs), file. simpl.
    repeat split; try assumption; [lia|].
    exists entries. split; assumption.
  - destruct (endsWith name ".agentuse") eqn:Hends; [|contradiction].
    destruct Hin as [<- | []].
    exists [], name. simpl.
    repeat split; try assumption; [lia|].
    exists entries. split; assumption.
Qed.

(** And completeness: every such file is collected. *)
Lemma readableFiles_complete (levels : nat) (dir path : string) :
  agentFileWithin h levels dir path -> In path (readableFiles h levels dir).
Proof.
  intros (dirs & name & Hlen & Hchain & Hv & Hends & Hlists & ->).
  revert dir levels Hlen Hchain Hlists.
  induction dirs as [|d dirs IH]; intros dir levels Hlen Hchain Hlists;
    (destruct levels as [|n]; [simpl in Hlen; lia|]); simpl in *.
  - destruct Hlists as (entries & -> & Hin).
    apply in_flat_map. eexists. split; [exact Hin|].
    unfold contribution. simpl. rewrite Hv, Hends. left. reflexivity.
  - destruct Hchain as (Hvd & (entries & Hdir & Hin) & Hchain).
    rewrite Hdir. apply in_flat_map. eexists. split; [exact Hin|].
    unfold contribution. simpl. rewrite Hvd.
    apply IH; [lia|assumption|assumption].
Qed.

End Scan.

End DiscoveryFacts.

Module DiscoveryClaims.
Import Exn Discovery DiscoveryFacts.

(** C6.  File discovery never lets an exception out.  The scan returns
    the files collected from the directories it could read, a directory
    that cannot be enumerated contributing nothing (and the scan of such
    a directory returning the empty list); [getAgentUseFiles] always
    returns, and returns the empty list when the document belongs to no
    workspace folder, when the scan it calls throws, and when the
    workspace folder itself cannot be enumerated. *)
Theorem discovery_swallows_failures (h : Host.t) :
  (forall dir maxDepth currentDepth,
      findAgentUseFilesRecursive h dir maxDepth currentDepth
      = Returned (readableFiles h (maxDepth - currentDepth) dir))
  /\ (forall dir maxDepth currentDepth e,
         Host.readdirSync h dir = Thrown e ->
         findAgentUseFilesRecursive h dir maxDepth currentDepth = Returned [])
  /\ (forall document, exists items, getAgentUseFiles h document = Returned items)
  /\ (forall document,
         Host.getWorkspaceFolder h (Host.fsPath document) = None ->
         getAgentUseFiles h document = Returned [])
  /\ (forall discover document folder e,
         Host.getWorkspaceFolder h (Host.fsPath document) = Some folder ->
         discover folder 3 0 = Thrown e ->
         getAgentUseFilesWith discover h document = Returned [])
  /\ (forall document folder e,
         Host.getWorkspaceFolder h (Host.fsPath document) = Some folder ->
         Host.readdirSync h folder = Thrown e ->
         getAgentUseFiles h document = Returned []).
Proof.
  split; [|split; [|split; [|split; [|split]]]].
  - intros. apply find_readable.
  - intros dir maxDepth currentDepth e He. rewrite find_readable.
    destruct (maxDepth - currentDepth); simpl; [reflexivity|]. rewrite He. reflexivity.
  - intros document. unfold getAgentUseFiles.
    rewrite getAgentUseFilesWith_returns. eexists. reflexivity.
  - intros document Hnone. unfold getAgentUseFiles.
    rewrite getAgentUseFilesWith_returns, Hnone. reflexivity.
  - intros discover document folder e Hsome Hthrow.
    rewrite getAgentUseFilesWith_returns, Hsome, Hthrow. reflexivity.
  - intros document folder e Hsome Hthrow. unfold getAgentUseFiles.
    rewrite getAgentUseFilesWith_returns, Hsome, find_readable. simpl.
    rewrite Hthrow. reflexivity.
Qed.

(** The directory of the sample workspace that cannot be read yields the
    empty list. *)
Lemma discovery_swallows_failures_witness :
  findAgentUseFilesRecursive Fixture.host "/ws/locked" 3 0 = Returned [].
Proof.
  apply (proj1 (proj2 (discovery_swallows_failures Fixture.host))
               "/ws/locked" 3 0 "EACCES").
  reflexivity.
Defined.

(** C10.  The scan called with a depth of three returns, and what it
    returns are exactly the paths of visible files whose names end in
    [.agentuse], reached from the directory through at most two visible
    subdirectories (fewer than three).  The function satisfies the
    source's equation: nothing at [currentDepth >= maxDepth], otherwise
    the scan of the directory with the calls at [currentDepth + 1]; it
    is total because [maxDepth - currentDepth] decreases. *)
Theorem scan_is_bounded (h : Host.t) (dir : string) :
  (exists files,
      findAgentUseFilesRecursive h dir 3 0 = Returned files
      /\ forall path, In path files <-> agentFileWithin h 3 dir path)
  /\ (forall start maxDepth currentDepth,
         findAgentUseFilesRecursive h start maxDepth currentDepth
         = if maxDepth <=? currentDepth then Returned []
           else scanDirectory h start
                  (fun sub => findAgentUseFilesRecursive h sub maxDepth (currentDepth + 1))).
Proof.
  split.
  - exists (readableFiles h 3 dir). split; [apply find_readable|].
    intros path. split; [apply readableFiles_sound|apply readableFiles_complete].
  - apply findAgentUseFilesRecursive_unfold.
Qed.

(** In the sample workspace the file two directories down is found. *)
Lemma scan_is_bounded_witness :
  agentFileWithin Fixture.host 3 "/ws" "/ws/agents/deep/third.agentuse".
Proof.
  destruct (proj1 (scan_is_bounded Fixture.host "/ws")) as (files & Hfiles & Hpaths).
  apply Hpaths.
  vm_compute in Hfiles. injection Hfiles as <-.
  right. right. left. reflexivity.
Defined.

(** The file three directories down is not. *)
Lemma fourth_level_is_not_scanned :
  findAgentUseFilesRecursive Fixture.host "/ws" 3 0
  = Returned [ "/ws/main.agentuse"; "/ws/agents/helper.agentuse";
               "/ws/agents/deep/third.agentuse" ].
Proof. vm_compute. reflexivity. Qed.

End DiscoveryClaims.

(** ** The pseudoterminal and the run command *)

Module TerminalFacts.
Import Js Text Terminal.

Lemma replaceLF_split (s : string) :
  replaceLF s = String.concat crlf (split LF s).
Proof.
  induction s as [|c r IH]; simpl; [reflexivity|].
  pose proof (JsFacts.split_nonempty LF r) as Hne.
  destruct (Ascii.eqb c LF) eqn:Hc.
  - rewrite IH. destruct (split LF r) as [|x xs]; [contradiction|]. reflexivity.
  - rewrite IH. destruct (split LF r) as [|x xs]; [contradiction|].
    destruct xs; reflexivity.
Qed.

Lemma replaceLF_fixed (s : string) :
  replaceLF s = s <-> ~ In LF (list_ascii_of_string s).
Proof.
  induction s as [|c r IH]; simpl.
  - split; [intros _ []|reflexivity].
  - destruct (Ascii.eqb_spec c LF) as [-> | Hne].
    + split; [discriminate|]. intros H. exfalso. apply H. left. reflexivity.
    + split.
      * intros H. injection H as H. intros [Heq | Hin]; [congruence|].
        apply IH in H. contradiction.
      * intros H. f_equal. apply IH. intros Hin. apply H. right. exact Hin.
Qed.

(** The exit code can be read back from the text that shows it. *)
Lemma showNumber_reads_back (code : Z) :
  option_map Z.of_int (NilZero.int_of_string (showNumber code)) = Some code.
Proof.
  unfold showNumber.
  destruct code as [|p|p]; [reflexivity| |].
  - rewrite NilZero.isi.
    + simpl. f_equal. apply (DecimalZ.of_to (Z.pos p)).
    + simpl. intros [= H]. exact (DecimalPos.Unsigned.to_uint_nonnil p H).
    + discriminate.
  - rewrite NilZero.isi.
    + simpl. f_equal. apply (DecimalZ.of_to (Z.neg p)).
    + discriminate.
    + simpl. intros [= H]. exact (DecimalPos.Unsigned.to_uint_nonnil p H).
Qed.

(** What reads the code back from the text that shows it: nothing for
    [null], the integer for a number. *)
Definition readCode (text : string) : option Z :=
  option_map Z.of_int (NilZero.int_of_string text).

Lemma readCode_showCode (code : option Z) : readCode (showCode code) = code.
Proof.
  destruct code as [n|]; [|reflexivity]. apply showNumber_reads_back.
Qed.

Lemma showCode_injective (a b : option Z) : showCode a = showCode b -> a = b.
Proof.
  intros H. rewrite <- (readCode_showCode a), <- (readCode_showCode b), H. reflexivity.
Qed.

End TerminalFacts.

Module TerminalClaims.
Import Js Text Terminal Commands TerminalFacts.

Lemma created_run (activeTextEditor : option Host.TextDocument) :
  created (run activeTextEditor)
  = match activeTextEditor with
    | Some document =>
        if endsWith (Host.fsPath document) ".agentuse"
        then [create (Host.fsPath document)] else []
    | None => []
    end.
Proof.
  destruct activeTextEditor as [document|]; [|reflexivity]. unfold run.
  destruct (endsWith (Host.fsPath document) ".agentuse"); reflexivity.
Qed.

Lemma spawned_app (xs ys : list Effect) : spawned (xs ++ ys) = spawned xs ++ spawned ys.
Proof. unfold spawned. apply omap_app. Qed.

Lemma spawned_run (activeTextEditor : option Host.TextDocument) :
  spawned (run activeTextEditor) = [].
Proof.
  destruct activeTextEditor as [document|]; [|reflexivity]. unfold run.
  destruct (endsWith (Host.fsPath document) ".agentuse"); reflexivity.
Qed.

Lemma spawned_runAction (h : Host.t) (child : ChildProcess)
      (activeTextEditor : option Host.TextDocument) :
  spawned (runAction h child activeTextEditor)
  = map (fun pty => ("agentuse", ["run"; filePath pty])) (created (run activeTextEditor)).
Proof.
  unfold runAction. rewrite spawned_app, spawned_run. simpl.
  induction (created (run activeTextEditor)) as [|pty ptys IH]; [reflexivity|].
  cbn [map concat]. rewrite spawned_app, IH. reflexivity.
Qed.

(** The calls of [cp.spawn]: opening the pseudoterminal makes one, with
    the command [agentuse] and the arguments [run] and the terminal's
    file path; a run action on a document whose path ends in [.agentuse]
    creates one terminal for that path, so that the whole action makes
    that one call with the document's path. *)
Lemma run_calls_spawn_once (h : Host.t) (child : ChildProcess) :
  (forall t, spawned (snd (open h child t)) = [("agentuse", ["run"; filePath t])])
  /\ (forall document,
         endsWith (Host.fsPath document) ".agentuse" = true ->
         created (run (Some document)) = [create (Host.fsPath document)]
         /\ spawned (run (Some document)) = []
         /\ spawned (runAction h child (Some document))
            = [("agentuse", ["run"; Host.fsPath document])]).
Proof.
  split; [reflexivity|].
  intros document Hends.
  rewrite spawned_runAction, spawned_run, created_run, Hends. repeat split.
Qed.

(** C2, as the claim states it, fails: a chunk that holds a line feed is
    not forwarded as received.  The chunk is the two bytes 61 0A, whose
    text is the letter a and a line feed. *)
Lemma line_feed_is_rewritten :
  Host.bufferToString Fixture.host [Byte.x61; Byte.x0a] = "a" +:+ nl
  /\ onStdout Fixture.host Fixture.running [Byte.x61; Byte.x0a] = [Fire ("a" +:+ crlf)]
  /\ onStdout Fixture.host Fixture.running [Byte.x61; Byte.x0a] <> [Fire ("a" +:+ nl)].
Proof. split; [reflexivity|]. split; [reflexivity|discriminate]. Qed.

(** C2, amended.  Every chunk of standard output and of standard error
    is forwarded as its text, which is what [toString] makes of the
    chunk's bytes, with each line feed replaced by a carriage return and
    a line feed and nothing else changed: the forwarded text is the
    lines of the chunk's text joined by CR LF, and it equals the chunk's
    text exactly when that text holds no line feed.  On close the
    display gets the rule and the line [Process exited with code] with
    the code as the template literal writes it, the code of a child that
    a signal ended (null) included; the line of one code is the line of
    no other. *)
Theorem output_is_forwarded_with_crlf
        (h : Host.t) (t : Pty) (p : ChildProcess) (chunk : Host.Buffer) (code : option Z) :
  process t = Some p ->
  (stdout p = true ->
   onStdout h t chunk = [Fire (replaceLF (Host.bufferToString h chunk))])
  /\ (stderr p = true ->
      onStderr h t chunk = [Fire (replaceLF (Host.bufferToString h chunk))])
  /\ replaceLF (Host.bufferToString h chunk)
     = String.concat crlf (split LF (Host.bufferToString h chunk))
  /\ (replaceLF (Host.bufferToString h chunk) = Host.bufferToString h chunk
      <-> ~ In LF (list_ascii_of_string (Host.bufferToString h chunk)))
  /\ onClose t code
     = [ Fire (crlf +:+ rule +:+ crlf);
         Fire ("Process exited with code " +:+ showCode code +:+ crlf) ]
  /\ (forall other, showCode other = showCode code -> other = code).
Proof.
  intros Hp. unfold onStdout, onStderr, onClose. rewrite Hp.
  split; [intros ->; reflexivity|].
  split; [intros ->; reflexivity|].
  split; [apply replaceLF_split|].
  split; [apply replaceLF_fixed|].
  split; [reflexivity|]. intros other. apply showCode_injective.
Qed.

Lemma output_is_forwarded_with_crlf_witness :
  onStdout Fixture.host Fixture.running (Fixture.bytes "done") = [Fire "done"]
  /\ onClose Fixture.running None
     = [ Fire (crlf +:+ rule +:+ crlf); Fire ("Process exited with code null" +:+ crlf) ].
Proof.
  destruct (output_is_forwarded_with_crlf
              Fixture.host Fixture.running Fixture.child (Fixture.bytes "done") None eq_refl)
    as (Hout & _ & _ & _ & Hclose & _).
  split; [exact (Hout eq_refl)|exact Hclose].
Defined.

(** C3.  The run command creates a terminal, and with it a process,
    exactly when there is an active editor whose file path ends in
    [.agentuse].  Without an editor, or with another path, the command
    shows one error message and does nothing else: no terminal, no
    process, no save. *)
Theorem run_requires_agentuse_file
        (h : Host.t) (child : ChildProcess) (activeTextEditor : option Host.TextDocument) :
  (created (run activeTextEditor) <> []
   <-> exists document, activeTextEditor = Some document
                        /\ endsWith (Host.fsPath document) ".agentuse" = true)
  /\ (spawned (runAction h child activeTextEditor) <> []
      <-> exists document, activeTextEditor = Some document
                           /\ endsWith (Host.fsPath document) ".agentuse" = true)
  /\ (activeTextEditor = None
      \/ (exists document, activeTextEditor = Some document
                           /\ endsWith (Host.fsPath document) ".agentuse" = false) ->
      (exists message, run activeTextEditor = [ShowErrorMessage message])
      /\ created (run activeTextEditor) = []
      /\ spawned (runAction h child activeTextEditor) = []
      /\ saved (run activeTextEditor) = []).
Proof.
  rewrite spawned_runAction, created_run.
  destruct activeTextEditor as [document|].
  - destruct (endsWith (Host.fsPath document) ".agentuse") eqn:Hends.
    + split; [|split].
      * split; [intros _; exists document; auto|discriminate].
      * split; [intros _; exists document; auto|discriminate].
      * intros [Hnone | (d & [= <-] & Hd)]; [discriminate|congruence].
    + split; [|split].
      * split; [congruence|]. intros (d & [= <-] & Hd). congruence.
      * split; [simpl; congruence|]. intros (d & [= <-] & Hd). congruence.
      * intros _. unfold run. rewrite Hends. simpl. eauto 6.
  - split; [|split].
    + split; [congruence|]. intros (d & Hd & _). discriminate.
    + split; [simpl; congruence|]. intros (d & Hd & _). discriminate.
    + intros _. simpl. eauto 6.
Qed.

Lemma run_requires_agentuse_file_witness :
  (exists message, run (Some Fixture.notes) = [ShowErrorMessage message])
  /\ created (run (Some Fixture.notes)) = []
  /\ spawned (runAction Fixture.host Fixture.child (Some Fixture.notes)) = []
  /\ saved (run (Some Fixture.notes)) = [].
Proof.
  apply (proj2 (proj2 (run_requires_agentuse_file
                         Fixture.host Fixture.child (Some Fixture.notes)))).
  right. exists Fixture.notes. split; reflexivity.
Defined.

(** C4.  An input that is the one character Ctrl+C, with a child that
    exists and is not killed, sends SIGINT to the child and writes
    nothing to its standard input.  Any other input, with a child that
    has a standard input, is written to it as it is, and no signal is
    sent.  In the remaining cases the terminal does nothing. *)
Theorem handleInput_forwards (t : Pty) (data : string) :
  (data = CtrlC ->
   forall p, process t = Some p -> killed p = false ->
             snd (handleInput t data) = [Kill (Some "SIGINT"); Fire ("^C" +:+ crlf)])
  /\ (data <> CtrlC ->
      forall p, process t = Some p -> stdin p = true ->
                handleInput t data = (t, [StdinWrite data]))
  /\ (data = CtrlC ->
      (process t = None \/ exists p, process t = Some p /\ killed p = true) ->
      handleInput t data = (t, []))
  /\ (data <> CtrlC ->
      (process t = None \/ exists p, process t = Some p /\ stdin p = false) ->
      handleInput t data = (t, [])).
Proof.
  unfold handleInput. repeat split.
  - intros -> p Hp Hk. rewrite String.eqb_refl, Hp, Hk. reflexivity.
  - intros Hne p Hp Hin. apply String.eqb_neq in Hne. rewrite Hne, Hp, Hin. reflexivity.
  - intros -> [Hp | (p & Hp & Hk)]; rewrite String.eqb_refl, Hp; [|rewrite Hk]; reflexivity.
  - intros Hne [Hp | (p & Hp & Hin)]; apply String.eqb_neq in Hne;
      rewrite Hne, Hp; [|rewrite Hin]; reflexivity.
Qed.

Lemma handleInput_forwards_witness :
  snd (handleInput Fixture.running CtrlC) = [Kill (Some "SIGINT"); Fire ("^C" +:+ crlf)]
  /\ handleInput Fixture.running "y" = (Fixture.running, [StdinWrite "y"]).
Proof.
  split.
  - apply (proj1 (handleInput_forwards Fixture.running CtrlC) eq_refl Fixture.child);
      reflexivity.
  - apply (proj1 (proj2 (handleInput_forwards Fixture.running "y"))) with Fixture.child;
      [discriminate|reflexivity|reflexivity].
Defined.

End TerminalClaims.

(** ** Top-level field completion *)

Module CompletionFacts.
Import Js Exn Blocks Completion JsFacts.

Lemma append_assoc (a b c : string) : (a +:+ b) +:+ c = a +:+ (b +:+ c).
Proof. induction a as [|x a IH]; simpl; [reflexivity|]. rewrite IH. reflexivity. Qed.

Lemma wordRun_split (s w rest : string) : wordRun s = (w, rest) -> s = w +:+ rest.
Proof.
  revert w rest. induction s as [|c r IH]; intros w rest H; simpl in H.
  - injection H as <- <-. reflexivity.
  - destruct (isWord c).
    + destruct (wordRun r) as [w' rest'] eqn:Hr. injection H as <- <-.
      simpl. f_equal. apply IH. reflexivity.
    + injection H as <- <-. reflexivity.
Qed.

Lemma wordRun_word (w tail : string) :
  forallb isWord (list_ascii_of_string w) = true ->
  wordRun (w +:+ String ":"%char tail) = (w, String ":"%char tail).
Proof.
  induction w as [|c w IH]; simpl; intros H; [reflexivity|].
  apply andb_true_iff in H as [Hc Hw]. rewrite Hc, (IH Hw). reflexivity.
Qed.

(** For a word, the key pattern finds it exactly on the lines that begin
    with the word and a colon. *)
Lemma matchKey_word (label line : string) :
  isWordString label = true ->
  matchKey line = Some label <-> startsWith (label +:+ ":") line = true.
Proof.
  intros Hlabel. unfold isWordString in Hlabel.
  apply andb_true_iff in Hlabel as [Hne Hword].
  split.
  - unfold matchKey. destruct (wordRun line) as [w rest] eqn:Hrun.
    destruct w as [|c w]; [discriminate|].
    destruct rest as [|colon tail]; [discriminate|].
    destruct (Ascii.eqb_spec colon ":"%char) as [-> | _]; [|discriminate].
    intros [= <-]. apply wordRun_split in Hrun. subst line.
    change (String ":"%char tail) with (":" +:+ tail).
    rewrite <- append_assoc. apply startsWith_app.
  - intros H. apply startsWith_inv in H as [tail ->].
    rewrite append_assoc. change (":" +:+ tail) with (String ":"%char tail).
    unfold matchKey. rewrite (wordRun_word label tail Hword).
    destruct label as [|c w]; [discriminate|]. reflexivity.
Qed.

Lemma existing_fold (lines : list string) (fields : gset string) (key : string) :
  key ∈ fold_left
          (fun fields line =>
             match matchKey line with
             | Some k => {[ k ]} ∪ fields
             | None => fields
             end) lines fields
  <-> key ∈ fields \/ exists line, In line lines /\ matchKey line = Some key.
Proof.
  revert fields. induction lines as [|l lines IH]; intros fields; simpl.
  - split; [auto|]. intros [H | (line & [] & _)]. exact H.
  - rewrite IH. destruct (matchKey l) as [k|] eqn:Hk.
    + rewrite elem_of_union, elem_of_singleton. split.
      * intros [[-> | H] | (line & Hin & Hm)]; eauto.
      * intros [H | (line & [<- | Hin] & Hm)]; eauto.
        left. left. congruence.
    + split.
      * intros [H | (line & Hin & Hm)]; eauto.
      * intros [H | (line & [<- | Hin] & Hm)]; eauto. congruence.
Qed.

(** [getExistingFields] holds the keys the key pattern finds on some
    line. *)
Lemma getExistingFields_spec (frontmatter key : string) :
  key ∈ getExistingFields frontmatter
  <-> exists line, In line (split LF frontmatter) /\ matchKey line = Some key.
Proof.
  unfold getExistingFields. rewrite existing_fold. split.
  - intros [H | H]; [|exact H]. apply not_elem_of_empty in H. contradiction.
  - auto.
Qed.

Lemma has_word_label (frontmatter label : string) :
  isWordString label = true ->
  bool_decide (label ∈ getExistingFields frontmatter) = declares frontmatter label.
Proof.
  intros Hlabel. apply eq_true_iff_eq.
  rewrite bool_decide_eq_true, getExistingFields_spec.
  unfold declares. rewrite existsb_exists.
  split; intros (line & Hin & H); exists line; (split; [exact Hin|]);
    apply (matchKey_word label line Hlabel); exact H.
Qed.

Definition wordLabels (T : Schema.Tables) : Prop :=
  Forall (fun f => isWordString (FieldItem.label f) = true) (Schema.FRONTMATTER_FIELDS T).

Lemma topLevelCompletions_undeclared (T : Schema.Tables) (frontmatter : string) :
  wordLabels T ->
  topLevelCompletions T frontmatter = map fieldCompletion (undeclaredFields T frontmatter).
Proof.
  intros Hwords. unfold topLevelCompletions, undeclaredFields. f_equal.
  apply filter_ext_in. intros f Hin.
  rewrite has_word_label; [reflexivity|].
  unfold wordLabels in Hwords. rewrite List.Forall_forall in Hwords. auto.
Qed.

(** No indentation and nothing but whitespace: the prefix is empty. *)
Lemma blank_unindented (linePrefix : string) :
  leadingSpaces linePrefix = 0 -> trim linePrefix = "" -> linePrefix = "".
Proof.
  destruct linePrefix as [|c r]; [reflexivity|]. simpl leadingSpaces.
  destruct (isSpace c) eqn:Hc; [discriminate|]. intros _ Htrim.
  pose proof (truthy_trim_cons c r Hc) as H. rewrite Htrim in H. discriminate.
Qed.

(** With an empty line prefix inside the frontmatter, both revisions of
    the provider return the top-level fields. *)
Lemma provideWith_top_level
      (opensMcp : string -> bool)
      (suggest : Schema.Tables -> nat -> string -> option (list Item.t))
      (T : Schema.Tables) (h : Host.t)
      (document : Host.TextDocument) (position : Host.Position)
      (frontmatter : string) (frontmatterEnd : nat) :
  (forall T, suggest T 0 "" = None) ->
  frontmatterMatch (Host.getText document) = Some (frontmatter, frontmatterEnd) ->
  4 <= Host.offsetAt document position <= frontmatterEnd ->
  substringTo (Host.character position) (Host.lineAt document (Host.line position)) = "" ->
  provideWith opensMcp suggest T h document position
  = Returned (topLevelCompletions T frontmatter).
Proof.
  intros Hsuggest Hmatch Hoffset Hprefix. unfold provideWith.
  rewrite Hmatch, Hprefix.
  destruct (Nat.ltb_spec (Host.offsetAt document position) 4); [lia|].
  destruct (Nat.ltb_spec frontmatterEnd (Host.offsetAt document position)); [lia|].
  simpl. rewrite Hsuggest.
  destruct (isInBlock opensMcp (Host.line position) frontmatter);
    unfold afterMcpServers; simpl; rewrite !andb_false_r; reflexivity.
Qed.

End CompletionFacts.

Module CompletionClaims.
Import Js Exn Completion CompletionFacts.

Lemma generated_word_labels (models : list ModelItem.t) :
  wordLabels (Generated.tables models).
Proof. unfold wordLabels. simpl. repeat constructor. Qed.

Lemma legacy_word_labels : wordLabels Legacy.tables.
Proof. unfold wordLabels. simpl. repeat constructor. Qed.

(** The item of a table entry, field by field: the entry's label, the
    kind Property, the entry's detail, and the entry's insert text as
    plain text. *)
Lemma fieldCompletion_fields (f : FieldItem.t) :
  fieldCompletion f
  = {| Item.label := FieldItem.label f;
       Item.kind := Item.Property;
       Item.detail := FieldItem.detail f;
       Item.insertText := Item.PlainText (FieldItem.insertText f) |}.
Proof. reflexivity. Qed.

(** C9.  With the cursor inside the frontmatter, on a line prefix that
    has no indentation and is blank, the provider returns one item for
    each entry of [FRONTMATTER_FIELDS] whose label does not occur at the
    start of a frontmatter line followed by a colon, in table order, and
    nothing else.  The item of an entry has the entry's label, the kind
    Property, the entry's detail and the entry's insert text.  A label
    that the frontmatter declares is the label of no returned item, and
    every label of the table that it does not declare is the label of
    one.  This holds whatever the block classifiers answer, in the
    current revision with the generated table and in the earlier one
    with its own. *)
Theorem top_level_fields_offered_once
        (models : list ModelItem.t) (h : Host.t)
        (document : Host.TextDocument) (position : Host.Position)
        (frontmatter : string) (frontmatterEnd : nat) :
  frontmatterMatch (Host.getText document) = Some (frontmatter, frontmatterEnd) ->
  4 <= Host.offsetAt document position <= frontmatterEnd ->
  leadingSpaces
    (substringTo (Host.character position) (Host.lineAt document (Host.line position))) = 0 ->
  trim
    (substringTo (Host.character position) (Host.lineAt document (Host.line position))) = "" ->
  forall (T : Schema.Tables) (result : outcome (list Item.t)),
    (T = Generated.tables models
     /\ result = provideCompletionItems T h document position)
    \/ (T = Legacy.tables
        /\ result = LegacyCompletion.provideCompletionItems T h document position) ->
    exists items,
      result = Returned items
      /\ items
         = map (fun f => {| Item.label := FieldItem.label f;
                            Item.kind := Item.Property;
                            Item.detail := FieldItem.detail f;
                            Item.insertText := Item.PlainText (FieldItem.insertText f) |})
               (List.filter (fun f => negb (declares frontmatter (FieldItem.label f)))
                            (Schema.FRONTMATTER_FIELDS T))
      /\ map Item.label items
         = List.filter (fun label => negb (declares frontmatter label))
                       (map FieldItem.label (Schema.FRONTMATTER_FIELDS T))
      /\ (forall label,
             In label (map Item.label items)
             <-> In label (map FieldItem.label (Schema.FRONTMATTER_FIELDS T))
                 /\ declares frontmatter label = false).
Proof.
  intros Hmatch Hoffset Hindent Hblank T result Hwhich.
  pose proof (blank_unindented _ Hindent Hblank) as Hprefix.
  assert (result = Returned (map fieldCompletion (undeclaredFields T frontmatter))) as ->.
  { destruct Hwhich as [[-> ->] | [-> ->]].
    - unfold provideCompletionItems.
      rewrite (provideWith_top_level _ _ _ _ _ _ frontmatter frontmatterEnd);
        try assumption; [|reflexivity].
      rewrite topLevelCompletions_undeclared by apply generated_word_labels. reflexivity.
    - unfold LegacyCompletion.provideCompletionItems.
      rewrite (provideWith_top_level _ _ _ _ _ _ frontmatter frontmatterEnd);
        try assumption; [|reflexivity].
      rewrite topLevelCompletions_undeclared by apply legacy_word_labels. reflexivity. }
  exists (map fieldCompletion (undeclaredFields T frontmatter)).
  split; [reflexivity|]. unfold undeclaredFields.
  assert (map Item.label
              (map fieldCompletion
                   (List.filter (fun f => negb (declares frontmatter (FieldItem.label f)))
                                (Schema.FRONTMATTER_FIELDS T)))
          = List.filter (fun label => negb (declares frontmatter label))
                        (map FieldItem.label (Schema.FRONTMATTER_FIELDS T))) as Hlabels.
  { induction (Schema.FRONTMATTER_FIELDS T) as [|f fields IH]; [reflexivity|].
    cbn [List.filter map].
    destruct (declares frontmatter (FieldItem.label f)); cbn [negb map];
      rewrite IH; reflexivity. }
  split; [apply map_ext; intros f; apply fieldCompletion_fields|].
  split; [exact Hlabels|].
  intros label. rewrite Hlabels, filter_In, negb_true_iff. reflexivity.
Qed.

(** On the empty line before the closing dashes of the sample document,
    whose frontmatter declares [model], [mcpServers] and [subagents],
    the current revision offers the five other fields of the generated
    table, each with the detail and the insert text the table gives
    it. *)
Lemma top_level_fields_offered_once_witness :
  exists items,
    provideCompletionItems (Generated.tables []) Fixture.host Fixture.agent (Fixture.at_ 7 0)
    = Returned items
    /\ map Item.label items = ["description"; "timeout"; "maxSteps"; "openai"; "tools"]
    /\ map Item.kind items
       = [Item.Property; Item.Property; Item.Property; Item.Property; Item.Property]
    /\ map Item.detail items
       = [ "Brief description of what the agent does";
           "Execution timeout in seconds (default: 300)";
           "Maximum reasoning steps (default: 100)";
           "OpenAI-specific options (reasoningEffort, textVerbosity)";
           "Custom tool configurations (filesystem, bash)" ]
    /\ map Item.insertText items
       = [ Item.PlainText "description: ";
           Item.PlainText "timeout: ";
           Item.PlainText "maxSteps: ";
           Item.PlainText ("openai:" +:+ Text.nl +:+ "  reasoningEffort: ");
           Item.PlainText ("tools:" +:+ Text.nl +:+ "  filesystem:" +:+ Text.nl
                           +:+ "    - path: ") ].
Proof.
  destruct (top_level_fields_offered_once
              [] Fixture.host Fixture.agent (Fixture.at_ 7 0)
              Fixture.agentFrontmatter 93
              ltac:(vm_compute; reflexivity)
              ltac:(vm_compute; lia)
              ltac:(vm_compute; reflexivity)
              ltac:(vm_compute; reflexivity)
              (Generated.tables [])
              (provideCompletionItems (Generated.tables []) Fixture.host Fixture.agent
                                      (Fixture.at_ 7 0))
              (or_introl (conj eq_refl eq_refl))) as (items & Hresult & Hitems & _).
  exists items. split; [exact Hresult|]. rewrite Hitems.
  repeat split; vm_compute; reflexivity.
Defined.

End CompletionClaims.

(** ** The heap: what a call leaves as it was *)

Module StoreFacts.
Import Js Text Exn Blocks Completion Terminal Extension Store.

(** A value that is no reference below the address [n]. *)
Definition fresh (n : nat) (v : value) : Prop :=
  match v with
  | Ref address => n <= address
  | _ => True
  end.

(** On every heap of at least [n] objects the block leaves the first
    [n] objects as they are and removes none; what it returns satisfies
    [Q]. *)
Definition keeps {A} (n : nat) (m : Block Heap A) (Q : A -> Prop) : Prop :=
  forall h,
    n <= length h ->
    take n (fst (m h)) = take n h
    /\ length h <= length (fst (m h))
    /\ match snd (m h) with
       | Returned a => Q a
       | Thrown _ => True
       end.

(** The heap is the same after as before. *)
Ltac same_heap := simpl; repeat split; solve [ auto | lia ].

Lemma keeps_ret {A} (n : nat) (a : A) (Q : A -> Prop) : Q a -> keeps n (ret a) Q.
Proof. intros Ha h Hn. same_heap. Qed.

Lemma keeps_bind {A B} (n : nat) (m : Block Heap A) (k : A -> Block Heap B)
      (P : A -> Prop) (Q : B -> Prop) :
  keeps n m P -> (forall a, P a -> keeps n (k a) Q) -> keeps n (bind m k) Q.
Proof.
  intros Hm Hk h Hn. unfold bind.
  destruct (Hm h Hn) as (Htake & Hlen & Hres).
  destruct (m h) as [h1 [a|e]]; simpl in *.
  - destruct (Hk a Hres h1 ltac:(lia)) as (Htake' & Hlen' & Hres').
    split; [congruence|]. split; [lia|exact Hres'].
  - same_heap.
Qed.

Lemma keeps_weaken {A} (n : nat) (m : Block Heap A) (P Q : A -> Prop) :
  keeps n m P -> (forall a, P a -> Q a) -> keeps n m Q.
Proof.
  intros Hm HPQ h Hn. destruct (Hm h Hn) as (Htake & Hlen & Hres).
  split; [exact Htake|]. split; [exact Hlen|].
  destruct (snd (m h)); auto.
Qed.

Lemma keeps_call {A} (n : nat) (o : outcome A) : keeps n (call o) (fun _ => True).
Proof. intros h Hn. destruct o; same_heap. Qed.

Lemma keeps_alloc (n : nat) (o : object) : keeps n (alloc o) (fresh n).
Proof.
  intros h Hn. unfold alloc, place. simpl. rewrite length_app. simpl.
  split; [apply take_app_le; exact Hn|]. split; lia.
Qed.

Lemma keeps_getProperty (n : nat) (target : value) (key : string) :
  keeps n (getProperty target key) (fun _ => True).
Proof.
  intros h Hn. unfold getProperty.
  destruct target as [| | | | address | | |]; try same_heap.
  destruct (_ !! address) as [[properties|elements]|]; same_heap.
Qed.

Lemma keeps_insert (n address : nat) (o : object) (h : Heap) :
  n <= address ->
  take n (<[ address := o ]> h) = take n h /\ length h <= length (<[ address := o ]> h).
Proof.
  intros Hfresh. rewrite length_insert. split; [|lia].
  apply take_insert_ge. exact Hfresh.
Qed.

Lemma keeps_setProperty (n : nat) (target : value) (key : string) (x : value) :
  fresh n target -> keeps n (setProperty target key x) (fun _ => True).
Proof.
  intros Hfresh h Hn. unfold setProperty.
  destruct target as [| | | | address | | |]; try same_heap.
  destruct (_ !! address) as [[properties|elements]|]; try same_heap.
  destruct (keeps_insert n address (Fields (assign properties key x)) h Hfresh).
  simpl. auto.
Qed.

Lemma keeps_push (n : nat) (target x : value) :
  fresh n target -> keeps n (push target x) (fun _ => True).
Proof.
  intros Hfresh h Hn. unfold push.
  destruct target as [| | | | address | | |]; try same_heap.
  destruct (_ !! address) as [[properties|elements]|]; try same_heap.
  destruct (keeps_insert n address (Elements (elements ++ [x])) h Hfresh).
  simpl. auto.
Qed.

Lemma keeps_elementsOf (n : nat) (target : value) :
  keeps n (elementsOf target) (fun _ => True).
Proof.
  intros h Hn. unfold elementsOf.
  destruct target as [| | | | address | | |]; try same_heap.
  destruct (_ !! address) as [[properties|elements]|]; same_heap.
Qed.

Lemma keeps_propertiesOf (n : nat) (target : value) :
  keeps n (propertiesOf target) (fun _ => True).
Proof.
  intros h Hn. unfold propertiesOf.
  destruct target as [| | | | address | | |]; try same_heap.
  destruct (_ !! address) as [[properties|elements]|]; same_heap.
Qed.

Lemma keeps_forEachValue {A} (n : nat) (xs : list value) (callback : value -> Block Heap A)
      (Q : A -> Prop) :
  (forall x, keeps n (callback x) Q) ->
  keeps n (forEachValue xs callback) (fun _ => True).
Proof.
  intros Hcallback. induction xs as [|x xs IH]; simpl.
  - apply keeps_ret. exact I.
  - apply keeps_bind with (P := Q); [apply Hcallback|]. intros y _.
    apply keeps_bind with (P := fun _ => True); [exact IH|]. intros ys _.
    apply keeps_ret. exact I.
Qed.

Lemma keeps_allocAll (n : nat) (objects : list object) :
  keeps n (allocAll objects) (fun _ => True).
Proof.
  induction objects as [|o objects IH]; simpl.
  - apply keeps_ret. exact I.
  - apply keeps_bind with (P := fresh n); [apply keeps_alloc|]. intros v _.
    apply keeps_bind with (P := fun _ => True); [exact IH|]. intros vs _.
    apply keeps_ret. exact I.
Qed.

Lemma keeps_evalAll (n : nat) (elements : list (Block Heap value)) (Q : value -> Prop) :
  Forall (fun element => keeps n element Q) elements ->
  keeps n (evalAll elements) (fun _ => True).
Proof.
  induction 1 as [|element elements Helement _ IH]; simpl.
  - apply keeps_ret. exact I.
  - apply keeps_bind with (P := Q); [exact Helement|]. intros v _.
    apply keeps_bind with (P := fun _ => True); [exact IH|]. intros vs _.
    apply keeps_ret. exact I.
Qed.

Lemma keeps_findValue (n : nat) (xs : list value) (callback : value -> Block Heap bool) :
  (forall x, keeps n (callback x) (fun _ => True)) ->
  keeps n (findValue xs callback) (fun _ => True).
Proof.
  intros Hcallback. induction xs as [|x xs IH]; simpl.
  - apply keeps_ret. exact I.
  - apply keeps_bind with (P := fun _ => True); [apply Hcallback|].
    intros [|] _; [apply keeps_ret; exact I|exact IH].
Qed.

Lemma keeps_forEach {A} (n : nat) (xs : list A) (body : A -> Block Heap unit) :
  (forall x, keeps n (body x) (fun _ => True)) ->
  keeps n (forEach xs body) (fun _ => True).
Proof.
  intros Hbody. induction xs as [|x xs IH]; simpl.
  - apply keeps_ret. exact I.
  - apply keeps_bind with (P := fun _ => True); [apply Hbody|]. intros _ _. exact IH.
Qed.

Lemma keeps_tryCatch (n : nat) (body : Block Heap unit) (handler : string -> Block Heap unit) :
  keeps n body (fun _ => True) ->
  (forall e, keeps n (handler e) (fun _ => True)) ->
  keeps n (tryCatch body handler) (fun _ => True).
Proof.
  intros Hbody Hhandler h Hn. unfold tryCatch.
  destruct (Hbody h Hn) as (Htake & Hlen & _).
  destruct (body h) as [h1 [[]|e]]; simpl in *; [auto|].
  destruct (Hhandler e h1 ltac:(lia)) as (Htake' & Hlen' & Hres).
  split; [congruence|]. split; [lia|]. destruct (snd (handler e h1)); exact I.
Qed.

(** One step of a proof that a block keeps the heap: the rule of the
    block's first call. *)
Ltac keeps_step :=
  match goal with
  | |- keeps _ (ret _) _ => apply keeps_ret; simpl; auto
  | |- keeps _ (bind (alloc _) _) _ =>
      eapply keeps_bind; [apply keeps_alloc|intros ? ?]
  | |- keeps _ (bind (getProperty _ _) _) _ =>
      eapply keeps_bind; [apply keeps_getProperty|intros ? _]
  | |- keeps _ (bind (setProperty _ _ _) _) _ =>
      eapply keeps_bind; [apply keeps_setProperty; assumption|intros _ _]
  | |- keeps _ (bind (push _ _) _) _ =>
      eapply keeps_bind; [apply keeps_push; assumption|intros _ _]
  | |- keeps _ (bind (elementsOf _) _) _ =>
      eapply keeps_bind; [apply keeps_elementsOf|intros ? _]
  | |- keeps _ (bind (propertiesOf _) _) _ =>
      eapply keeps_bind; [apply keeps_propertiesOf|intros ? _]
  | |- keeps _ (bind (call _) _) _ =>
      eapply keeps_bind; [apply keeps_call|intros ? _]
  | |- keeps _ (alloc _) _ => apply keeps_alloc
  | |- keeps _ (push _ _) _ => apply keeps_push; assumption
  end.

Lemma keeps_createCompletion (n : nat) (label detail insertText : value) (kind : Item.Kind) :
  keeps n (createCompletion label detail insertText kind) (fresh n).
Proof. unfold createCompletion. repeat keeps_step. Qed.

Lemma keeps_createSnippetCompletion (n : nat) (label detail snippet : value)
      (kind : Item.Kind) :
  keeps n (createSnippetCompletion label detail snippet kind) (fresh n).
Proof. unfold createSnippetCompletion. repeat keeps_step. Qed.

Lemma keeps_arrayMap (n : nat) (array : value) (callback : value -> Block Heap value)
      (Q : value -> Prop) :
  (forall x, keeps n (callback x) Q) -> keeps n (arrayMap array callback) (fresh n).
Proof.
  intros Hcallback. unfold arrayMap. keeps_step.
  eapply keeps_bind; [apply (keeps_forEachValue n _ callback Q Hcallback)|].
  intros ys _. apply keeps_alloc.
Qed.

Lemma keeps_arrayFilter (n : nat) (array : value) (callback : value -> Block Heap bool)
      (Q : bool -> Prop) :
  (forall x, keeps n (callback x) Q) -> keeps n (arrayFilter array callback) (fresh n).
Proof.
  intros Hcallback. unfold arrayFilter. keeps_step.
  eapply keeps_bind; [apply (keeps_forEachValue n _ callback Q Hcallback)|].
  intros keep _. apply keeps_alloc.
Qed.

Lemma keeps_arrayFind (n : nat) (array : value) (callback : value -> Block Heap bool) :
  (forall x, keeps n (callback x) (fun _ => True)) ->
  keeps n (arrayFind array callback) (fun _ => True).
Proof.
  intros Hcallback. unfold arrayFind. keeps_step. apply keeps_findValue. exact Hcallback.
Qed.

Lemma keeps_arrayOf (n : nat) (elements : list (Block Heap value)) :
  Forall (fun element => keeps n element (fresh n)) elements ->
  keeps n (arrayOf elements) (fresh n).
Proof.
  intros Helements. unfold arrayOf.
  eapply keeps_bind; [apply (keeps_evalAll n elements (fresh n) Helements)|].
  intros vs _. apply keeps_alloc.
Qed.

Lemma keeps_fieldCompletion (n : nat) (f : value) : keeps n (fieldCompletion f) (fresh n).
Proof. unfold fieldCompletion. repeat keeps_step. apply keeps_createCompletion. Qed.

Lemma keeps_modelCompletions (n : nat) (R : Refs) : keeps n (modelCompletions R) (fresh n).
Proof.
  unfold modelCompletions. apply keeps_arrayMap with (Q := fresh n). intros m.
  repeat keeps_step. apply keeps_createCompletion.
Qed.

Lemma keeps_commandCompletions (n : nat) (R : Refs) : keeps n (commandCompletions R) (fresh n).
Proof.
  unfold commandCompletions. apply keeps_arrayMap with (Q := fresh n). intros c.
  repeat keeps_step. apply keeps_createCompletion.
Qed.

Lemma keeps_serverFieldCompletions (n : nat) (R : Refs) :
  keeps n (serverFieldCompletions R) (fresh n).
Proof.
  unfold serverFieldCompletions. apply keeps_arrayMap with (Q := fresh n).
  apply keeps_fieldCompletion.
Qed.

Lemma keeps_topLevelCompletions (n : nat) (R : Refs) (frontmatter : string) :
  keeps n (topLevelCompletions R frontmatter) (fresh n).
Proof.
  unfold topLevelCompletions.
  eapply keeps_bind.
  - apply keeps_arrayFilter with (Q := fun _ => True). intros f. repeat keeps_step.
  - intros remaining _. apply keeps_arrayMap with (Q := fresh n).
    apply keeps_fieldCompletion.
Qed.

Lemma keeps_serverTemplates (n : nat) (R : Refs) : keeps n (serverTemplates R) (fresh n).
Proof.
  unfold serverTemplates, objectEntries.
  eapply keeps_bind.
  - keeps_step. eapply keeps_bind; [apply keeps_allocAll|]. intros entries _.
    apply keeps_alloc.
  - intros entries _. apply keeps_arrayMap with (Q := fresh n). intros entry.
    repeat keeps_step. apply keeps_createSnippetCompletion.
Qed.

Lemma keeps_getAgentUseFiles (n : nat) (h : Host.t) (document : Host.TextDocument) :
  keeps n (getAgentUseFiles h document) (fresh n).
Proof.
  unfold getAgentUseFiles.
  destruct (Host.getWorkspaceFolder h (Host.fsPath document)) as [workspaceFolder|];
    [|apply keeps_alloc].
  keeps_step.
  eapply keeps_bind; [|intros _ _; apply keeps_ret; assumption].
  apply keeps_tryCatch; [|intros e; apply keeps_ret; exact I].
  keeps_step. apply keeps_forEach. intros file. repeat keeps_step.
Qed.

Lemma keeps_afterMcpServers (n : nat) (R : Refs) (h : Host.t) (document : Host.TextDocument)
      (frontmatter linePrefix : string) (indent : nat) (inSubagents inTools : bool) :
  keeps n (afterMcpServers R h document frontmatter linePrefix indent inSubagents inTools)
        (fresh n).
Proof.
  unfold afterMcpServers.
  repeat match goal with
         | |- keeps _ (if ?b then _ else _) _ => destruct b
         end;
    first [ apply keeps_getAgentUseFiles
          | apply keeps_topLevelCompletions
          | apply keeps_arrayOf;
            repeat (apply List.Forall_cons; [apply keeps_createCompletion|]);
            apply List.Forall_nil ].
Qed.

(** Both revisions of the completion provider leave every object that
    was there before the call as it was, and return a new array. *)
Lemma keeps_provideWith (n : nat)
      (opensMcp : string -> bool)
      (inMcpServersBlock : Refs -> nat -> string -> option (Block Heap value))
      (R : Refs) (h : Host.t) (document : Host.TextDocument) (position : Host.Position) :
  (forall indent linePrefix suggestions,
      inMcpServersBlock R indent linePrefix = Some suggestions ->
      keeps n suggestions (fresh n)) ->
  keeps n (provideWith opensMcp inMcpServersBlock R h document position) (fresh n).
Proof.
  intros Hsuggest. unfold provideWith.
  destruct (frontmatterMatch (Host.getText document)) as [[frontmatter frontmatterEnd]|].
  - destruct ((Host.offsetAt document position <? 4)
              || (frontmatterEnd <? Host.offsetAt document position));
      [apply keeps_arrayOf; apply List.Forall_nil|].
    destruct (matchesKeyOnly "model:" _); [apply keeps_modelCompletions|].
    destruct (matchesCommandValue _); [apply keeps_commandCompletions|].
    destruct (if isInBlock opensMcp (Host.line position) frontmatter then _ else None)
      as [suggestions|] eqn:Hblock.
    + destruct (isInBlock opensMcp (Host.line position) frontmatter); [|discriminate].
      exact (Hsuggest _ _ _ Hblock).
    + apply keeps_afterMcpServers.
  - destruct ((Host.line position =? 0) && String.eqb _ "").
    + apply keeps_arrayOf.
      apply List.Forall_cons; [apply keeps_createSnippetCompletion|apply List.Forall_nil].
    + apply keeps_arrayOf. apply List.Forall_nil.
Qed.

Lemma keeps_provideCompletionItems (n : nat) (R : Refs) (h : Host.t)
      (document : Host.TextDocument) (position : Host.Position) :
  keeps n (provideCompletionItems R h document position) (fresh n).
Proof.
  apply keeps_provideWith. intros indent linePrefix suggestions. unfold mcpServerSuggestions.
  destruct ((4 <=? indent) && String.eqb (trim linePrefix) ""); [|discriminate].
  intros [= <-]. apply keeps_serverFieldCompletions.
Qed.

Lemma keeps_provideLegacyCompletionItems (n : nat) (R : Refs) (h : Host.t)
      (document : Host.TextDocument) (position : Host.Position) :
  keeps n (provideLegacyCompletionItems R h document position) (fresh n).
Proof.
  apply keeps_provideWith. intros indent linePrefix suggestions. unfold legacySuggestions.
  destruct ((indent =? 2) && String.eqb (trim linePrefix) "").
  - intros [= <-]. apply keeps_serverTemplates.
  - destruct ((4 <=? indent) && String.eqb (trim linePrefix) ""); [|discriminate].
    intros [= <-]. apply keeps_serverFieldCompletions.
Qed.

Lemma keeps_hover (n : nat) (contents : value) : keeps n (hover contents) (fresh n).
Proof. unfold hover. repeat keeps_step. Qed.

Lemma keeps_provideHover (n : nat) (R : Refs) (document : Host.TextDocument)
      (position : Host.Position) :
  keeps n (provideHover R document position) (fresh n).
Proof.
  unfold provideHover.
  destruct (Host.wordAt document position) as [word|]; [|apply keeps_ret; exact I].
  repeat keeps_step.
  destruct (truthy _ && Hover.includes _ _).
  - keeps_step. apply keeps_hover.
  - eapply keeps_bind with (P := fun _ => True).
    + destruct (Hover.includes "model:" _); [|apply keeps_ret; exact I].
      apply keeps_arrayFind. intros m. keeps_step.
      destruct (isString _ word); [apply keeps_ret; exact I|]. repeat keeps_step.
    + intros modelInfo _. destruct (truthy modelInfo).
      * repeat keeps_step. apply keeps_hover.
      * keeps_step. destruct (truthy _); [|apply keeps_ret; exact I].
        repeat keeps_step. apply keeps_hover.
Qed.

End StoreFacts.

(** ** The models that sync-cli scrapes *)

Module ModelFacts.
Import Js Text SyncModels.

Lemma insertSorted_permutation {A} (compare : A -> A -> Z) (x : A) (sorted : list A) :
  Permutation (insertSorted compare x sorted) (x :: sorted).
Proof.
  induction sorted as [|y rest IH]; simpl; [reflexivity|].
  destruct (compare x y <=? 0)%Z; [reflexivity|].
  rewrite IH. apply perm_swap.
Qed.

(** The sort permutes: it drops no element and adds none. *)
Lemma sort_permutation {A} (compare : A -> A -> Z) (xs : list A) :
  Permutation (sort compare xs) xs.
Proof.
  induction xs as [|x xs IH]; simpl; [reflexivity|].
  rewrite insertSorted_permutation, IH. reflexivity.
Qed.

Lemma withEnds_names (contentLength : nat) (found : list Provider) :
  map providerName (withEnds contentLength found) = map providerName found.
Proof.
  induction found as [|p found IH]; simpl; [reflexivity|]. rewrite IH. reflexivity.
Qed.

Lemma found_names (content : string) :
  Forall (fun name => In name providerStarts) (map providerName (found content)).
Proof.
  unfold found, providerStarts. simpl.
  destruct (indexOfProvider "anthropic" content),
           (indexOfProvider "openai" content),
           (indexOfProvider "openrouter" content);
    simpl; repeat (apply List.Forall_cons; [simpl; tauto|]); apply List.Forall_nil.
Qed.

Lemma providers_names (content : string) :
  Forall (fun name => In name providerStarts) (map providerName (providers content)).
Proof.
  unfold providers. rewrite withEnds_names.
  eapply Permutation_Forall; [|apply found_names].
  symmetry. apply Permutation_map. apply sort_permutation.
Qed.

(** Every scraped model comes with one of the three provider names. *)
Lemma scraped_names (content : string) :
  Forall (fun found => In (fst found) providerStarts) (scraped content).
Proof.
  unfold scraped. pose proof (providers_names content) as Hnames.
  induction (providers content) as [|p ps IH]; simpl; [apply List.Forall_nil|].
  inversion Hnames as [|name names Hp Hps]; subst.
  apply Forall_app. split; [|apply IH; exact Hps].
  apply List.Forall_forall. intros found Hin.
  apply in_map_iff in Hin as (block & <- & _). exact Hp.
Qed.

Lemma append_injective (p a b : string) : p +:+ a = p +:+ b -> a = b.
Proof.
  induction p as [|c p IH]; simpl; [auto|]. intros [= H]. apply IH. exact H.
Qed.

(** A label tells its provider and its id: none of the three names
    followed by a colon begins another. *)
Lemma label_injective (p q a b : string) :
  In p providerStarts -> In q providerStarts ->
  p +:+ ":" +:+ a = q +:+ ":" +:+ b -> p = q /\ a = b.
Proof.
  unfold providerStarts. simpl.
  intros [<- | [<- | [<- | []]]] [<- | [<- | [<- | []]]] H;
    try discriminate H;
    (split; [reflexivity|]);
    apply append_injective in H; injection H as H; exact H.
Qed.

Lemma NoDup_map_on {A B C} (f : A -> B) (g : A -> C) (xs : list A) :
  (forall x y, In x xs -> In y xs -> f x = f y -> g x = g y) ->
  NoDup (map g xs) -> NoDup (map f xs).
Proof.
  intros Hfg. induction xs as [|x xs IH]; simpl; intros Hg; [constructor|].
  apply NoDup_cons in Hg as [Hx Hg]. apply NoDup_cons. split.
  - intros Hin. apply Hx. apply list_elem_of_In in Hin.
    apply in_map_iff in Hin as (y & Hy & Hin).
    apply list_elem_of_In. apply in_map_iff. exists y. split; [|exact Hin].
    apply Hfg; [right; exact Hin|left; reflexivity|exact Hy].
  - apply IH; [|exact Hg]. intros a b Ha Hb. apply Hfg; right; assumption.
Qed.

(** The labels that [parseModels] returns are pairwise distinct exactly
    when the scan finds no id twice for one provider. *)
Lemma parseModels_labels (localeCompare : string -> string -> Z) (content : string) :
  NoDup (map ModelItem.label (parseModels localeCompare content))
  <-> NoDup (scrapedIds content).
Proof.
  unfold parseModels, scrapedIds.
  rewrite (Permutation_map ModelItem.label (sort_permutation _ _)), map_map.
  pose proof (scraped_names content) as Hnames.
  rewrite List.Forall_forall in Hnames.
  split; apply NoDup_map_on; intros x y Hx Hy; simpl.
  - intros [= Hp Hid]. rewrite Hp, Hid. reflexivity.
  - intros H. apply label_injective in H as [Hp Hid]; auto. congruence.
Qed.

End ModelFacts.

(** ** The heap over a run of requests *)

Module StoreInvariant.
Import Js Text Exn Terminal Extension Store StoreFacts.

(** Every object of [h] is in [h'], at its address and as it was. *)
Definition extends (h h' : Heap) : Prop :=
  forall address o, h !! address = Some o -> h' !! address = Some o.

Lemma fieldsAt_extends (h h' : Heap) (v : value) (properties : list (string * value)) :
  extends h h' -> fieldsAt h v = Some properties -> fieldsAt h' v = Some properties.
Proof.
  intros Hext. unfold fieldsAt. destruct v as [| | | | address | | |]; try discriminate.
  destruct (h !! address) as [o|] eqn:Ho; [|discriminate].
  rewrite (Hext address o Ho). auto.
Qed.

Lemma elementsAt_extends (h h' : Heap) (v : value) (elements : list value) :
  extends h h' -> elementsAt h v = Some elements -> elementsAt h' v = Some elements.
Proof.
  intros Hext. unfold elementsAt. destruct v as [| | | | address | | |]; try discriminate.
  destruct (h !! address) as [o|] eqn:Ho; [|discriminate].
  rewrite (Hext address o Ho). auto.
Qed.

Lemma mapM_extends {A B} (f g : A -> option B) (xs : list A) (ys : list B) :
  (forall x y, f x = Some y -> g x = Some y) ->
  mapM f xs = Some ys -> mapM g xs = Some ys.
Proof.
  intros Hfg. rewrite !mapM_Some. intros H.
  induction H as [|x y xs ys Hxy _ IH]; constructor; auto.
Qed.

Lemma infoAt_extends (h h' : Heap) (v : value) (info : ModelItem.info) :
  extends h h' -> infoAt h v = Some info -> infoAt h' v = Some info.
Proof.
  intros Hext. unfold infoAt.
  destruct (fieldsAt h v) as [properties|] eqn:Hfields; [|discriminate].
  rewrite (fieldsAt_extends _ _ _ _ Hext Hfields). auto.
Qed.

Lemma modelAt_extends (h h' : Heap) (v : value) (m : ModelItem.t) :
  extends h h' -> modelAt h v = Some m -> modelAt h' v = Some m.
Proof.
  intros Hext. unfold modelAt.
  destruct (fieldsAt h v) as [properties|] eqn:Hfields; [|discriminate].
  rewrite (fieldsAt_extends _ _ _ _ Hext Hfields). simpl.
  destruct (stringOf properties "label") as [label|]; [|discriminate]. simpl.
  destruct (stringOf properties "detail") as [detail|]; [|discriminate]. simpl.
  destruct (JsObject.ownProperty properties "info") as [reference|]; [|auto].
  destruct (infoAt h reference) as [info|] eqn:Hinfo; [|discriminate].
  rewrite (infoAt_extends _ _ _ _ Hext Hinfo). auto.
Qed.

Lemma fieldAt_extends (h h' : Heap) (v : value) (f : FieldItem.t) :
  extends h h' -> fieldAt h v = Some f -> fieldAt h' v = Some f.
Proof.
  intros Hext. unfold fieldAt.
  destruct (fieldsAt h v) as [properties|] eqn:Hfields; [|discriminate].
  rewrite (fieldsAt_extends _ _ _ _ Hext Hfields). auto.
Qed.

Lemma commandAt_extends (h h' : Heap) (v : value) (c : CommandItem.t) :
  extends h h' -> commandAt h v = Some c -> commandAt h' v = Some c.
Proof.
  intros Hext. unfold commandAt.
  destruct (fieldsAt h v) as [properties|] eqn:Hfields; [|discriminate].
  rewrite (fieldsAt_extends _ _ _ _ Hext Hfields). auto.
Qed.

Lemma templateAt_extends (h h' : Heap) (v : value) (t : MCPServerTemplate.t) :
  extends h h' -> templateAt h v = Some t -> templateAt h' v = Some t.
Proof.
  intros Hext. unfold templateAt.
  destruct (fieldsAt h v) as [properties|] eqn:Hfields; [|discriminate].
  rewrite (fieldsAt_extends _ _ _ _ Hext Hfields). auto.
Qed.

Lemma arrayAt_extends {A} (entryAt : Heap -> value -> option A) (h h' : Heap)
      (v : value) (entries : list A) :
  extends h h' ->
  (forall x y, entryAt h x = Some y -> entryAt h' x = Some y) ->
  arrayAt entryAt h v = Some entries -> arrayAt entryAt h' v = Some entries.
Proof.
  intros Hext Hentry. unfold arrayAt.
  destruct (elementsAt h v) as [elements|] eqn:Helements; [|discriminate].
  rewrite (elementsAt_extends _ _ _ _ Hext Helements). simpl.
  apply mapM_extends. exact Hentry.
Qed.

Lemma serversAt_extends (h h' : Heap) (v : value)
      (servers : list (string * MCPServerTemplate.t)) :
  extends h h' -> serversAt h v = Some servers -> serversAt h' v = Some servers.
Proof.
  intros Hext. unfold serversAt.
  destruct (fieldsAt h v) as [properties|] eqn:Hfields; [|discriminate].
  rewrite (fieldsAt_extends _ _ _ _ Hext Hfields). simpl.
  apply mapM_extends. intros property entry.
  destruct (templateAt h (snd property)) as [template|] eqn:Htemplate; [|discriminate].
  rewrite (templateAt_extends _ _ _ _ Hext Htemplate). auto.
Qed.

(** The tables read from a heap are read from every heap that extends
    it. *)
Lemma tablesAt_extends (h h' : Heap) (R : Refs) (T : Schema.Tables) :
  extends h h' -> tablesAt h R = Some T -> tablesAt h' R = Some T.
Proof.
  intros Hext. unfold tablesAt.
  destruct (arrayAt modelAt h (MODELS R)) as [models|] eqn:Hmodels; [|discriminate].
  rewrite (arrayAt_extends _ _ _ _ _ Hext (fun x y => modelAt_extends h h' x y Hext) Hmodels).
  simpl.
  destruct (arrayAt fieldAt h (FRONTMATTER_FIELDS R)) as [fields|] eqn:Hfields;
    [|discriminate].
  rewrite (arrayAt_extends _ _ _ _ _ Hext (fun x y => fieldAt_extends h h' x y Hext) Hfields).
  simpl.
  destruct (arrayAt fieldAt h (MCP_SERVER_FIELDS R)) as [serverFields|] eqn:Hserver;
    [|discriminate].
  rewrite (arrayAt_extends _ _ _ _ _ Hext (fun x y => fieldAt_extends h h' x y Hext) Hserver).
  simpl.
  destruct (arrayAt commandAt h (MCP_COMMANDS R)) as [commands|] eqn:Hcommands;
    [|discriminate].
  rewrite (arrayAt_extends _ _ _ _ _ Hext (fun x y => commandAt_extends h h' x y Hext)
                           Hcommands).
  simpl.
  destruct (serversAt h (COMMON_MCP_SERVERS R)) as [servers|] eqn:Hservers; [|discriminate].
  rewrite (serversAt_extends _ _ _ _ Hext Hservers). auto.
Qed.

(** The first [n] objects are as they were: the heap of before, cut at
    [n], is extended. *)
Lemma take_extends (n : nat) (h h' : Heap) :
  n = length h -> take n h' = take n h -> extends h h'.
Proof.
  intros -> Htake address o Ho. rewrite firstn_all in Htake.
  rewrite <- Htake in Ho. apply lookup_take_Some in Ho as [Ho _]. exact Ho.
Qed.

(** The two revisions of the completion provider. *)
Definition revision (provide : Provider) : Prop :=
  provide = provideCompletionItems \/ provide = provideLegacyCompletionItems.

Lemma revision_keeps (provide : Provider) (n : nat) (R : Refs) (h : Host.t)
      (document : Host.TextDocument) (position : Host.Position) :
  revision provide -> keeps n (provide R h document position) (fresh n).
Proof.
  intros [-> | ->];
    [apply keeps_provideCompletionItems|apply keeps_provideLegacyCompletionItems].
Qed.

Lemma onTerminal_heap (s : State) (i : nat) (f : Pty -> Pty * list Effect) :
  heap (fst (onTerminal s i f)) = heap s /\ refs (fst (onTerminal s i f)) = refs s.
Proof. unfold onTerminal. destruct (terminals s !! i); auto. Qed.

(** One request: the objects that were there are as they were, none is
    gone, and the constants refer to what they referred to. *)
Lemma handleWith_keeps (provide : Provider) (h : Host.t) (s : State) (r : Request) (n : nat) :
  revision provide -> n <= length (heap s) ->
  take n (heap (fst (handleWith provide h s r))) = take n (heap s)
  /\ length (heap s) <= length (heap (fst (handleWith provide h s r)))
  /\ refs (fst (handleWith provide h s r)) = refs s.
Proof.
  intros Hprovide Hn.
  destruct r; simpl;
    try match goal with
        | |- context [onTerminal ?s ?i ?f] => destruct (onTerminal_heap s i f) as [-> ->]
        end;
    try (split; [reflexivity|split; [lia|reflexivity]]).
  - destruct (revision_keeps provide n (refs s) h document position Hprovide (heap s) Hn)
      as (Htake & Hlen & _). auto.
  - destruct (keeps_provideHover n (refs s) document position (heap s) Hn)
      as (Htake & Hlen & _). auto.
Qed.

Lemma after_keeps (provide : Provider) (h : Host.t) (requests : list Request)
      (s : State) (n : nat) :
  revision provide -> n <= length (heap s) ->
  take n (heap (after provide h s requests)) = take n (heap s)
  /\ refs (after provide h s requests) = refs s.
Proof.
  intros Hprovide. revert s. induction requests as [|r requests IH]; intros s Hn.
  - split; reflexivity.
  - destruct (handleWith_keeps provide h s r n Hprovide Hn) as (Htake & Hlen & Hrefs).
    destruct (IH (fst (handleWith provide h s r)) ltac:(lia)) as (Htake' & Hrefs').
    unfold after in *. simpl. rewrite Htake', Hrefs'. auto.
Qed.

End StoreInvariant.

(** ** The heap when the module has been loaded *)

Module StoreLoad.
Import Js Text Exn Store StoreInvariant.

Lemma extends_refl (h : Heap) : extends h h.
Proof. intros address o Ho. exact Ho. Qed.

Lemma extends_trans (h1 h2 h3 : Heap) : extends h1 h2 -> extends h2 h3 -> extends h1 h3.
Proof. intros H12 H23 address o Ho. apply H23, H12, Ho. Qed.

Lemma place_extends (o : object) (h : Heap) : extends h (fst (place o h)).
Proof. intros address x Hx. simpl. apply lookup_app_l_Some. exact Hx. Qed.

Lemma place_fields (properties : list (string * value)) (h : Heap) :
  fieldsAt (fst (place (Fields properties) h)) (snd (place (Fields properties) h))
  = Some properties.
Proof. simpl. rewrite list_lookup_middle by reflexivity. reflexivity. Qed.

Lemma place_elements (elements : list value) (h : Heap) :
  elementsAt (fst (place (Elements elements) h)) (snd (place (Elements elements) h))
  = Some elements.
Proof. simpl. rewrite list_lookup_middle by reflexivity. reflexivity. Qed.

(** What placing one entry gives: the heap is extended and the entry
    is read back at the reference. *)
Definition placed {A} (placeOne : A -> Heap -> Heap * value)
           (read : Heap -> value -> A -> Prop) : Prop :=
  forall x h,
    extends h (fst (placeOne x h))
    /\ read (fst (placeOne x h)) (snd (placeOne x h)) x.

(** A read that holds on a heap holds on every heap that extends it. *)
Definition lasting {A} (read : Heap -> value -> A -> Prop) : Prop :=
  forall h h' v x, extends h h' -> read h v x -> read h' v x.

Lemma placed_field : placed (fun f => place (fieldObject f)) (fun h v f => fieldAt h v = Some f).
Proof.
  intros f h. split; [apply place_extends|].
  unfold fieldAt, fieldObject. rewrite place_fields.
  destruct f as [label detail insertText [required|]]; reflexivity.
Qed.

Lemma placed_command :
  placed (fun c => place (commandObject c)) (fun h v c => commandAt h v = Some c).
Proof.
  intros c h. split; [apply place_extends|].
  unfold commandAt, commandObject. rewrite place_fields. destruct c. reflexivity.
Qed.

Lemma placed_template :
  placed (fun entry : string * MCPServerTemplate.t => place (templateObject (snd entry)))
         (fun h v entry => templateAt h v = Some (snd entry)).
Proof.
  intros [name template] h. split; [apply place_extends|].
  unfold templateAt, templateObject. rewrite place_fields. destruct template. reflexivity.
Qed.

Lemma placed_model : placed placeModel (fun h v m => modelAt h v = Some m).
Proof.
  intros m h. unfold placeModel.
  destruct m as [label detail [info|]]; cbn [ModelItem.modelInfo].
  - pose proof (place_extends (infoObject info) h) as Hext.
    assert (infoAt (fst (place (infoObject info) h)) (snd (place (infoObject info) h))
            = Some info) as Hread.
    { unfold infoAt, infoObject. rewrite place_fields. destruct info. reflexivity. }
    destruct (place (infoObject info) h) as [h1 reference]. cbn [fst snd] in Hext, Hread.
    split.
    + eapply extends_trans; [exact Hext|apply place_extends].
    + unfold modelAt, modelObject. rewrite place_fields. cbn.
      assert (forall k, extends h1 (h1 ++ k)) as Happ
          by (intros k address o Ho; apply lookup_app_l_Some; exact Ho).
      rewrite (infoAt_extends h1 _ reference info (Happ _) Hread). reflexivity.
  - split; [apply place_extends|].
    unfold modelAt, modelObject. rewrite place_fields. reflexivity.
Qed.

Lemma placeAll_spec {A} (placeOne : A -> Heap -> Heap * value)
      (read : Heap -> value -> A -> Prop) (xs : list A) (h : Heap) :
  placed placeOne read -> lasting read ->
  extends h (fst (placeAll placeOne xs h))
  /\ Forall2 (read (fst (placeAll placeOne xs h))) (snd (placeAll placeOne xs h)) xs.
Proof.
  intros Hplaced Hlasting. revert h. induction xs as [|x xs IH]; intros h; simpl.
  - split; [apply extends_refl|constructor].
  - destruct (Hplaced x h) as [Hext Hread].
    destruct (placeOne x h) as [h1 v]. simpl in Hext, Hread.
    destruct (IH h1) as [Hext' Hall].
    destruct (placeAll placeOne xs h1) as [h2 vs]. simpl in *.
    split; [eapply extends_trans; eassumption|].
    constructor; [|exact Hall]. eapply Hlasting; eassumption.
Qed.

Lemma placeArray_spec {A} (placeOne : A -> Heap -> Heap * value)
      (entryAt : Heap -> value -> option A) (xs : list A) (h : Heap) :
  placed placeOne (fun h v x => entryAt h v = Some x) ->
  lasting (fun h v x => entryAt h v = Some x) ->
  extends h (fst (placeArray placeOne xs h))
  /\ arrayAt entryAt (fst (placeArray placeOne xs h)) (snd (placeArray placeOne xs h))
     = Some xs.
Proof.
  intros Hplaced Hlasting. unfold placeArray.
  destruct (placeAll_spec placeOne _ xs h Hplaced Hlasting) as [Hext Hall].
  destruct (placeAll placeOne xs h) as [h1 vs]. simpl in Hext, Hall.
  split; [eapply extends_trans; [exact Hext|apply place_extends]|].
  unfold arrayAt. rewrite place_elements. simpl. apply mapM_Some.
  eapply Forall2_impl; [exact Hall|].
  intros v x Hv. eapply Hlasting; [apply place_extends|exact Hv].
Qed.

(** Writing a key that is not there yet adds it at the end. *)
Lemma assign_new (properties : list (string * value)) (key : string) (x : value) :
  ~ In key (map fst properties) -> assign properties key x = properties ++ [(key, x)].
Proof.
  induction properties as [|[k v] properties IH]; simpl; intros Hnew; [reflexivity|].
  destruct (String.eqb_spec k key) as [-> | _]; [exfalso; apply Hnew; left; reflexivity|].
  rewrite IH by (intros Hin; apply Hnew; right; exact Hin). reflexivity.
Qed.

(** With pairwise distinct keys, an object literal has its properties
    as they are written. *)
Lemma objectLiteral_distinct (properties : list (string * value)) :
  NoDup (map fst properties) -> objectLiteral properties = Fields properties.
Proof.
  unfold objectLiteral. intros Hdistinct. f_equal.
  assert (forall written,
             NoDup (map fst written ++ map fst properties) ->
             fold_left (fun written property => assign written (fst property) (snd property))
                       properties written
             = written ++ properties) as Hfold.
  { clear Hdistinct. induction properties as [|[k v] properties IH]; intros written Hd; simpl.
    - rewrite app_nil_r. reflexivity.
    - rewrite assign_new.
      + rewrite IH; [rewrite <- app_assoc; reflexivity|].
        rewrite map_app, <- app_assoc. exact Hd.
      + simpl in Hd. apply NoDup_app in Hd as (_ & Hd & _).
        intros Hin. apply (Hd k); [apply list_elem_of_In; exact Hin|left]. }
  apply (Hfold []). exact Hdistinct.
Qed.

Lemma servers_read (h : Heap) (references : list value)
      (servers : list (string * MCPServerTemplate.t)) :
  Forall2 (fun v entry => templateAt h v = Some (snd entry)) references servers ->
  mapM (fun property => template ← templateAt h (snd property);
                        Some (fst property, template))
       (combine (map fst servers) references)
  = Some servers.
Proof.
  intros Hall. apply mapM_Some.
  induction Hall as [|v [name template] references servers Hv _ IH]; simpl; constructor.
  - simpl in *. rewrite Hv. reflexivity.
  - exact IH.
Qed.

Lemma combine_keys {A B} (keys : list A) (values : list B) :
  length keys = length values -> map fst (combine keys values) = keys.
Proof.
  revert values. induction keys as [|k keys IH]; intros [|v values]; simpl;
    try discriminate; [reflexivity|]. intros [= Hlen]. rewrite IH by exact Hlen. reflexivity.
Qed.

(** Reading the tables back.  With pairwise distinct server names, the
    heap that the load of the module leaves holds the five tables, and
    the constants refer to them. *)
Lemma tablesAt_load (T : Schema.Tables) :
  NoDup (map fst (Schema.COMMON_MCP_SERVERS T)) ->
  tablesAt (fst (load T)) (snd (load T)) = Some T.
Proof.
  intros Hdistinct. unfold load.
  destruct (placeArray_spec placeModel modelAt (Schema.MODELS T) []
                            placed_model
                            (fun h h' v x Hext => modelAt_extends h h' v x Hext))
    as [_ Hmodels].
  destruct (placeArray placeModel (Schema.MODELS T) []) as [h1 models].
  destruct (placeArray_spec (fun f => place (fieldObject f)) fieldAt
                            (Schema.FRONTMATTER_FIELDS T) h1 placed_field
                            (fun h h' v x Hext => fieldAt_extends h h' v x Hext))
    as [Hext2 Hfields].
  destruct (placeArray (fun f => place (fieldObject f)) (Schema.FRONTMATTER_FIELDS T) h1)
    as [h2 fields].
  destruct (placeArray_spec (fun f => place (fieldObject f)) fieldAt
                            (Schema.MCP_SERVER_FIELDS T) h2 placed_field
                            (fun h h' v x Hext => fieldAt_extends h h' v x Hext))
    as [Hext3 Hserver].
  destruct (placeArray (fun f => place (fieldObject f)) (Schema.MCP_SERVER_FIELDS T) h2)
    as [h3 serverFields].
  destruct (placeArray_spec (fun c => place (commandObject c)) commandAt
                            (Schema.MCP_COMMANDS T) h3 placed_command
                            (fun h h' v x Hext => commandAt_extends h h' v x Hext))
    as [Hext4 Hcommands].
  destruct (placeArray (fun c => place (commandObject c)) (Schema.MCP_COMMANDS T) h3)
    as [h4 commands].
  destruct (placeAll_spec (fun entry => place (templateObject (snd entry)))
                          (fun h v entry => templateAt h v = Some (snd entry))
                          (Schema.COMMON_MCP_SERVERS T) h4 placed_template
                          (fun h h' v x Hext => templateAt_extends h h' v (snd x) Hext))
    as [Hext5 Htemplates].
  destruct (placeAll (fun entry => place (templateObject (snd entry)))
                     (Schema.COMMON_MCP_SERVERS T) h4) as [h5 templates].
  simpl in *.
  assert (length (map fst (Schema.COMMON_MCP_SERVERS T)) = length templates) as Hlen.
  { rewrite length_map. symmetry. exact (Forall2_length _ _ _ Htemplates). }
  rewrite objectLiteral_distinct by (rewrite combine_keys; assumption).
  set (properties := combine (map fst (Schema.COMMON_MCP_SERVERS T)) templates) in *.
  pose proof (place_extends (Fields properties) h5) as Hext6.
  pose proof (place_fields properties h5) as Hobject.
  unfold place in *. cbn [fst snd] in *.
  set (h6 := h5 ++ [Fields properties]) in *.
  assert (extends h4 h6) as H46 by (eapply extends_trans; eassumption).
  assert (extends h3 h6) as H36 by (eapply extends_trans; eassumption).
  assert (extends h2 h6) as H26 by (eapply extends_trans; eassumption).
  assert (extends h1 h6) as H16 by (eapply extends_trans; eassumption).
  unfold tablesAt. cbn [MODELS FRONTMATTER_FIELDS MCP_SERVER_FIELDS MCP_COMMANDS
                        COMMON_MCP_SERVERS].
  rewrite (arrayAt_extends _ _ _ _ _ H16 (fun x y => modelAt_extends h1 h6 x y H16) Hmodels).
  rewrite (arrayAt_extends _ _ _ _ _ H26 (fun x y => fieldAt_extends h2 h6 x y H26) Hfields).
  rewrite (arrayAt_extends _ _ _ _ _ H36 (fun x y => fieldAt_extends h3 h6 x y H36) Hserver).
  rewrite (arrayAt_extends _ _ _ _ _ H46 (fun x y => commandAt_extends h4 h6 x y H46)
                           Hcommands).
  unfold serversAt. rewrite Hobject. cbn [mbind option_bind].
  subst properties. rewrite (servers_read h6 templates (Schema.COMMON_MCP_SERVERS T)).
  - destruct T. reflexivity.
  - eapply Forall2_impl; [exact Htemplates|].
    intros v entry Hv. exact (templateAt_extends h5 h6 v (snd entry) Hext6 Hv).
Qed.

End StoreLoad.

(** ** The tables *)

Module TableClaims.
Import Exn Terminal Extension.

Lemma legacy_distinct : distinctKeys Legacy.tables.
Proof.
  unfold distinctKeys.
  repeat split; apply (bool_decide_unpack _); vm_compute; exact I.
Qed.

(** The four tables that sync-cli writes out as they stand have pairwise
    distinct labels, so that the generated tables have distinct keys
    exactly when the scraped models have. *)
Lemma generated_distinct (models : list ModelItem.t) :
  NoDup (fieldLabels (Generated.tables models))
  /\ NoDup (serverFieldLabels (Generated.tables models))
  /\ NoDup (commandLabels (Generated.tables models))
  /\ NoDup (serverNames (Generated.tables models))
  /\ (distinctKeys (Generated.tables models) <-> NoDup (map ModelItem.label models)).
Proof.
  assert (NoDup (fieldLabels (Generated.tables models))
          /\ NoDup (serverFieldLabels (Generated.tables models))
          /\ NoDup (commandLabels (Generated.tables models))
          /\ NoDup (serverNames (Generated.tables models))) as Hfixed
      by (repeat split; apply (bool_decide_unpack _); vm_compute; exact I).
  destruct Hfixed as (Hfields & Hserver & Hcommands & Hnames).
  repeat (split; [assumption|]). unfold distinctKeys. split.
  - intros [Hmodels _]. exact Hmodels.
  - intros Hmodels. repeat (split; [assumption|]). assumption.
Qed.

(** C7, as the claim states it, fails for the generated [MODELS]: a
    file of models in which an alias has the [id] of another entry of
    its provider gives a table with one label twice. *)
Lemma generated_models_repeat_a_label :
  map ModelItem.label
      (SyncModels.parseModels Samples.compareUnits Samples.registryWithAlias)
  = [ "anthropic:claude-opus-4-1"; "anthropic:claude-opus-4-1"; "openai:gpt-5" ]
  /\ ~ distinctKeys
         (Generated.tables
            (SyncModels.parseModels Samples.compareUnits Samples.registryWithAlias)).
Proof.
  assert (map ModelItem.label
              (SyncModels.parseModels Samples.compareUnits Samples.registryWithAlias)
          = [ "anthropic:claude-opus-4-1"; "anthropic:claude-opus-4-1"; "openai:gpt-5" ])
    as Hlabels by (vm_compute; reflexivity).
  split; [exact Hlabels|].
  intros [Hmodels _]. unfold modelLabels in Hmodels.
  cbn [Schema.MODELS Generated.tables] in Hmodels. rewrite Hlabels in Hmodels.
  apply NoDup_cons in Hmodels as [Hnot _]. apply Hnot. left.
Qed.

(** C7, amended.  The keys of each table that the sources declare are
    pairwise distinct: the five tables of the earlier revision, and the
    four tables that sync-cli writes out as they stand.  The generated
    [MODELS] has one entry for each model that [parseModels] scrapes,
    labelled with provider, colon and id, and no duplicate is removed:
    its labels are pairwise distinct exactly when the scan finds no id
    twice for one provider.  No request to the extension, completion,
    hover, run, terminal input or process event, in either revision of
    the completion provider, changes a table: on the heap where the
    module's load has put the tables, every object that was there after
    the load is there, unchanged, after any sequence of requests, the
    five constants refer to what they referred to, and the tables read
    from the heap are those of load time. *)
Theorem tables_are_keyed_and_read_only :
  distinctKeys Legacy.tables
  /\ (forall localeCompare registry,
         let T := Generated.tables (SyncModels.parseModels localeCompare registry) in
         NoDup (fieldLabels T) /\ NoDup (serverFieldLabels T)
         /\ NoDup (commandLabels T) /\ NoDup (serverNames T)
         /\ (NoDup (modelLabels T) <-> NoDup (SyncModels.scrapedIds registry)))
  /\ (forall provide h T requests,
         provide = Store.provideCompletionItems
         \/ provide = Store.provideLegacyCompletionItems ->
         NoDup (serverNames T) ->
         Store.refs (Store.after provide h (Store.loaded T) requests)
         = Store.refs (Store.loaded T)
         /\ (forall address o,
                Store.heap (Store.loaded T) !! address = Some o ->
                Store.heap (Store.after provide h (Store.loaded T) requests) !! address
                = Some o)
         /\ Store.tablesAt (Store.heap (Store.loaded T)) (Store.refs (Store.loaded T))
            = Some T
         /\ Store.tablesAt (Store.heap (Store.after provide h (Store.loaded T) requests))
                           (Store.refs (Store.after provide h (Store.loaded T) requests))
            = Some T).
Proof.
  split; [exact legacy_distinct|]. split.
  - intros localeCompare registry T.
    destruct (generated_distinct (SyncModels.parseModels localeCompare registry))
      as (Hfields & Hserver & Hcommands & Hnames & _).
    repeat (split; [assumption|]).
    apply ModelFacts.parseModels_labels.
  - intros provide h T requests Hprovide Hnames.
    destruct (StoreInvariant.after_keeps
                provide h requests (Store.loaded T)
                (length (Store.heap (Store.loaded T))) Hprovide (le_n _))
      as [Htake Hrefs].
    pose proof (StoreInvariant.take_extends _ _ _ eq_refl Htake) as Hext.
    pose proof (StoreLoad.tablesAt_load T Hnames) as Hload.
    split; [exact Hrefs|]. split; [exact Hext|]. split; [exact Hload|].
    rewrite Hrefs. exact (StoreInvariant.tablesAt_extends _ _ _ _ Hext Hload).
Qed.

(** The sample file of models without the alias gives distinct labels;
    after a completion of the model, a hover, a run and a completion of
    the top-level fields, the earlier revision's tables are on the heap
    as they were loaded. *)
Lemma tables_are_keyed_and_read_only_witness :
  NoDup (modelLabels (Generated.tables
                        (SyncModels.parseModels Samples.compareUnits Samples.registry)))
  /\ Store.tablesAt
       (Store.heap
          (Store.after Store.provideLegacyCompletionItems Fixture.host
                       (Store.loaded Legacy.tables)
                       [ Complete Samples.modelDocument (Fixture.at_ 1 7);
                         HoverAt (Samples.hovered "model: openai:gpt-5-mini" "mini")
                                 (Fixture.at_ 0 20);
                         Run (Some Fixture.agent);
                         Complete Fixture.agent (Fixture.at_ 7 0) ]))
       (Store.refs (Store.loaded Legacy.tables))
     = Some Legacy.tables.
Proof.
  destruct tables_are_keyed_and_read_only as (_ & Hgenerated & Hkept).
  split.
  - apply (Hgenerated Samples.compareUnits Samples.registry).
    apply (bool_decide_unpack _). vm_compute. exact I.
  - destruct (Hkept Store.provideLegacyCompletionItems Fixture.host Legacy.tables
                    [ Complete Samples.modelDocument (Fixture.at_ 1 7);
                      HoverAt (Samples.hovered "model: openai:gpt-5-mini" "mini")
                              (Fixture.at_ 0 20);
                      Run (Some Fixture.agent);
                      Complete Fixture.agent (Fixture.at_ 7 0) ]
                    (or_intror eq_refl))
      as (Hrefs & _ & _ & Hafter).
    + apply (bool_decide_unpack _). vm_compute. exact I.
    + rewrite <- Hrefs. exact Hafter.
Defined.

(** What the two embeddings of the providers return is the same.  On
    the heap that the load of the tables leaves, at every position of a
    grid over a document that has a line for each branch, the items
    that the completion provider allocates, read back, are the items of
    the provider on the tables themselves; so for both revisions, in a
    workspace and outside one, and for a text without frontmatter. *)
Lemma heap_items_are_the_items :
  let generated :=
    Generated.tables (SyncModels.parseModels Samples.compareUnits Samples.registryWithAlias) in
  Forall (fun document =>
            map (fun position =>
                   Store.itemsOn Legacy.tables
                     (fun R => Store.provideLegacyCompletionItems R Fixture.host document position))
                Samples.grid
            = map (fun position =>
                     Some (LegacyCompletion.provideCompletionItems
                             Legacy.tables Fixture.host document position))
                  Samples.grid
            /\ map (fun position =>
                      Store.itemsOn generated
                        (fun R => Store.provideCompletionItems R Fixture.host document position))
                   Samples.grid
               = map (fun position =>
                        Some (Completion.provideCompletionItems
                                generated Fixture.host document position))
                     Samples.grid)
         [ Samples.branches "/ws/main.agentuse" "mcp_servers:";
           Samples.branches "/ws/main.agentuse" "mcpServers:";
           Samples.branches "/elsewhere/main.agentuse" "mcpServers:";
           Fixture.textDocument "/ws/main.agentuse" "" ].
Proof.
  intros generated.
  repeat (apply List.Forall_cons; [split; vm_compute; reflexivity|]).
  apply List.Forall_nil.
Qed.

(** The same for the hover provider, on lines that name a documented
    field, a model, a server, a member of [Object.prototype] and
    nothing. *)
Lemma heap_hovers_are_the_hovers :
  let generated :=
    Generated.tables (SyncModels.parseModels Samples.compareUnits Samples.registryWithAlias) in
  Forall (fun T =>
            map (fun hovered =>
                   Store.hoverOn T
                     (fun R => Store.provideHover R (Samples.hovered (fst hovered) (snd hovered))
                                                  (Fixture.at_ 0 0)))
                Samples.hoveredWords
            = map (fun hovered =>
                     Some (Hover.provideHover T (Samples.hovered (fst hovered) (snd hovered))
                                              (Fixture.at_ 0 0)))
                  Samples.hoveredWords)
         [ Legacy.tables; generated ].
Proof.
  intros generated.
  repeat (apply List.Forall_cons; [vm_compute; reflexivity|]).
  apply List.Forall_nil.
Qed.

End TableClaims.


(** * Further properties of the code *)

(** ** Substrings *)

Module IncludesFacts.
Import Js JsFacts Hover.

Lemma append_assoc3 (a b c : string) : (a +:+ b) +:+ c = a +:+ (b +:+ c).
Proof. induction a as [|x a IH]; simpl; [reflexivity|]. rewrite IH. reflexivity. Qed.

Lemma append_empty_r (a : string) : a +:+ "" = a.
Proof. induction a as [|x a IH]; simpl; [reflexivity|]. rewrite IH. reflexivity. Qed.

Lemma length_append (a b : string) :
  String.length (a +:+ b) = String.length a + String.length b.
Proof. induction a as [|x a IH]; simpl; [reflexivity|]. rewrite IH. reflexivity. Qed.

Lemma startsWith_longer (p s t : string) :
  startsWith p s = true -> startsWith p (s +:+ t) = true.
Proof.
  intros H. apply startsWith_inv in H as [rest ->].
  rewrite append_assoc3. apply startsWith_app.
Qed.

Lemma includes_of_startsWith (p s : string) :
  startsWith p s = true -> includes p s = true.
Proof. intros H. destruct s; simpl; rewrite H; reflexivity. Qed.

Lemma includes_intro (p a b : string) : includes p (a +:+ p +:+ b) = true.
Proof.
  induction a as [|x a IH].
  - apply includes_of_startsWith. exact (startsWith_app p b).
  - change (String x a +:+ p +:+ b) with (String x (a +:+ p +:+ b)).
    simpl. rewrite IH. apply orb_true_r.
Qed.

Lemma includes_inv (p s : string) :
  includes p s = true -> exists a b, s = a +:+ p +:+ b.
Proof.
  induction s as [|x s IH]; simpl; intros H.
  - rewrite orb_false_r in H. apply startsWith_inv in H as [b Hb]. exists "", b. exact Hb.
  - apply orb_true_iff in H as [H | H].
    + apply startsWith_inv in H as [b Hb]. exists "", b. exact Hb.
    + destruct (IH H) as (a & b & ->). exists (String x a), b. reflexivity.
Qed.

(** [includes] is "occurs somewhere in". *)
Lemma includes_spec (p s : string) :
  includes p s = true <-> exists a b, s = a +:+ p +:+ b.
Proof.
  split; [apply includes_inv|]. intros (a & b & ->). apply includes_intro.
Qed.

Lemma includes_tail (p s : string) (x : ascii) :
  includes p (String x s) = false -> includes p s = false.
Proof. simpl. intros H. apply orb_false_iff in H as [_ H]. exact H. Qed.

Lemma includes_head (p s : string) :
  includes p s = false -> startsWith p s = false.
Proof.
  destruct s; simpl; intros H; apply orb_false_iff in H as [H _]; exact H.
Qed.

End IncludesFacts.

(** ** The frontmatter pattern *)

Module FrontmatterFacts.
Import Js Text JsFacts Completion Hover IncludesFacts.

Local Abbreviation fence := (nl +:+ "---").

Lemma stripPrefix_startsWith (p s : string) :
  stripPrefix p s = None <-> startsWith p s = false.
Proof.
  revert s. induction p as [|a p IH]; intros s; simpl.
  - split; discriminate.
  - destruct s as [|b s]; [split; reflexivity|].
    destruct (Ascii.eqb a b); simpl; [apply IH|split; reflexivity].
Qed.

Lemma stripPrefix_some (p s rest : string) :
  stripPrefix p s = Some rest <-> s = p +:+ rest.
Proof.
  revert s. induction p as [|a p IH]; intros s; simpl.
  - split; [intros [= ->]; reflexivity|intros ->; reflexivity].
  - destruct s as [|b s]; [split; discriminate|].
    destruct (Ascii.eqb_spec a b) as [-> | Hne].
    + rewrite IH. split; [intros ->; reflexivity|intros [= ->]; reflexivity].
    + split; [discriminate|]. intros [= Hab _]. congruence.
Qed.

(** What the scan for the end of the frontmatter returns. *)
Lemma frontmatterContent_sound (rest content : string) (closing : nat) :
  frontmatterContent rest = (content, closing) ->
  exists close tail,
    rest = content +:+ close +:+ tail
    /\ closing = String.length close
    /\ (close = fence \/ (tail = "" /\ (close = nl \/ close = "")))
    /\ includes fence content = false.
Proof.
  revert content closing. induction rest as [|c r IH]; intros content closing.
  - simpl. intros [= <- <-]. exists "", "". repeat split. right. auto.
  - unfold frontmatterContent; fold frontmatterContent.
    destruct (startsWith (nl +:+ "---") (String c r)) eqn:Hfence.
    + intros [= <- <-]. apply startsWith_inv in Hfence as [tail Htail].
      exists fence, tail. repeat split; [exact Htail|]. left. reflexivity.
    + destruct (String.eqb_spec (String c r) nl) as [Hnl | Hnl].
      * intros [= <- <-]. exists nl, "". repeat split; [exact Hnl|]. right. auto.
      * destruct (frontmatterContent r) as [content' closing'] eqn:Hr.
        intros [= <- <-].
        destruct (IH content' closing' eq_refl) as (close & tail & -> & Hlen & Hshape & Hnone).
        exists close, tail. repeat split; try assumption.
        change (includes fence (String c content'))
          with (startsWith fence (String c content') || includes fence content').
        rewrite Hnone, orb_false_r.
        destruct (startsWith fence (String c content')) eqn:Hc; [|reflexivity].
        apply (startsWith_longer _ _ (close +:+ tail)) in Hc.
        change (String c content' +:+ close +:+ tail)
          with (String c (content' +:+ close +:+ tail)) in Hc.
        congruence.
Qed.

Lemma fence_not_early (c : ascii) (body tail : string) :
  startsWith fence (String c body) = false ->
  startsWith fence (String c (body +:+ fence +:+ tail)) = false.
Proof.
  change fence with (String LF "---").
  cbn [startsWith].
  destruct (Ascii.eqb LF c); cbn [andb]; [|reflexivity].
  destruct body as [|b1 body]; [reflexivity|].
  cbn [startsWith String.append].
  destruct (Ascii.eqb "-" b1); cbn [andb]; [|reflexivity].
  destruct body as [|b2 body]; [reflexivity|].
  cbn [startsWith String.append].
  destruct (Ascii.eqb "-" b2); cbn [andb]; [|reflexivity].
  destruct body as [|b3 body]; [reflexivity|].
  cbn [startsWith String.append].
  destruct (Ascii.eqb "-" b3); cbn [andb]; [|reflexivity].
  discriminate.
Qed.

Lemma frontmatterContent_closed (body tail : string) :
  includes fence body = false ->
  frontmatterContent (body +:+ fence +:+ tail) = (body, 4).
Proof.
  induction body as [|c body IH]; intros Hnone.
  - reflexivity.
  - change (String c body +:+ fence +:+ tail) with (String c (body +:+ fence +:+ tail)).
    unfold frontmatterContent; fold frontmatterContent.
    change (nl +:+ "---") with fence.
    rewrite (fence_not_early c body tail (includes_head _ _ Hnone)).
    destruct (String.eqb_spec (String c (body +:+ fence +:+ tail)) nl) as [Heq | _].
    + exfalso. injection Heq as _ Heq. destruct body; discriminate.
    + rewrite (IH (includes_tail _ _ _ Hnone)). reflexivity.
Qed.

Lemma frontmatterMatch_sound (text content : string) (frontmatterEnd : nat) :
  frontmatterMatch text = Some (content, frontmatterEnd) ->
  exists close tail,
    text = "---" +:+ nl +:+ content +:+ close +:+ tail
    /\ frontmatterEnd = 4 + String.length content + String.length close
    /\ (close = fence \/ (tail = "" /\ (close = nl \/ close = "")))
    /\ includes fence content = false
    /\ frontmatterEnd <= String.length text.
Proof.
  unfold frontmatterMatch.
  destruct (stripPrefix ("---" +:+ nl) text) as [rest|] eqn:Hstrip; [|discriminate].
  apply stripPrefix_some in Hstrip. subst text.
  destruct (frontmatterContent rest) as [c closing] eqn:Hscan. intros [= <- <-].
  destruct (frontmatterContent_sound rest c closing Hscan)
    as (close & tail & -> & -> & Hshape & Hnone).
  exists close, tail. repeat split; try assumption.
  rewrite !length_append. simpl. lia.
Qed.

(** X1.  A frontmatter match splits the text: the opening line, the
    content, what closes it, the rest.  What closes it is a line feed and
    three dashes, or the end of the text with at most one line feed; the
    content holds no closing fence of its own (it is the shortest), and
    the end offset lies inside the text.  There is no match exactly when
    the text does not begin with three dashes and a line feed. *)
Theorem frontmatter_splits_text (text : string) :
  (forall content frontmatterEnd,
      frontmatterMatch text = Some (content, frontmatterEnd) ->
      exists close tail,
        text = "---" +:+ nl +:+ content +:+ close +:+ tail
        /\ frontmatterEnd = 4 + String.length content + String.length close
        /\ (close = fence \/ (tail = "" /\ (close = nl \/ close = "")))
        /\ includes fence content = false
        /\ frontmatterEnd <= String.length text)
  /\ (frontmatterMatch text = None <-> startsWith ("---" +:+ nl) text = false).
Proof.
  split.
  - intros content frontmatterEnd. apply frontmatterMatch_sound.
  - unfold frontmatterMatch. rewrite <- stripPrefix_startsWith.
    destruct (stripPrefix ("---" +:+ nl) text) as [rest|]; [|tauto].
    destruct (frontmatterContent rest). split; discriminate.
Qed.

Lemma frontmatter_splits_text_witness :
  exists close tail,
    Fixture.agentText
    = "---" +:+ nl +:+ Fixture.agentFrontmatter +:+ close +:+ tail
    /\ 93 = 4 + String.length Fixture.agentFrontmatter + String.length close
    /\ (close = fence \/ (tail = "" /\ (close = nl \/ close = "")))
    /\ includes fence Fixture.agentFrontmatter = false
    /\ 93 <= String.length Fixture.agentText.
Proof.
  apply (proj1 (frontmatter_splits_text Fixture.agentText) Fixture.agentFrontmatter 93).
  vm_compute. reflexivity.
Defined.

(** X2.  Round trip: a document written as the opening line, a body
    that holds no closing fence, the closing fence and anything after it
    gives back that body, and the match ends right after the fence. *)
Theorem frontmatter_round_trip (body tail : string) :
  includes fence body = false ->
  frontmatterMatch ("---" +:+ nl +:+ body +:+ fence +:+ tail)
  = Some (body, String.length body + 8).
Proof.
  intros Hnone. unfold frontmatterMatch.
  assert (stripPrefix ("---" +:+ nl) ("---" +:+ nl +:+ body +:+ fence +:+ tail)
          = Some (body +:+ fence +:+ tail)) as -> by reflexivity.
  rewrite (frontmatterContent_closed body tail Hnone). f_equal. f_equal. lia.
Qed.

Lemma frontmatter_round_trip_witness :
  frontmatterMatch ("---" +:+ nl +:+ "model: x" +:+ fence +:+ nl +:+ "Body")
  = Some ("model: x", 16).
Proof.
  apply (frontmatter_round_trip "model: x" (nl +:+ "Body")). vm_compute. reflexivity.
Defined.

End FrontmatterFacts.

(** ** The completion provider beyond the top level *)

Module ProviderFacts.
Import Js Text Exn Blocks Completion JsFacts CompletionFacts.

Lemma trimStart_head (s : string) (c : ascii) (r : string) :
  trimStart s = String c r -> isSpace c = false.
Proof.
  induction s as [|x s IH]; simpl; [discriminate|].
  destruct (isSpace x) eqn:Hx; [exact IH|]. intros [= <- _]. exact Hx.
Qed.

(** A blank string has nothing left after its leading whitespace. *)
Lemma blank_trimStart (s : string) : trim s = "" -> trimStart s = "".
Proof.
  unfold trim. destruct (trimStart s) as [|c r] eqn:Hs; [reflexivity|].
  intros H. exfalso. exact (trimEnd_cons_nonspace c r (trimStart_head s c r Hs) H).
Qed.



(** Every way through the provider ends in a return. *)
Lemma afterMcpServers_returns (T : Schema.Tables) (h : Host.t)
      (document : Host.TextDocument) (frontmatter linePrefix : string) (indent : nat)
      (inSubagents inTools : bool) :
  exists items,
    afterMcpServers T h document frontmatter linePrefix indent inSubagents inTools
    = Returned items.
Proof.
  unfold afterMcpServers.
  repeat match goal with
         | |- context [if ?c then _ else _] => destruct c
         end; try (eexists; reflexivity).
  unfold Discovery.getAgentUseFiles.
  rewrite DiscoveryFacts.getAgentUseFilesWith_returns. eexists. reflexivity.
Qed.

Lemma provideWith_returns
      (opensMcp : string -> bool)
      (suggest : Schema.Tables -> nat -> string -> option (list Item.t))
      (T : Schema.Tables) (h : Host.t)
      (document : Host.TextDocument) (position : Host.Position) :
  exists items, provideWith opensMcp suggest T h document position = Returned items.
Proof.
  unfold provideWith.
  destruct (frontmatterMatch (Host.getText document)) as [[frontmatter frontmatterEnd]|].
  - destruct ((Host.offsetAt document position <? 4)
              || (frontmatterEnd <? Host.offsetAt document position));
      [eexists; reflexivity|].
    destruct (matchesKeyOnly "model:" _); [eexists; reflexivity|].
    destruct (matchesCommandValue _); [eexists; reflexivity|].
    destruct (if isInBlock opensMcp (Host.line position) frontmatter then _ else None);
      [eexists; reflexivity|].
    apply afterMcpServers_returns.
  - destruct ((Host.line position =? 0) && _); eexists; reflexivity.
Qed.




Lemma wordRun_is_word (s w rest : string) :
  wordRun s = (w, rest) -> forallb isWord (list_ascii_of_string w) = true.
Proof.
  revert w rest. induction s as [|c r IH]; intros w rest; simpl.
  - intros [= <- _]. reflexivity.
  - destruct (isWord c) eqn:Hc.
    + destruct (wordRun r) as [w' rest'] eqn:Hr. intros [= <- _].
      simpl. rewrite Hc. exact (IH w' rest' eq_refl).
    + intros [= <- _]. reflexivity.
Qed.

Lemma matchKey_is_word (line key : string) :
  matchKey line = Some key -> isWordString key = true.
Proof.
  unfold matchKey. destruct (wordRun line) as [w rest] eqn:Hrun.
  destruct w as [|c w]; [discriminate|].
  destruct rest as [|colon tail]; [discriminate|].
  destruct (Ascii.eqb colon ":"%char); [|discriminate].
  intros [= <-]. unfold isWordString.
  rewrite (wordRun_is_word _ _ _ Hrun). reflexivity.
Qed.

End ProviderFacts.

Module ProviderExtras.
Import Js Text Exn Blocks Completion JsFacts CompletionFacts ProviderFacts.

(** X4.  The completion provider never throws, in either revision: for
    every table set, host, document and position it returns a list. *)
Theorem completion_always_returns
        (T : Schema.Tables) (h : Host.t)
        (document : Host.TextDocument) (position : Host.Position) :
  (exists items, provideCompletionItems T h document position = Returned items)
  /\ (exists items,
         LegacyCompletion.provideCompletionItems T h document position = Returned items).
Proof. split; apply provideWith_returns. Qed.



(** X6.  The set of existing fields holds exactly the words (one or more
    of letters, digits and underscore) that begin a frontmatter line and
    are followed by a colon.  A key with another character in it, a
    hyphen for one, is never in the set, and neither is an indented key. *)
Theorem existing_fields_are_line_start_words (frontmatter key : string) :
  key ∈ getExistingFields frontmatter
  <-> isWordString key = true /\ declares frontmatter key = true.
Proof.
  rewrite getExistingFields_spec. unfold declares. rewrite existsb_exists. split.
  - intros (line & Hin & Hkey).
    pose proof (matchKey_is_word line key Hkey) as Hword.
    split; [exact Hword|]. exists line. split; [exact Hin|].
    apply (matchKey_word key line Hword). exact Hkey.
  - intros (Hword & line & Hin & Hstarts).
    exists line. split; [exact Hin|].
    apply (matchKey_word key line Hword). exact Hstarts.
Qed.

End ProviderExtras.

(** ** Moving the cursor through the frontmatter *)

Module CursorExtras.
Import Js Blocks BlocksFacts.

Lemma firstn_snoc (lines : list string) (n : nat) (line : string) :
  nth_error lines n = Some line -> firstn (S n) lines = firstn n lines ++ [line].
Proof.
  revert n. induction lines as [|x lines IH]; intros n H.
  - destruct n; discriminate.
  - destruct n as [|n]; simpl in *.
    + injection H as ->. reflexivity.
    + f_equal. apply IH. exact H.
Qed.

(** X7.  Moving the cursor one line down applies the loop body once:
    on a line of the frontmatter the classifier's answer is the answer on
    the line above, updated by the line the cursor is now on (for the
    first line, updated from false).  So the opener's own line is in the
    block, a blank or an indented line leaves the answer as it was, and
    any other line that begins without whitespace leaves the block. *)
Theorem classifier_steps_with_cursor
        (opener : string -> bool) (frontmatter : string) (L : nat) (line : string) :
  nth_error (split LF frontmatter) L = Some line ->
  isInBlock opener (S L) frontmatter
  = stepLine opener (isInBlock opener L frontmatter) line
  /\ (opener line = true -> isInBlock opener (S L) frontmatter = true)
  /\ (opener line = false -> isTerminator line = false ->
      isInBlock opener (S L) frontmatter = isInBlock opener L frontmatter)
  /\ (opener line = false -> isTerminator line = true ->
      isInBlock opener (S L) frontmatter = false).
Proof.
  intros Hline.
  assert (L < List.length (split LF frontmatter)) as Hlt
      by (apply nth_error_Some; congruence).
  assert (isInBlock opener (S L) frontmatter
          = stepLine opener (isInBlock opener L frontmatter) line) as Hstep.
  { rewrite isInBlock_in_bounds by lia.
    replace (S L - 1) with L by lia. unfold scanLines.
    rewrite (firstn_snoc _ _ _ Hline), fold_left_app. simpl. f_equal.
    destruct L as [|k].
    - rewrite isInBlock_out_of_bounds by lia. reflexivity.
    - rewrite isInBlock_in_bounds by lia.
      replace (S k - 1) with k by lia. reflexivity. }
  split; [exact Hstep|]. rewrite Hstep. unfold stepLine, isTerminator.
  repeat split.
  - intros ->. reflexivity.
  - intros -> Hterm. rewrite <- andb_assoc, Hterm, andb_false_r. reflexivity.
  - intros -> Hterm. rewrite <- andb_assoc, Hterm, andb_true_r.
    destruct (isInBlock opener L frontmatter); reflexivity.
Qed.

Lemma classifier_steps_with_cursor_witness :
  isInSubagentsBlock 7 Fixture.agentFrontmatter
  = isInSubagentsBlock 6 Fixture.agentFrontmatter.
Proof.
  apply (proj1 (proj2 (proj2 (classifier_steps_with_cursor
                                opensSubagents Fixture.agentFrontmatter 6 ""
                                ltac:(vm_compute; reflexivity)))));
    vm_compute; reflexivity.
Defined.

End CursorExtras.

(** ** Paths, names and the two commands *)

Module SplitFacts.
Import Js JsFacts IncludesFacts.

Lemma substring_split (s : string) (n : nat) :
  n <= String.length s ->
  s = substring 0 n s +:+ substring n (String.length s - n) s.
Proof.
  revert n. induction s as [|c s IH]; intros n Hn.
  - destruct n; simpl in Hn; [reflexivity|lia].
  - destruct n as [|n]; simpl String.length.
    + cbn [substring Nat.sub String.append]. f_equal.
      clear. induction s as [|d s IH]; simpl; [reflexivity|]. f_equal. exact IH.
    + cbn [substring Nat.sub String.append]. f_equal. apply IH. simpl in Hn. lia.
Qed.

Lemma endsWith_inv (s suffix : string) :
  endsWith s suffix = true -> exists front, s = front +:+ suffix.
Proof.
  unfold endsWith. intros H. apply andb_true_iff in H as [Hlen Heq].
  apply Nat.leb_le in Hlen. apply String.eqb_eq in Heq.
  exists (substring 0 (String.length s - String.length suffix) s).
  pose proof (substring_split s (String.length s - String.length suffix)
                              ltac:(lia)) as Hsplit.
  replace (String.length s - (String.length s - String.length suffix))
    with (String.length suffix) in Hsplit by lia.
  rewrite Heq in Hsplit. exact Hsplit.
Qed.

Lemma substring_suffix (front suffix : string) :
  substring (String.length front) (String.length suffix) (front +:+ suffix) = suffix.
Proof.
  induction front as [|c front IH]; simpl.
  - induction suffix as [|d suffix IH]; simpl; [reflexivity|]. f_equal. exact IH.
  - exact IH.
Qed.

Lemma endsWith_app (front suffix : string) : endsWith (front +:+ suffix) suffix = true.
Proof.
  unfold endsWith. rewrite length_append. apply andb_true_iff. split.
  - apply Nat.leb_le. lia.
  - replace (String.length front + String.length suffix - String.length suffix)
      with (String.length front) by lia.
    rewrite substring_suffix. apply String.eqb_refl.
Qed.

Definition free (sep : ascii) (s : string) : Prop := ~ In sep (list_ascii_of_string s).

Lemma split_free (sep : ascii) (s : string) : free sep s -> split sep s = [s].
Proof.
  unfold free. induction s as [|c s IH]; simpl; intros H; [reflexivity|].
  destruct (Ascii.eqb_spec c sep) as [-> | _]; [exfalso; apply H; left; reflexivity|].
  rewrite IH by (intros Hin; apply H; right; exact Hin). reflexivity.
Qed.

(** Every piece that [split] returns is free of the separator. *)
Lemma split_pieces_free (sep : ascii) (s piece : string) :
  In piece (split sep s) -> free sep piece.
Proof.
  revert piece. induction s as [|c s IH]; simpl; intros piece H.
  - destruct H as [<- | []]. intros [].
  - destruct (Ascii.eqb_spec c sep) as [-> | Hne].
    + destruct H as [<- | H]; [intros []|apply IH; exact H].
    + destruct (split sep s) as [|h t] eqn:Hs.
      * destruct H as [<- | []]. intros [Heq | []]. congruence.
      * destruct H as [<- | H].
        -- intros [Heq | Hin]; [congruence|].
           apply (IH h (or_introl eq_refl)). exact Hin.
        -- apply IH. right. exact H.
Qed.

(** A separator-free piece and a separator come off the front. *)
Lemma split_app_sep (sep : ascii) (piece rest : string) :
  free sep piece -> split sep (piece +:+ String sep rest) = piece :: split sep rest.
Proof.
  unfold free. induction piece as [|c piece IH]; intros Hfree.
  - simpl. rewrite Ascii.eqb_refl. reflexivity.
  - change (String c piece +:+ String sep rest) with (String c (piece +:+ String sep rest)).
    cbn [split].
    destruct (Ascii.eqb_spec c sep) as [-> | _]; [exfalso; apply Hfree; left; reflexivity|].
    rewrite IH by (intros Hin; apply Hfree; right; exact Hin). reflexivity.
Qed.

(** Appending separator-free text extends the last piece. *)
Lemma split_app_free (sep : ascii) (front suffix : string) :
  free sep suffix ->
  split sep (front +:+ suffix)
  = removelast (split sep front) ++ [List.last (split sep front) "" +:+ suffix].
Proof.
  intros Hfree. induction front as [|c front IH].
  - simpl. apply split_free. exact Hfree.
  - change (String c front +:+ suffix) with (String c (front +:+ suffix)).
    cbn [split]. rewrite IH.
    pose proof (split_nonempty sep front) as Hne.
    destruct (Ascii.eqb c sep).
    + destruct (split sep front) as [|h t]; [contradiction|]. reflexivity.
    + destruct (split sep front) as [|h [|x t]]; [contradiction| |]; reflexivity.
Qed.

Lemma last_snoc {A} (l : list A) (x d : A) : List.last (l ++ [x]) d = x.
Proof.
  induction l as [|y l IH]; [reflexivity|].
  simpl. destruct (l ++ [x]) eqn:E; [destruct l; discriminate|]. exact IH.
Qed.

(** A string is a directory part, empty or ending in the separator,
    followed by its last piece. *)
Lemma last_piece_splits (sep : ascii) (s : string) :
  exists dir,
    s = dir +:+ List.last (split sep s) ""
    /\ ((dir = "" /\ split sep s = [s])
        \/ (exists d, dir = d +:+ String sep "") /\ 2 <= List.length (split sep s)).
Proof.
  induction s as [|c s IH].
  - exists "". split; [reflexivity|]. left. split; reflexivity.
  - destruct IH as (dir & Hs & Hshape). cbn [split].
    pose proof (split_nonempty sep s) as Hne.
    destruct (Ascii.eqb_spec c sep) as [-> | Hc].
    + exists (String sep dir). split.
      * destruct (split sep s) as [|h t]; [contradiction|].
        change (List.last ("" :: h :: t) "") with (List.last (h :: t) "").
        simpl. f_equal. exact Hs.
      * right. split.
        -- destruct Hshape as [[-> _] | [[d ->] _]].
           ++ exists "". reflexivity.
           ++ exists (String sep d). reflexivity.
        -- destruct (split sep s); [contradiction|]. simpl. lia.
    + destruct (split sep s) as [|h t] eqn:Hsplit; [contradiction|].
      destruct Hshape as [[-> Hone] | [[d ->] Hlen]].
      * injection Hone as -> ->. exists "". split; [reflexivity|]. left. split; reflexivity.
      * destruct t as [|x t]; [simpl in Hlen; lia|].
        exists (String c (d +:+ String sep "")). split.
        -- change (List.last (String c h :: x :: t) "") with (List.last (x :: t) "").
           change (List.last (h :: x :: t) "") with (List.last (x :: t) "") in Hs.
           simpl. f_equal. exact Hs.
        -- right. split; [exists (String c d); reflexivity|simpl; lia].
Qed.

End SplitFacts.

(** ** A frontmatter without its closing fence *)

Module FrontmatterExtras.
Import Js Text JsFacts Completion Hover IncludesFacts FrontmatterFacts SplitFacts.

Local Abbreviation fence := (nl +:+ "---").

Lemma endsWith_cons (c : ascii) (s suffix : string) :
  endsWith s suffix = true -> endsWith (String c s) suffix = true.
Proof.
  intros H. apply endsWith_inv in H as [front ->].
  change (String c (front +:+ suffix)) with (String c front +:+ suffix).
  apply endsWith_app.
Qed.

(** The scan stops before a line feed that ends the text. *)
Lemma frontmatterContent_final_lf (body : string) :
  includes fence (body +:+ nl) = false ->
  frontmatterContent (body +:+ nl) = (body, 1).
Proof.
  induction body as [|c body IH]; intros Hnone; [reflexivity|].
  change (String c body +:+ nl) with (String c (body +:+ nl)) in *.
  unfold frontmatterContent; fold frontmatterContent.
  change (nl +:+ "---") with fence.
  rewrite (includes_head _ _ Hnone).
  destruct (String.eqb_spec (String c (body +:+ nl)) nl) as [Heq | _].
  - exfalso. injection Heq as _ Heq. destruct body; discriminate.
  - rewrite (IH (includes_tail _ _ _ Hnone)). reflexivity.
Qed.

(** Without a final line feed the scan runs to the end. *)
Lemma frontmatterContent_to_end (rest : string) :
  includes fence rest = false -> endsWith rest nl = false ->
  frontmatterContent rest = (rest, 0).
Proof.
  induction rest as [|c rest IH]; intros Hnone Hopen; [reflexivity|].
  unfold frontmatterContent; fold frontmatterContent.
  change (nl +:+ "---") with fence.
  rewrite (includes_head _ _ Hnone).
  destruct (String.eqb_spec (String c rest) nl) as [Heq | _].
  - rewrite Heq in Hopen. discriminate.
  - rewrite IH; [reflexivity|exact (includes_tail _ _ _ Hnone)|].
    destruct (endsWith rest nl) eqn:Hrest; [|reflexivity].
    rewrite (endsWith_cons c rest nl Hrest) in Hopen. discriminate.
Qed.

(** X3.  A frontmatter that is never closed runs to the end of the
    document: the match ends at the length of the text, and the content
    is everything after the opening line, less one final line feed.
    When what follows the opening line ends in a line feed, the content
    is that text without the line feed; when it does not, the content is
    that text. *)
Theorem unclosed_frontmatter_runs_to_end (rest : string) :
  includes fence rest = false ->
  (forall body,
      rest = body +:+ nl ->
      frontmatterMatch ("---" +:+ nl +:+ rest)
      = Some (body, String.length ("---" +:+ nl +:+ rest)))
  /\ (endsWith rest nl = false ->
      frontmatterMatch ("---" +:+ nl +:+ rest)
      = Some (rest, String.length ("---" +:+ nl +:+ rest)))
  /\ (endsWith rest nl = true <-> exists body, rest = body +:+ nl).
Proof.
  intros Hnone.
  assert (forall content closing,
             frontmatterContent rest = (content, closing) ->
             String.length content + closing = String.length rest ->
             frontmatterMatch ("---" +:+ nl +:+ rest)
             = Some (content, String.length ("---" +:+ nl +:+ rest))) as Hmatch.
  { intros content closing Hscan Hlen. unfold frontmatterMatch.
    assert (stripPrefix ("---" +:+ nl) ("---" +:+ nl +:+ rest) = Some rest) as ->
        by reflexivity.
    rewrite Hscan. f_equal. f_equal. simpl. lia. }
  split; [|split].
  - intros body ->. apply (Hmatch body 1).
    + apply frontmatterContent_final_lf. exact Hnone.
    + rewrite length_append. reflexivity.
  - intros Hopen. apply (Hmatch rest 0); [|lia].
    apply frontmatterContent_to_end; assumption.
  - split; [apply endsWith_inv|]. intros [body ->]. apply endsWith_app.
Qed.

Lemma unclosed_frontmatter_runs_to_end_witness :
  frontmatterMatch ("---" +:+ nl +:+ "model: x" +:+ nl +:+ "tools:" +:+ nl)
  = Some ("model: x" +:+ nl +:+ "tools:", 20)
  /\ frontmatterMatch ("---" +:+ nl +:+ "model: x" +:+ nl +:+ "tools:")
     = Some ("model: x" +:+ nl +:+ "tools:", 19).
Proof.
  split.
  - apply (proj1 (unclosed_frontmatter_runs_to_end
                    ("model: x" +:+ nl +:+ "tools:" +:+ nl) eq_refl)
                 ("model: x" +:+ nl +:+ "tools:")).
    reflexivity.
  - apply (proj1 (proj2 (unclosed_frontmatter_runs_to_end
                           ("model: x" +:+ nl +:+ "tools:") eq_refl))).
    reflexivity.
Defined.

End FrontmatterExtras.

(** ** The run command and the shell *)

Module ShellFacts.
Import Js Text Terminal Commands JsFacts SplitFacts.

(** The line of the run command: its first two fields are the command
    and [run], the others are the fields of the path. *)
Lemma fields_of_line (path : string) :
  Shell.fields (Shell.commandLine "agentuse" ["run"; path])
  = "agentuse" :: "run" :: Shell.fields path.
Proof.
  unfold Shell.fields, Shell.commandLine.
  change (String.concat " " ["agentuse"; "run"; path])
    with ("agentuse" +:+ String " " ("run" +:+ String " " path)).
  rewrite split_app_sep by (vm_compute; intuition discriminate).
  rewrite split_app_sep by (vm_compute; intuition discriminate).
  reflexivity.
Qed.

Lemma line_is_plain (path : string) :
  forallb (fun c => Shell.plain c || Ascii.eqb c " ")
          (list_ascii_of_string (Shell.commandLine "agentuse" ["run"; path]))
  = forallb (fun c => Shell.plain c || Ascii.eqb c " ") (list_ascii_of_string path).
Proof. reflexivity. Qed.

(** A word without a blank is its own and only field. *)
Lemma fields_of_word (word : string) :
  free " " word -> word <> "" -> Shell.fields word = [word].
Proof.
  intros Hfree Hne. unfold Shell.fields. rewrite (split_free _ _ Hfree). simpl.
  destruct word as [|c word]; [contradiction|reflexivity].
Qed.

Lemma fields_are_free (line field : string) :
  In field (Shell.fields line) -> free " " field.
Proof.
  unfold Shell.fields. intros H. apply filter_In in H as [H _].
  exact (split_pieces_free _ _ _ H).
Qed.

Lemma runAction_agent (h : Host.t) (child : ChildProcess) (document : Host.TextDocument) :
  endsWith (Host.fsPath document) ".agentuse" = true ->
  runAction h child (Some document)
  = run (Some document) ++ snd (open h child (create (Host.fsPath document))).
Proof.
  intros Hends. unfold runAction. rewrite TerminalClaims.created_run, Hends.
  cbn [map concat]. rewrite app_nil_r. reflexivity.
Qed.

End ShellFacts.

Module ShellClaims.
Import Js Text Terminal Commands JsFacts SplitFacts ShellFacts.

(** C1.  The run action calls [cp.spawn] once, with the command
    [agentuse] and the argument list [run], path, but with the option
    [shell]: the command that runs is what the shell makes of the line
    [agentuse run] followed by the path as it is, without quotes.  For a
    path of plain characters and blanks that ends in [.agentuse], the
    command is [agentuse] and its arguments are [run] and the fields of
    the path; that is the argument list [run], path exactly when the
    path holds no blank.  A path with a blank reaches [agentuse] cut in
    pieces, against the claim. *)
Theorem shell_splits_the_path
        (h : Host.t) (child : ChildProcess) (document : Host.TextDocument) :
  endsWith (Host.fsPath document) ".agentuse" = true ->
  forallb (fun c => Shell.plain c || Ascii.eqb c " ")
          (list_ascii_of_string (Host.fsPath document)) = true ->
  spawned (runAction h child (Some document))
  = [("agentuse", ["run"; Host.fsPath document])]
  /\ (forall command args options,
         In (Spawn command args options) (runAction h child (Some document)) ->
         shell options = true)
  /\ executed (runAction h child (Some document))
     = [Some ("agentuse" :: "run" :: Shell.fields (Host.fsPath document))]
  /\ (Shell.fields (Host.fsPath document) = [Host.fsPath document]
      <-> ~ In " "%char (list_ascii_of_string (Host.fsPath document))).
Proof.
  intros Hends Hplain.
  split; [apply (proj2 (TerminalClaims.run_calls_spawn_once h child) document Hends)|].
  rewrite (runAction_agent h child document Hends).
  split; [|split].
  - intros command args options Hin. apply in_app_or in Hin as [Hin | Hin].
    + unfold run in Hin. rewrite Hends in Hin. simpl in Hin.
      destruct Hin as [H | [H | [H | []]]]; discriminate.
    + simpl in Hin. destruct Hin as [H | [H | [H | []]]]; try discriminate.
      injection H as _ _ <-. reflexivity.
  - unfold run. rewrite Hends. cbn [negb app executed omap open snd create filePath].
    unfold executed. cbn [omap list_omap spawnOptions shell]. unfold Shell.argv.
    rewrite line_is_plain, Hplain, fields_of_line. reflexivity.
  - split.
    + intros Hone. apply (fields_are_free (Host.fsPath document)).
      rewrite Hone. left. reflexivity.
    + intros Hfree. apply fields_of_word; [exact Hfree|].
      intros Hempty. rewrite Hempty in Hends. discriminate.
Qed.

(** The path [/ws/my agent.agentuse]: [agentuse] gets three arguments,
    [run], [/ws/my] and [agent.agentuse]. *)
Lemma shell_splits_the_path_witness :
  executed (runAction Fixture.host Fixture.child
                      (Some (Fixture.textDocument "/ws/my agent.agentuse" Fixture.agentText)))
  = [Some ["agentuse"; "run"; "/ws/my"; "agent.agentuse"]]
  /\ Shell.fields "/ws/my agent.agentuse" <> ["/ws/my agent.agentuse"].
Proof.
  destruct (shell_splits_the_path
              Fixture.host Fixture.child
              (Fixture.textDocument "/ws/my agent.agentuse" Fixture.agentText)
              eq_refl eq_refl) as (_ & _ & Hexecuted & Hone).
  split; [exact Hexecuted|].
  intros H. apply (proj1 Hone H). vm_compute. do 6 right. left. reflexivity.
Defined.

End ShellClaims.

Module CommandExtras.
Import Js Text Terminal Commands JsFacts IncludesFacts SplitFacts.

(** X8.  The name of a run terminal.  For a path that ends in
    [.agentuse] the file name the command takes is the part of the path
    after its last slash: the path is a directory part (empty or ending
    in a slash) followed by the name, the name holds no slash and it ends
    in [.agentuse] itself, so the fallback name [output] is never used
    for a terminal the command creates. *)
Theorem run_names_terminal_after_file (document : Host.TextDocument) :
  endsWith (Host.fsPath document) ".agentuse" = true ->
  exists dir name,
    Host.fsPath document = dir +:+ name
    /\ (dir = "" \/ exists d, dir = d +:+ "/")
    /\ ~ In "/"%char (list_ascii_of_string name)
    /\ endsWith name ".agentuse" = true
    /\ fileNameOf (Host.fsPath document) = name
    /\ run (Some document)
       = [ Save (Host.fsPath document);
           CreateTerminal ("AgentUse: " +:+ name) (create (Host.fsPath document));
           Show true ].
Proof.
  intros Hends.
  destruct (last_piece_splits "/"%char (Host.fsPath document)) as (dir & Hpath & Hshape).
  set (name := List.last (split "/"%char (Host.fsPath document)) "") in *.
  assert (free "/"%char name) as Hfree.
  { apply (split_pieces_free "/"%char (Host.fsPath document)).
    subst name.
    pose proof (split_nonempty "/"%char (Host.fsPath document)) as Hne.
    destruct (split "/"%char (Host.fsPath document)) as [|h t] eqn:E; [contradiction|].
    rewrite (app_removelast_last "" (l := h :: t)) at 2 by discriminate.
    apply in_or_app. right. left. reflexivity. }
  assert (endsWith name ".agentuse" = true) as Hname.
  { destruct (endsWith_inv _ _ Hends) as [front Hfront].
    subst name. rewrite Hfront.
    rewrite (split_app_free "/"%char front ".agentuse")
      by (unfold free; simpl; intuition discriminate).
    rewrite last_snoc. apply endsWith_app. }
  assert (fileNameOf (Host.fsPath document) = name) as Hfile.
  { unfold fileNameOf. fold name.
    destruct name as [|c n]; [discriminate|]. reflexivity. }
  exists dir, name. repeat split; try assumption.
  - destruct Hshape as [[-> _] | [[d ->] _]]; [left; reflexivity|right; exists d; reflexivity].
  - unfold run. rewrite Hends, Hfile. reflexivity.
Qed.

Lemma run_names_terminal_after_file_witness :
  exists dir name,
    "/ws/main.agentuse" = dir +:+ name
    /\ (dir = "" \/ exists d, dir = d +:+ "/")
    /\ ~ In "/"%char (list_ascii_of_string name)
    /\ endsWith name ".agentuse" = true
    /\ fileNameOf "/ws/main.agentuse" = name
    /\ run (Some Fixture.agent)
       = [ Save "/ws/main.agentuse";
           CreateTerminal ("AgentUse: " +:+ name) (create "/ws/main.agentuse");
           Show true ].
Proof. apply (run_names_terminal_after_file Fixture.agent). reflexivity. Defined.

(** X9.  The two commands fit: every terminal the run command creates
    bears a name that the close command accepts, so with that terminal
    active the close command disposes it. *)
Theorem close_command_disposes_run_terminals
        (activeTextEditor : option Host.TextDocument) (name : string) (pty : Pty) :
  In (CreateTerminal name pty) (run activeTextEditor) ->
  closeTerminal (Some name) = [Dispose].
Proof.
  destruct activeTextEditor as [document|]; simpl.
  - unfold run. destruct (endsWith (Host.fsPath document) ".agentuse"); simpl.
    + intros [H | [H | [H | []]]]; try discriminate.
      injection H as <- _. reflexivity.
    + intros [H | []]. discriminate.
  - intros [H | []]. discriminate.
Qed.

Lemma close_command_disposes_run_terminals_witness :
  closeTerminal (Some "AgentUse: main.agentuse") = [Dispose].
Proof.
  apply (close_command_disposes_run_terminals
           (Some Fixture.agent) "AgentUse: main.agentuse" (create "/ws/main.agentuse")).
  right. left. reflexivity.
Defined.

End CommandExtras.

(** ** The terminal over time *)

Module TerminalExtras.
Import Js Text Terminal JsFacts IncludesFacts.

Lemma replaceLF_app (a b : string) : replaceLF (a +:+ b) = replaceLF a +:+ replaceLF b.
Proof.
  induction a as [|c a IH]; [reflexivity|].
  change (String c a +:+ b) with (String c (a +:+ b)). cbn [replaceLF].
  rewrite IH. destruct (Ascii.eqb c LF); reflexivity.
Qed.

Lemma replaceLF_head (s : string) :
  match replaceLF s with
  | String c _ => c <> LF
  | EmptyString => True
  end.
Proof.
  destruct s as [|c s]; simpl; [exact I|].
  destruct (Ascii.eqb_spec c LF) as [-> | Hne]; [discriminate|exact Hne].
Qed.

(** The rewriting loses nothing: the text can be told from what is
    shown. *)
Lemma replaceLF_injective (a b : string) : replaceLF a = replaceLF b -> a = b.
Proof.
  revert b. induction a as [|c a IH]; intros [|d b]; simpl.
  - reflexivity.
  - destruct (Ascii.eqb d LF); discriminate.
  - destruct (Ascii.eqb c LF); discriminate.
  - destruct (Ascii.eqb_spec c LF) as [-> | Hc], (Ascii.eqb_spec d LF) as [-> | Hd].
    + intros [= H]. f_equal. apply IH. exact H.
    + intros [= <- H]. pose proof (replaceLF_head b) as Hb. rewrite <- H in Hb.
      exfalso. apply Hb. reflexivity.
    + intros [= -> H]. pose proof (replaceLF_head a) as Ha. rewrite H in Ha.
      exfalso. apply Ha. reflexivity.
    + intros [= -> H]. f_equal. apply IH. exact H.
Qed.

(** X10.  Line feeds are rewritten chunk by chunk, with no memory of the
    chunk before, and each chunk is decoded by itself.  What the display
    gets for two chunks, one after the other, is the rewriting of their
    two texts joined; it is what the display gets for the one chunk of
    their bytes together exactly when [toString] splits at the cut, as
    it does between two characters and does not inside a character of
    several bytes.  A chunk whose text holds CR LF is shown with CR CR
    LF. *)
Theorem line_feeds_are_rewritten_per_chunk
        (h : Host.t) (t : Pty) (p : ChildProcess) (a b : Host.Buffer) :
  process t = Some p -> stdout p = true ->
  exists x y,
    onStdout h t a = [Fire x] /\ onStdout h t b = [Fire y]
    /\ x +:+ y = replaceLF (Host.bufferToString h a +:+ Host.bufferToString h b)
    /\ (onStdout h t (a ++ b) = [Fire (x +:+ y)]
        <-> Host.bufferToString h (a ++ b)
            = Host.bufferToString h a +:+ Host.bufferToString h b)
    /\ (forall before after,
           Host.bufferToString h a = before +:+ crlf +:+ after ->
           x = replaceLF before +:+ String CR crlf +:+ replaceLF after).
Proof.
  intros Hp Hout.
  exists (replaceLF (Host.bufferToString h a)), (replaceLF (Host.bufferToString h b)).
  unfold onStdout. rewrite Hp, Hout. rewrite <- replaceLF_app.
  split; [reflexivity|]. split; [reflexivity|]. split; [reflexivity|]. split.
  - split.
    + intros [= H]. apply replaceLF_injective. exact H.
    + intros ->. reflexivity.
  - intros before after ->. rewrite !replaceLF_app. reflexivity.
Qed.

Lemma line_feeds_are_rewritten_per_chunk_witness :
  exists x y,
    onStdout Fixture.host Fixture.running (Fixture.bytes ("a" +:+ crlf)) = [Fire x]
    /\ onStdout Fixture.host Fixture.running (Fixture.bytes "b") = [Fire y]
    /\ x +:+ y = "a" +:+ String CR crlf +:+ "b".
Proof.
  destruct (line_feeds_are_rewritten_per_chunk
              Fixture.host Fixture.running Fixture.child
              (Fixture.bytes ("a" +:+ crlf)) (Fixture.bytes "b") eq_refl eq_refl)
    as (x & y & Hx & Hy & Hxy & _ & _).
  exists x, y. split; [exact Hx|]. split; [exact Hy|]. rewrite Hxy. reflexivity.
Defined.

(** X11.  Ctrl+C and the [killed] flag.  With a child that is alive,
    Ctrl+C delivers the signal and [kill] sets the flag: a second Ctrl+C
    does nothing, closing the terminal sends no signal of its own, and
    other input is still written to the child's standard input.  With a
    child that has ended, [kill] delivers nothing and the flag stays
    unset: every Ctrl+C calls [kill] and prints its echo again, the
    terminal staying as it was, and closing the terminal calls [kill]
    too. *)
Theorem second_interrupt_depends_on_delivery (t : Pty) (p : ChildProcess) :
  process t = Some p -> killed p = false ->
  (alive p = true ->
   handleInput (fst (handleInput t CtrlC)) CtrlC = (fst (handleInput t CtrlC), [])
   /\ close (fst (handleInput t CtrlC)) = (fst (handleInput t CtrlC), [])
   /\ (forall data, data <> CtrlC -> stdin p = true ->
                    handleInput (fst (handleInput t CtrlC)) data
                    = (fst (handleInput t CtrlC), [StdinWrite data])))
  /\ (alive p = false ->
      handleInput t CtrlC = (t, [Kill (Some "SIGINT"); Fire ("^C" +:+ crlf)])
      /\ close t = (t, [Kill None])).
Proof.
  intros Hp Hk. split; intros Ha.
  - assert (fst (handleInput t CtrlC)
            = {| filePath := filePath t;
                 process := Some {| killed := true; alive := true; stdin := stdin p;
                                    stdout := stdout p; stderr := stderr p |} |}) as ->.
    { unfold handleInput, kill. rewrite String.eqb_refl, Hp, Hk, Ha. reflexivity. }
    split; [reflexivity|]. split; [reflexivity|].
    intros data Hne Hin. unfold handleInput. apply String.eqb_neq in Hne.
    rewrite Hne. simpl. rewrite Hin. reflexivity.
  - assert ({| filePath := filePath t; process := Some (kill p) |} = t) as Hsame.
    { unfold kill. rewrite Ha. destruct t as [path process]. simpl in *. congruence. }
    unfold handleInput, close. rewrite String.eqb_refl, Hp, Hk. simpl.
    rewrite Hsame. split; reflexivity.
Qed.

Lemma second_interrupt_depends_on_delivery_witness :
  close (fst (handleInput Fixture.running CtrlC)) = (fst (handleInput Fixture.running CtrlC), [])
  /\ handleInput (ended Fixture.running) CtrlC
     = (ended Fixture.running, [Kill (Some "SIGINT"); Fire ("^C" +:+ crlf)]).
Proof.
  split.
  - apply (proj1 (second_interrupt_depends_on_delivery
                    Fixture.running Fixture.child eq_refl eq_refl) eq_refl).
  - apply (proj2 (second_interrupt_depends_on_delivery
                    (ended Fixture.running)
                    {| killed := false; alive := false; stdin := true;
                       stdout := true; stderr := true |} eq_refl eq_refl) eq_refl).
Defined.

(** X12.  The environment of the spawned process: [FORCE_COLOR] is [1]
    and [TERM] is [xterm-256color] whatever the editor's own environment
    says, every other variable is the editor's, the command runs through
    a shell, and the working directory is the first workspace folder, if
    there is one. *)
Theorem spawn_environment (h : Host.t) (child : ChildProcess) (t : Pty) :
  In (Spawn "agentuse" ["run"; filePath t] (spawnOptions h)) (snd (open h child t))
  /\ shell (spawnOptions h) = true
  /\ cwd (spawnOptions h) = Host.firstWorkspaceFolder h
  /\ env (spawnOptions h) !! "FORCE_COLOR" = Some "1"
  /\ env (spawnOptions h) !! "TERM" = Some "xterm-256color"
  /\ (forall name, name <> "FORCE_COLOR" -> name <> "TERM" ->
                   env (spawnOptions h) !! name = Host.env h !! name).
Proof.
  split; [right; right; left; reflexivity|].
  split; [reflexivity|]. split; [reflexivity|]. unfold spawnOptions. cbn [env].
  split; [|split].
  - rewrite lookup_insert_ne by discriminate. apply lookup_insert_eq.
  - apply lookup_insert_eq.
  - intros name Hcolor Hterm.
    rewrite lookup_insert_ne by congruence. apply lookup_insert_ne. congruence.
Qed.

Lemma spawn_environment_witness :
  env (spawnOptions Samples.hostWithEnv) !! "TERM" = Some "xterm-256color"
  /\ env (spawnOptions Samples.hostWithEnv) !! "PATH" = Some "/usr/bin".
Proof.
  destruct (spawn_environment Samples.hostWithEnv Fixture.child Fixture.running)
    as (_ & _ & _ & _ & Hterm & Hrest).
  split; [exact Hterm|].
  rewrite (Hrest "PATH") by discriminate. vm_compute. reflexivity.
Defined.

End TerminalExtras.

(** ** Every run of requests *)

Module TraceExtras.
Import Js Text Exn Terminal Commands Extension Trace.

Definition agentPaths (s : State) : Prop :=
  Forall (fun t => endsWith (filePath t) ".agentuse" = true) (terminals s).

Definition unopened (s : State) : Prop :=
  Forall (fun t => process t = None) (terminals s).

Lemma onTerminal_keeps (P : Pty -> Prop) (s : State) (i : nat)
      (f : Pty -> Pty * list Effect) :
  (forall t, P t -> P (fst (f t))) ->
  Forall P (terminals s) -> Forall P (terminals (fst (onTerminal s i f))).
Proof.
  intros Hf Hall. unfold onTerminal.
  destruct (terminals s !! i) as [t|] eqn:Hi; [|exact Hall].
  pose proof (Hf t (Forall_lookup_1 _ _ _ _ Hall Hi)) as Ht.
  destruct (f t) as [t' effects]. simpl in *.
  apply Forall_insert; assumption.
Qed.

Lemma onTerminal_effects (s : State) (i : nat) (f : Pty -> Pty * list Effect) (e : Effect) :
  In e (effectsOf (snd (onTerminal s i f))) ->
  exists t, terminals s !! i = Some t /\ In e (snd (f t)).
Proof.
  unfold onTerminal. destruct (terminals s !! i) as [t|]; [|intros []].
  destruct (f t) as [t' effects] eqn:Hf. simpl. intros Hin.
  exists t. rewrite Hf. split; [reflexivity|exact Hin].
Qed.

Lemma handleInput_path (t : Pty) (data : string) :
  filePath (fst (handleInput t data)) = filePath t.
Proof.
  unfold handleInput.
  destruct (String.eqb data CtrlC), (process t) as [p|]; try reflexivity.
  - destruct (killed p); reflexivity.
  - destruct (stdin p); reflexivity.
Qed.

Lemma close_path (t : Pty) : filePath (fst (close t)) = filePath t.
Proof.
  unfold close. destruct (process t) as [p|]; [|reflexivity].
  destruct (killed p); reflexivity.
Qed.

Lemma handle_keeps_paths (provide : Provider) (h : Host.t) (s : State) (r : Request) :
  agentPaths s -> agentPaths (fst (handleWith provide h s r)).
Proof.
  intros Hs. unfold agentPaths in *.
  destruct r; simpl; try exact Hs;
    try (apply onTerminal_keeps; [intros t Ht; simpl; try exact Ht|exact Hs]).
  - apply Forall_app. split; [exact Hs|].
    rewrite TerminalClaims.created_run.
    destruct activeTextEditor as [document|]; [|constructor].
    destruct (endsWith (Host.fsPath document) ".agentuse") eqn:Hends; constructor;
      [exact Hends|constructor].
  - rewrite handleInput_path. exact Ht.
  - rewrite close_path. exact Ht.
Qed.

Lemma spawn_in_response (provide : Provider) (h : Host.t) (s : State) (r : Request)
      (command : string) (args : list string) (options : SpawnOptions) :
  In (Spawn command args options) (effectsOf (snd (handleWith provide h s r))) ->
  exists t i, terminals s !! i = Some t
              /\ command = "agentuse" /\ args = ["run"; filePath t]
              /\ options = spawnOptions h.
Proof.
  destruct r; simpl; try (intros []).
  - unfold run. destruct activeTextEditor as [document|]; simpl.
    + destruct (endsWith (Host.fsPath document) ".agentuse"); simpl;
        intuition discriminate.
    + intuition discriminate.
  - unfold closeTerminal. destruct activeTerminal as [name|]; [|intros []].
    destruct (startsWith "AgentUse:" name); [intros [H|[]]; discriminate|intros []].
  - intros Hin. apply onTerminal_effects in Hin as (t & Hi & Hin).
    exists t, terminal. split; [exact Hi|].
    simpl in Hin. destruct Hin as [H | [H | [H | []]]]; try discriminate.
    injection H as <- <- <-. repeat split.
  - intros Hin. apply onTerminal_effects in Hin as (t & _ & Hin). exfalso.
    unfold handleInput in Hin.
    destruct (String.eqb data CtrlC), (process t) as [p|]; simpl in Hin; try contradiction.
    + destruct (killed p); simpl in Hin; intuition discriminate.
    + destruct (stdin p); simpl in Hin; intuition discriminate.
  - intros Hin. apply onTerminal_effects in Hin as (t & _ & Hin). exfalso.
    unfold onStdout in Hin. simpl in Hin.
    destruct (process t) as [p|]; [|contradiction].
    destruct (stdout p); simpl in Hin; intuition discriminate.
  - intros Hin. apply onTerminal_effects in Hin as (t & _ & Hin). exfalso.
    unfold onStderr in Hin. simpl in Hin.
    destruct (process t) as [p|]; [|contradiction].
    destruct (stderr p); simpl in Hin; intuition discriminate.
  - intros Hin. apply onTerminal_effects in Hin as (t & _ & Hin). exfalso.
    unfold onClose in Hin. simpl in Hin.
    destruct (process t) as [p|]; simpl in Hin; intuition discriminate.
  - intros Hin. apply onTerminal_effects in Hin as (t & _ & Hin). exfalso.
    unfold onError in Hin. simpl in Hin.
    destruct (process t) as [p|]; simpl in Hin; intuition discriminate.
  - intros Hin. apply onTerminal_effects in Hin as (t & _ & Hin). exfalso.
    unfold close in Hin.
    destruct (process t) as [p|]; simpl in Hin; [|contradiction].
    destruct (killed p); simpl in Hin; intuition discriminate.
  - intros Hin. apply onTerminal_effects in Hin as (t & _ & Hin). destruct Hin.
Qed.

End TraceExtras.

Module TraceSafety.
Import Js Text Exn Terminal Commands Extension Trace TraceExtras.

Lemma effects_from_agent_paths (provide : Provider) (h : Host.t)
      (requests : list Request) (s : State)
      (command : string) (args : list string) (options : SpawnOptions) :
  agentPaths s ->
  In (Spawn command args options) (effects provide h s requests) ->
  command = "agentuse" /\ options = spawnOptions h
  /\ exists path, args = ["run"; path] /\ endsWith path ".agentuse" = true.
Proof.
  revert s. induction requests as [|r requests IH]; intros s Hs Hin; [destruct Hin|].
  simpl in Hin. apply in_app_or in Hin as [Hin | Hin].
  - apply spawn_in_response in Hin as (t & i & Hi & -> & -> & ->).
    repeat split. exists (filePath t). split; [reflexivity|].
    exact (Forall_lookup_1 _ _ _ _ Hs Hi).
  - apply (IH (fst (handleWith provide h s r))); [|exact Hin].
    apply handle_keeps_paths. exact Hs.
Qed.

(** X13.  Whatever requests the extension serves after it is loaded, and
    in whatever order, every process it spawns is [agentuse run path]
    with a path that ends in [.agentuse], spawned with the options of
    [open]. *)
Theorem only_agent_files_are_run
        (provide : Provider) (h : Host.t) (T : Schema.Tables) (requests : list Request)
        (command : string) (args : list string) (options : SpawnOptions) :
  In (Spawn command args options) (effects provide h (loaded T) requests) ->
  command = "agentuse" /\ options = spawnOptions h
  /\ exists path, args = ["run"; path] /\ endsWith path ".agentuse" = true.
Proof. apply effects_from_agent_paths. constructor. Qed.

Lemma only_agent_files_are_run_witness :
  "agentuse" = "agentuse" /\ spawnOptions Fixture.host = spawnOptions Fixture.host
  /\ exists path, ["run"; "/ws/main.agentuse"] = ["run"; path]
                  /\ endsWith path ".agentuse" = true.
Proof.
  apply (only_agent_files_are_run
           Completion.provideCompletionItems Fixture.host Legacy.tables
           [Run (Some Fixture.notes); Run (Some Fixture.agent); Open 0 Fixture.child]).
  vm_compute. do 6 right. left. reflexivity.
Defined.

Lemma handle_keeps_unopened (provide : Provider) (h : Host.t) (s : State) (r : Request) :
  isOpen r = false -> unopened s -> unopened (fst (handleWith provide h s r)).
Proof.
  intros Hr Hs. unfold unopened in *.
  destruct r; simpl; try discriminate; try exact Hs;
    try (apply onTerminal_keeps; [intros t Ht; simpl; try exact Ht|exact Hs]).
  - apply Forall_app. split; [exact Hs|].
    rewrite TerminalClaims.created_run.
    destruct activeTextEditor as [document|]; [|constructor].
    destruct (endsWith (Host.fsPath document) ".agentuse"); repeat constructor.
  - unfold handleInput. rewrite Ht. destruct (String.eqb data CtrlC); exact Ht.
  - rewrite Ht. reflexivity.
  - unfold close. rewrite Ht. exact Ht.
  - rewrite Ht. reflexivity.
Qed.

Lemma unopened_response (provide : Provider) (h : Host.t) (s : State) (r : Request)
      (e : Effect) :
  isOpen r = false -> unopened s ->
  In e (effectsOf (snd (handleWith provide h s r))) -> touchesProcess e = false.
Proof.
  intros Hr Hs.
  assert (forall i f,
             (forall t, process t = None -> snd (f t) = []) ->
             In e (effectsOf (snd (onTerminal s i f))) -> touchesProcess e = false) as Hterm.
  { intros i f Hf Hin. apply onTerminal_effects in Hin as (t & Hi & Hin).
    rewrite (Hf t (Forall_lookup_1 _ _ _ _ Hs Hi)) in Hin. destruct Hin. }
  destruct r; simpl; try discriminate; try (intros []).
  - unfold run. destruct activeTextEditor as [document|]; simpl.
    + destruct (endsWith (Host.fsPath document) ".agentuse"); simpl;
        intuition (subst; reflexivity).
    + intuition (subst; reflexivity).
  - unfold closeTerminal. destruct activeTerminal as [name|]; [|intros []].
    destruct (startsWith "AgentUse:" name); simpl; intuition (subst; reflexivity).
  - apply Hterm. intros t Ht. unfold handleInput. rewrite Ht.
    destruct (String.eqb data CtrlC); reflexivity.
  - apply Hterm. intros t Ht. unfold onStdout. simpl. rewrite Ht. reflexivity.
  - apply Hterm. intros t Ht. unfold onStderr. simpl. rewrite Ht. reflexivity.
  - apply Hterm. intros t Ht. unfold onClose. simpl. rewrite Ht. reflexivity.
  - apply Hterm. intros t Ht. unfold onError. simpl. rewrite Ht. reflexivity.
  - apply Hterm. intros t Ht. unfold close. rewrite Ht. reflexivity.
  - apply Hterm. intros t Ht. reflexivity.
Qed.

Lemma effects_while_unopened (provide : Provider) (h : Host.t)
      (requests : list Request) (s : State) (e : Effect) :
  forallb (fun r => negb (isOpen r)) requests = true ->
  unopened s ->
  In e (effects provide h s requests) -> touchesProcess e = false.
Proof.
  revert s. induction requests as [|r requests IH]; intros s Hreq Hs Hin; [destruct Hin|].
  simpl in Hreq. apply andb_true_iff in Hreq as [Hr Hreq]. apply negb_true_iff in Hr.
  simpl in Hin. apply in_app_or in Hin as [Hin | Hin].
  - exact (unopened_response provide h s r e Hr Hs Hin).
  - apply (IH (fst (handleWith provide h s r))); try assumption.
    apply handle_keeps_unopened; assumption.
Qed.

(** X14.  Until a terminal is opened the extension touches no process
    and writes nothing to a display: in a run of requests without a
    terminal's [open], whatever is typed, closed or reported, no effect
    is a spawn, a signal, a write to standard input or a write to the
    display.  Input typed before the process exists is dropped. *)
Theorem nothing_before_open
        (provide : Provider) (h : Host.t) (T : Schema.Tables) (requests : list Request)
        (e : Effect) :
  forallb (fun r => negb (isOpen r)) requests = true ->
  In e (effects provide h (loaded T) requests) -> touchesProcess e = false.
Proof. intros Hreq. apply effects_while_unopened; [exact Hreq|constructor]. Qed.

Lemma nothing_before_open_witness :
  touchesProcess (Save "/ws/main.agentuse") = false.
Proof.
  apply (nothing_before_open
           Completion.provideCompletionItems Fixture.host Legacy.tables
           [Run (Some Fixture.agent); Input 0 "y"; Input 0 CtrlC; Close 0]).
  - reflexivity.
  - vm_compute. left. reflexivity.
Defined.

End TraceSafety.

(** ** More on file discovery *)

Module DiscoveryExtras.
Import Js Exn Discovery DiscoveryFacts.

(** X15.  Only the number of levels left matters to the scan, and more
    levels never lose a file: the scan at depth [currentDepth + k] with
    limit [maxDepth + k] returns what the scan at [currentDepth] with
    limit [maxDepth] returns, and with a larger limit every file found
    with the smaller one is found again. *)
Theorem deeper_scan_finds_more (h : Host.t) (dir : string) :
  (forall maxDepth currentDepth k,
      findAgentUseFilesRecursive h dir (maxDepth + k) (currentDepth + k)
      = findAgentUseFilesRecursive h dir maxDepth currentDepth)
  /\ (forall smaller larger found foundMore path,
         smaller <= larger ->
         findAgentUseFilesRecursive h dir smaller 0 = Returned found ->
         findAgentUseFilesRecursive h dir larger 0 = Returned foundMore ->
         In path found -> In path foundMore).
Proof.
  split.
  - intros maxDepth currentDepth k. unfold findAgentUseFilesRecursive.
    f_equal. lia.
  - intros smaller larger found foundMore path Hle Hsmall Hlarge Hin.
    rewrite find_readable in Hsmall, Hlarge.
    injection Hsmall as <-. injection Hlarge as <-.
    rewrite Nat.sub_0_r in *.
    apply readableFiles_complete. apply readableFiles_sound in Hin.
    destruct Hin as (dirs & name & Hlen & Hrest).
    exists dirs, name. split; [lia|exact Hrest].
Qed.

Lemma deeper_scan_finds_more_witness :
  In "/ws/main.agentuse"
     [ "/ws/main.agentuse"; "/ws/agents/helper.agentuse"; "/ws/agents/deep/third.agentuse" ].
Proof.
  apply (proj2 (deeper_scan_finds_more Fixture.host "/ws")
               1 3 ["/ws/main.agentuse"] _ "/ws/main.agentuse");
    [lia|vm_compute; reflexivity|vm_compute; reflexivity|left; reflexivity].
Defined.



End DiscoveryExtras.

(** ** More on hovering *)

Module HoverExtras.
Import Js Text JsObject Hover JsFacts IncludesFacts.

Lemma includes_trans (a b c : string) :
  includes a b = true -> includes b c = true -> includes a c = true.
Proof.
  intros Hab Hbc.
  apply includes_inv in Hab as (x & y & ->).
  apply includes_inv in Hbc as (u & v & ->).
  replace (u +:+ (x +:+ a +:+ y) +:+ v) with ((u +:+ x) +:+ a +:+ (y +:+ v))
    by (rewrite !append_assoc3; reflexivity).
  apply includes_intro.
Qed.

Lemma find_first {A} (f : A -> bool) (before after : list A) (x : A) :
  Forall (fun y => f y = false) before -> f x = true ->
  find f (before ++ x :: after) = Some x.
Proof.
  intros Hbefore Hx. induction Hbefore as [|b before Hb _ IH]; simpl.
  - rewrite Hx. reflexivity.
  - rewrite Hb. exact IH.
Qed.

(** X17.  A model whose label occurs inside a later model's label hides
    it.  On a line with [model:] that names the later model, when the
    word under the cursor is no documented field of that line and no
    entry before the earlier model is the word or occurs in the line,
    the hover is the text of the earlier model, not of the model the
    line names: a line naming [openai:gpt-5-mini] shows
    [openai:gpt-5]. *)
Theorem earlier_model_label_shadows
        (T : Schema.Tables) (document : Host.TextDocument) (position : Host.Position)
        (word : string) (before after : list ModelItem.t) (short long : ModelItem.t) :
  Schema.MODELS T = before ++ short :: after ->
  In long after ->
  includes (ModelItem.label short) (ModelItem.label long) = true ->
  Host.wordAt document position = Some word ->
  includes "model:" (Host.lineAt document (Host.line position)) = true ->
  includes (ModelItem.label long) (Host.lineAt document (Host.line position)) = true ->
  includes (word +:+ ":") (Host.lineAt document (Host.line position)) = false ->
  Forall (fun m => ModelItem.label m <> word
                   /\ includes (ModelItem.label m)
                               (Host.lineAt document (Host.line position)) = false)
         before ->
  provideHover T document position
  = Some (Markdown ("**" +:+ ModelItem.label short +:+ "**" +:+ nl +:+ nl
                    +:+ ModelItem.detail short)).
Proof.
  intros Htable _ Hinside Hword Hmodel Hlong Hcolon Hbefore.
  unfold provideHover. rewrite Hword, Hcolon, Hmodel, Htable.
  rewrite (find_first _ before after short); [reflexivity| |].
  - eapply List.Forall_impl; [|exact Hbefore]. intros m [Hne Hnone]. simpl.
    apply String.eqb_neq in Hne. rewrite Hne, Hnone. reflexivity.
  - rewrite (includes_trans _ _ _ Hinside Hlong). apply orb_true_r.
Qed.

(** With the earlier revision's table, a line that names
    [openai:gpt-5-mini] shows the hover of [openai:gpt-5]. *)
Lemma earlier_model_label_shadows_witness :
  provideHover Legacy.tables (Samples.hovered "model: openai:gpt-5-mini" "mini")
               (Fixture.at_ 0 20)
  = Some (Markdown ("**openai:gpt-5**" +:+ nl +:+ nl +:+ "Most capable OpenAI model")).
Proof.
  apply (earlier_model_label_shadows
           Legacy.tables (Samples.hovered "model: openai:gpt-5-mini" "mini")
           (Fixture.at_ 0 20) "mini"
           (firstn 3 Legacy.MODELS) (skipn 4 Legacy.MODELS)
           (Build.model "openai:gpt-5" "Most capable OpenAI model")
           (Build.model "openai:gpt-5-mini" "Balanced OpenAI model")).
  - reflexivity.
  - left. reflexivity.
  - reflexivity.
  - reflexivity.
  - reflexivity.
  - reflexivity.
  - reflexivity.
  - repeat (constructor; [split; [discriminate|reflexivity]|]). constructor.
Defined.

(** X18.  A word that names a member of [Object.prototype]
    ([constructor], [toString], ...) gets a hover although no table has
    it: when the word is not followed by a colon on its line and the line
    holds no [model:], the lookup in [COMMON_MCP_SERVERS] finds the
    inherited member, and the hover shows the word with [undefined] for
    the detail and for the snippet. *)
Theorem prototype_names_get_a_hover
        (T : Schema.Tables) (document : Host.TextDocument) (position : Host.Position)
        (word : string) :
  Host.wordAt document position = Some word ->
  In word prototypeKeys ->
  ownProperty (Schema.COMMON_MCP_SERVERS T) word = None ->
  includes (word +:+ ":") (Host.lineAt document (Host.line position)) = false ->
  includes "model:" (Host.lineAt document (Host.line position)) = false ->
  provideHover T document position
  = Some (Markdown (serverHover word "undefined" "undefined")).
Proof.
  intros Hword Hproto Hown Hcolon Hmodel.
  unfold provideHover. rewrite Hword, Hcolon, Hmodel.
  unfold get. rewrite Hown.
  assert (existsb (String.eqb word) prototypeKeys = true) as ->; [|reflexivity].
  apply existsb_exists. exists word. split; [exact Hproto|apply String.eqb_refl].
Qed.

Lemma prototype_names_get_a_hover_witness :
  provideHover (Generated.tables []) (Samples.hovered "Call the constructor" "constructor")
               (Fixture.at_ 0 10)
  = Some (Markdown (serverHover "constructor" "undefined" "undefined")).
Proof.
  apply prototype_names_get_a_hover; vm_compute; try reflexivity.
  left. reflexivity.
Defined.

End HoverExtras.

(** ** The inline completion provider *)

Module InlineFacts.
Import Js Text Blocks Completion Inline JsFacts BlocksFacts ProviderFacts.

Lemma previousNonBlank_spec (lines : list string) (bound : nat) (line : string) :
  bound <= List.length lines ->
  previousNonBlank lines bound = Some line <-> nearestAbove lines bound line.
Proof.
  induction bound as [|k IH]; intros Hbound.
  - simpl. split; [discriminate|]. intros (j & Hj & _). lia.
  - simpl. destruct (nth_error lines k) as [l|] eqn:Hk.
    2: { apply nth_error_None in Hk. lia. }
    destruct (String.eqb_spec (trim l) "") as [Hblank | Hfull].
    + rewrite IH by lia. split.
      * intros (j & Hj & Hline & Hne & Hbetween).
        exists j. repeat split; try assumption; [lia|].
        intros m l' Hm Hl'. destruct (Nat.eq_dec m k) as [-> | Hmk].
        -- congruence.
        -- apply (Hbetween m l'); [lia|exact Hl'].
      * intros (j & Hj & Hline & Hne & Hbetween).
        destruct (Nat.eq_dec j k) as [-> | Hjk]; [congruence|].
        exists j. repeat split; try assumption; [lia|].
        intros m l' Hm. apply Hbetween. lia.
    + split.
      * intros [= <-]. exists k. repeat split; try assumption; [lia|].
        intros m l' Hm. lia.
      * intros (j & Hj & Hline & Hne & Hbetween).
        destruct (Nat.eq_dec j k) as [-> | Hjk]; [congruence|].
        exfalso. apply Hfull. apply (Hbetween k l); [lia|exact Hk].
Qed.

Lemma bare_keys_differ (line : string) :
  isBareKey "tools:" line = true -> isBareKey "mcpServers:" line = false.
Proof.
  unfold isBareKey. destruct line as [|c line]; [discriminate|].
  cbn [stripPrefix]. destruct (Ascii.eqb_spec "t" c) as [<- | _]; [reflexivity|discriminate].
Qed.

Lemma space_is_no_word (c : ascii) : isSpace c = true -> isWord c = false.
Proof. destruct c as [[] [] [] [] [] [] [] []]; vm_compute; congruence. Qed.

(** A line that is blank or begins with whitespace starts with no key. *)
Lemma no_key_on_nested_line (line : string) :
  isTerminator line = false -> matchKey line = None.
Proof.
  unfold isTerminator. intros H. apply andb_false_iff in H as [H | H].
  - unfold truthy in H. apply negb_false_iff, String.eqb_eq in H.
    apply blank_trimStart in H. destruct line as [|c r]; [reflexivity|].
    simpl in H. destruct (isSpace c) eqn:Hc; [|discriminate].
    unfold matchKey. simpl. rewrite (space_is_no_word c Hc). reflexivity.
  - apply negb_false_iff in H. destruct line as [|c r]; [discriminate|].
    simpl in H. unfold matchKey. simpl. rewrite (space_is_no_word c H). reflexivity.
Qed.

Definition lastKey (lines : list string) : option string :=
  fold_left (fun current line =>
               match matchKey line with
               | Some key => Some key
               | None => current
               end) lines None.

(** While a classifier's flag is set, the last key seen is the key of
    the opener that set it. *)
Lemma flag_has_key (opener : string -> bool) (names : list string) (lines : list string) :
  (forall line, opener line = true ->
                exists key, matchKey line = Some key /\ In key names) ->
  fold_left (stepLine opener) lines false = true ->
  exists key, lastKey lines = Some key /\ In key names.
Proof.
  intros Hopener. unfold lastKey.
  induction lines as [|x lines IH] using rev_ind; [discriminate|].
  rewrite !fold_left_app. simpl. rewrite stepLine_true. intros [Hx | [Hflag Hterm]].
  - destruct (Hopener x Hx) as (key & -> & Hin). exists key. auto.
  - rewrite (no_key_on_nested_line x Hterm). apply IH. exact Hflag.
Qed.

Lemma classifier_in_context (opener : string -> bool) (names : list string)
      (frontmatter : string) (L : nat) :
  (forall line, opener line = true ->
                exists key, matchKey line = Some key /\ In key names) ->
  isInBlock opener L frontmatter = true ->
  isInBlockContext frontmatter (Z.of_nat L - 1) names = true.
Proof.
  intros Hopener. unfold isInBlock, isInBlockContext.
  destruct ((Z.of_nat L - 1 <? 0)%Z
            || (Z.of_nat (List.length (split LF frontmatter)) <=? Z.of_nat L - 1)%Z);
    [discriminate|].
  unfold scanLines. intros Hflag.
  destruct (flag_has_key opener names _ Hopener Hflag) as (key & Hkey & Hin).
  unfold lastKey in Hkey. rewrite Hkey.
  apply existsb_exists. exists key. split; [exact Hin|apply String.eqb_refl].
Qed.

Lemma key_of_literal (key tail : string) :
  isWordString key = true -> matchKey (key +:+ ":" +:+ tail) = Some key.
Proof.
  intros Hword.
  apply (CompletionFacts.matchKey_word key _ Hword).
  rewrite <- IncludesFacts.append_assoc3. apply startsWith_app.
Qed.

End InlineFacts.

Module InlineExtras.
Import Js Text Blocks Completion Inline JsFacts InlineFacts.

(** X19.  When the inline provider suggests.  With the cursor inside
    the frontmatter on line [L], it returns an item exactly when [L - 1]
    is an index into the frontmatter's lines, the line prefix is all
    whitespace, and the nearest line above that is not blank is the bare
    key [tools:] or the bare key [mcpServers:] (the key, then only
    whitespace).  The item is then the one of that key, indented by the
    line prefix, replacing nothing; the spelling [mcp_servers:] brings no
    suggestion. *)
Theorem inline_suggests_after_bare_key
        (document : Host.TextDocument) (position : Host.Position)
        (frontmatter : string) (frontmatterEnd : nat) :
  frontmatterMatch (Host.getText document) = Some (frontmatter, frontmatterEnd) ->
  4 <= Host.offsetAt document position <= frontmatterEnd ->
  (provideInlineCompletionItems document position <> []
   <-> 1 <= Host.line position <= List.length (split LF frontmatter)
       /\ allSpaces (substringTo (Host.character position)
                                 (Host.lineAt document (Host.line position))) = true
       /\ exists previous,
           nearestAbove (split LF frontmatter) (Host.line position - 1) previous
           /\ (isBareKey "tools:" previous = true
               \/ isBareKey "mcpServers:" previous = true))
  /\ (forall previous,
         1 <= Host.line position <= List.length (split LF frontmatter) ->
         allSpaces (substringTo (Host.character position)
                                (Host.lineAt document (Host.line position))) = true ->
         nearestAbove (split LF frontmatter) (Host.line position - 1) previous ->
         (isBareKey "tools:" previous = true ->
          provideInlineCompletionItems document position
          = [itemAt position
                    (toolsCompletion
                       (substringTo (Host.character position)
                                    (Host.lineAt document (Host.line position))))])
         /\ (isBareKey "mcpServers:" previous = true ->
             provideInlineCompletionItems document position
             = [itemAt position
                       (serverCompletion
                          (substringTo (Host.character position)
                                       (Host.lineAt document (Host.line position))))])).
Proof.
  intros Hmatch Hoffset.
  set (lp := substringTo (Host.character position)
                         (Host.lineAt document (Host.line position))).
  assert (provideInlineCompletionItems document position
          = match afterKey (split LF frontmatter) (Z.of_nat (Host.line position) - 1)
                           lp position with
            | Some items => items
            | None => []
            end) as Hprovide.
  { unfold provideInlineCompletionItems. rewrite Hmatch.
    destruct (Nat.ltb_spec (Host.offsetAt document position) 4); [lia|].
    destruct (Nat.ltb_spec frontmatterEnd (Host.offsetAt document position)); [lia|].
    cbn [orb]. fold lp.
    destruct (afterKey _ _ lp position); [reflexivity|].
    destruct (isInBlockContext _ _ _); reflexivity. }
  rewrite Hprovide. unfold afterKey.
  destruct (Z.leb_spec 0 (Z.of_nat (Host.line position) - 1)) as [Hlow | Hlow].
  2: { cbn [andb]. split.
       - split; [intros H; exfalso; apply H; reflexivity|]. intros (Hin & _). lia.
       - intros previous Hin. lia. }
  destruct (Z.ltb_spec (Z.of_nat (Host.line position) - 1)
                       (Z.of_nat (List.length (split LF frontmatter)))) as [Hhigh | Hhigh].
  2: { cbn [andb]. split.
       - split; [intros H; exfalso; apply H; reflexivity|]. intros (Hin & _). lia.
       - intros previous Hin. lia. }
  cbn [andb].
  replace (Z.to_nat (Z.of_nat (Host.line position) - 1)) with (Host.line position - 1) by lia.
  assert (Host.line position - 1 <= List.length (split LF frontmatter)) as Hbound by lia.
  split.
  - split.
    + destruct (previousNonBlank (split LF frontmatter) (Host.line position - 1))
        as [previous|] eqn:Hp; [|intros H; exfalso; apply H; reflexivity].
      apply (previousNonBlank_spec _ _ _ Hbound) in Hp.
      destruct (allSpaces lp) eqn:Hblank.
      2: { rewrite !andb_false_r. intros H. exfalso. apply H. reflexivity. }
      rewrite !andb_true_r.
      destruct (isBareKey "tools:" previous) eqn:Htools;
        [|destruct (isBareKey "mcpServers:" previous) eqn:Hservers];
        try (intros H; exfalso; apply H; reflexivity);
        intros _; (split; [lia|split; [reflexivity|]]); exists previous; auto.
    + intros (_ & Hblank & previous & Habove & Hkey).
      apply (previousNonBlank_spec _ _ _ Hbound) in Habove.
      rewrite Habove, Hblank, !andb_true_r.
      destruct Hkey as [Hkey | Hkey].
      * rewrite Hkey. discriminate.
      * rewrite Hkey. destruct (isBareKey "tools:" previous); discriminate.
  - intros previous _ Hblank Habove.
    apply (previousNonBlank_spec _ _ _ Hbound) in Habove.
    rewrite Habove, Hblank, !andb_true_r.
    split; intros Hkey.
    + rewrite Hkey. reflexivity.
    + destruct (isBareKey "tools:" previous) eqn:Htools.
      * apply bare_keys_differ in Htools. congruence.
      * rewrite Hkey. reflexivity.
Qed.

(** In the sample the cursor stands two lines under [tools:], after two
    spaces, with a blank line between. *)
Lemma inline_suggests_after_bare_key_witness :
  provideInlineCompletionItems Samples.toolsDocument (Fixture.at_ 4 2)
  = [itemAt (Fixture.at_ 4 2) (toolsCompletion "  ")].
Proof.
  refine (proj1 (proj2 (inline_suggests_after_bare_key
                          Samples.toolsDocument (Fixture.at_ 4 2)
                          Samples.toolsFrontmatter 27
                          ltac:(vm_compute; reflexivity) ltac:(vm_compute; lia))
                       "tools:" ltac:(vm_compute; lia) ltac:(vm_compute; reflexivity) _)
                ltac:(vm_compute; reflexivity)).
  exists 1. split; [vm_compute; lia|]. split; [reflexivity|]. split; [discriminate|].
  intros k l Hk Hl. assert (k = 2) as -> by (simpl in Hk; lia).
  vm_compute in Hl. injection Hl as <-. reflexivity.
Defined.

(** X20.  The inline provider's block test is the weaker one: wherever
    a classifier of the completion provider puts the cursor in its block,
    [isInBlockContext] called with that block's key puts it there too.
    (It ends a block only at the next key, the classifiers at any line
    that begins without whitespace.) *)
Theorem classifiers_imply_block_context (frontmatter : string) (L : nat) (names : list string) :
  (isInSubagentsBlock L frontmatter = true -> In "subagents" names ->
   isInBlockContext frontmatter (Z.of_nat L - 1) names = true)
  /\ (isInToolsBlock L frontmatter = true -> In "tools" names ->
      isInBlockContext frontmatter (Z.of_nat L - 1) names = true)
  /\ (isInMcpServersBlock L frontmatter = true ->
      In "mcp_servers" names -> In "mcpServers" names ->
      isInBlockContext frontmatter (Z.of_nat L - 1) names = true).
Proof.
  split; [|split].
  - intros Hin Hname. apply (classifier_in_context opensSubagents); [|exact Hin].
    intros line Hline. apply startsWith_inv in Hline as [tail ->].
    exists "subagents". split; [apply (key_of_literal "subagents"); reflexivity|exact Hname].
  - intros Hin Hname. apply (classifier_in_context opensTools); [|exact Hin].
    intros line Hline. apply startsWith_inv in Hline as [tail ->].
    exists "tools". split; [apply (key_of_literal "tools"); reflexivity|exact Hname].
  - intros Hin Hsnake Hcamel. apply (classifier_in_context opensMcpServers); [|exact Hin].
    intros line Hline. unfold opensMcpServers in Hline.
    apply orb_true_iff in Hline as [Hline | Hline];
      apply startsWith_inv in Hline as [tail ->].
    + exists "mcp_servers".
      split; [apply (key_of_literal "mcp_servers"); reflexivity|exact Hsnake].
    + exists "mcpServers".
      split; [apply (key_of_literal "mcpServers"); reflexivity|exact Hcamel].
Qed.

Lemma classifiers_imply_block_context_witness :
  isInBlockContext Fixture.agentFrontmatter (Z.of_nat 7 - 1)
                   ["tools"; "mcpServers"; "mcp_servers"; "subagents"] = true.
Proof.
  apply (proj1 (classifiers_imply_block_context
                  Fixture.agentFrontmatter 7
                  ["tools"; "mcpServers"; "mcp_servers"; "subagents"])).
  - vm_compute. reflexivity.
  - simpl. auto.
Defined.

End InlineExtras.

(** ** The combined list of server fields *)

Module CombinedExtras.
Import Combined.

Lemma NoDup_labels_filter (keep : FieldItem.t -> bool) (fields : list FieldItem.t) :
  List.NoDup (labels fields) -> List.NoDup (labels (List.filter keep fields)).
Proof.
  unfold labels. induction fields as [|f fields IH]; simpl; intros H; [constructor|].
  inversion H as [|? ? Hnotin Hrest]; subst.
  destruct (keep f); simpl; [constructor|]; auto.
  intros Hin. apply Hnotin.
  apply in_map_iff in Hin as (g & Hg & Hin). apply filter_In in Hin as [Hin _].
  apply in_map_iff. exists g. auto.
Qed.

Lemma clash_spec (stdio : list FieldItem.t) (f : FieldItem.t) :
  existsb (fun s => String.eqb (FieldItem.label s) (FieldItem.label f)) stdio = true
  <-> In (FieldItem.label f) (labels stdio).
Proof.
  rewrite existsb_exists. unfold labels. rewrite in_map_iff.
  split; intros (s & H1 & H2); exists s.
  - apply String.eqb_eq in H2. auto.
  - split; [exact H2|apply String.eqb_eq; exact H1].
Qed.

Lemma NoDup_append {A} (xs ys : list A) :
  List.NoDup xs -> List.NoDup ys -> (forall x, In x xs -> ~ In x ys) ->
  List.NoDup (xs ++ ys).
Proof.
  intros Hxs Hys Hdisjoint. induction xs as [|x xs IH]; [exact Hys|].
  inversion Hxs as [|? ? Hnotin Hrest]; subst. simpl. constructor.
  - intros Hin. apply in_app_or in Hin as [Hin | Hin]; [contradiction|].
    exact (Hdisjoint x (or_introl eq_refl) Hin).
  - apply IH; [exact Hrest|]. intros y Hy. apply Hdisjoint. right. exact Hy.
Qed.

(** X21.  The combined field list of the generated schema, for any three
    lists: it holds every stdio field, every http field whose label no
    stdio field has, and every shared field, and nothing else.  The http
    fields are the only ones filtered, so the combined labels are
    pairwise distinct when each list's labels are and no shared label is
    a stdio or http label; the list the extension imports is this
    combination of the three lists of [parseMCPServerFields]. *)
Theorem combined_fields_keep_labels_distinct (stdio http shared : list FieldItem.t) :
  (forall f, In f (fieldsAll stdio http shared)
             <-> In f stdio
                 \/ (In f http /\ ~ In (FieldItem.label f) (labels stdio))
                 \/ In f shared)
  /\ (List.NoDup (labels stdio) -> List.NoDup (labels http) -> List.NoDup (labels shared) ->
      (forall f, In f shared ->
                 ~ In (FieldItem.label f) (labels stdio)
                 /\ ~ In (FieldItem.label f) (labels http)) ->
      List.NoDup (labels (fieldsAll stdio http shared)))
  /\ Generated.MCP_SERVER_FIELDS_ALL
     = fieldsAll Generated.stdio Generated.http Generated.shared.
Proof.
  split; [|split; [|reflexivity]].
  - intros f. unfold fieldsAll. rewrite !in_app_iff, filter_In, negb_true_iff.
    rewrite <- (clash_spec stdio f).
    destruct (existsb _ stdio); intuition congruence.
  - intros Hstdio Hhttp Hshared Hfresh. unfold fieldsAll, labels.
    rewrite !map_app. apply NoDup_append; [exact Hstdio| |].
    + apply NoDup_append; [apply NoDup_labels_filter; exact Hhttp|exact Hshared|].
      intros l Hl Hin.
      apply in_map_iff in Hin as (g & <- & Hg).
      apply in_map_iff in Hl as (f & Hfg & Hf). apply filter_In in Hf as [Hf _].
      apply (proj2 (Hfresh g Hg)). apply in_map_iff. exists f. auto.
    + intros l Hl Hin. apply in_app_or in Hin as [Hin | Hin].
      * apply in_map_iff in Hin as (f & <- & Hf).
        apply filter_In in Hf as [_ Hf]. apply negb_true_iff in Hf.
        apply (proj2 (clash_spec stdio f)) in Hl. congruence.
      * apply in_map_iff in Hin as (g & <- & Hg).
        exact (proj1 (Hfresh g Hg) Hl).
Qed.

Lemma combined_fields_keep_labels_distinct_witness :
  List.NoDup (labels (fieldsAll Generated.stdio Generated.http Generated.shared)).
Proof.
  apply (proj1 (proj2 (combined_fields_keep_labels_distinct
                         Generated.stdio Generated.http Generated.shared)));
    [unfold labels; simpl;
     repeat (constructor; [simpl; intuition discriminate|]); constructor ..|].
  intros f Hf. simpl in Hf.
  repeat (destruct Hf as [<- | Hf]; [split; simpl; intuition discriminate|]).
  destruct Hf.
Defined.

End CombinedExtras.

(** ** scripts/sync-cli: reading the permissions *)

Module SyncFacts.
Import Js Text Completion Hover SyncCli JsFacts IncludesFacts SplitFacts FrontmatterFacts.

Lemma startsWith_short (p x y : string) :
  startsWith p (x +:+ y) = true -> String.length p <= String.length x ->
  startsWith p x = true.
Proof.
  revert x. induction p as [|a p IH]; intros x H Hlen; [reflexivity|].
  destruct x as [|b x]; [simpl in Hlen; lia|].
  change (String b x +:+ y) with (String b (x +:+ y)) in H. simpl in *.
  apply andb_true_iff in H as [Hab H]. rewrite Hab. apply IH; [exact H|lia].
Qed.

(** The search passes over a prefix in which the marker does not begin. *)
Lemma matchPermissions_skip (pre rest : string) :
  (forall a b, pre = a +:+ b -> b <> "" -> startsWith permissionMarker (b +:+ rest) = false) ->
  matchPermissions (pre +:+ rest) = matchPermissions rest.
Proof.
  induction pre as [|c pre IH]; intros Hnone; [reflexivity|].
  change (String c pre +:+ rest) with (String c (pre +:+ rest)).
  cbn [matchPermissions].
  assert (permissionsAt (String c (pre +:+ rest)) = None) as ->.
  { unfold permissionsAt.
    assert (stripPrefix permissionMarker (String c (pre +:+ rest)) = None) as ->;
      [|reflexivity].
    apply stripPrefix_startsWith. apply (Hnone "" (String c pre)); [reflexivity|discriminate]. }
  apply IH. intros a b -> Hb. apply (Hnone (String c a) b); [reflexivity|exact Hb].
Qed.

Lemma marker_not_earlier (pre rest : string) :
  includes permissionMarker (pre +:+ markerStem) = false ->
  forall a b, pre = a +:+ b -> b <> "" ->
              startsWith permissionMarker (b +:+ permissionMarker +:+ rest) = false.
Proof.
  intros Hnone a b -> Hb.
  destruct (startsWith permissionMarker (b +:+ permissionMarker +:+ rest)) eqn:H;
    [|reflexivity].
  exfalso.
  change permissionMarker with (markerStem +:+ "[") in H at 2.
  rewrite append_assoc3, <- append_assoc3 in H.
  apply startsWith_short in H.
  - apply startsWith_inv in H as [tail Htail].
    rewrite append_assoc3, Htail in Hnone.
    rewrite includes_intro in Hnone. discriminate.
  - rewrite length_append. destruct b; [contradiction|]. simpl. lia.
Qed.

Lemma runUntilBracket_body (body rest : string) :
  forallb (fun c => negb (Ascii.eqb c "]"%char)) (list_ascii_of_string body) = true ->
  runUntilBracket (body +:+ String "]"%char rest) = (body, String "]"%char rest).
Proof.
  induction body as [|c body IH]; intros H; [reflexivity|].
  simpl in H. apply andb_true_iff in H as [Hc H]. apply negb_true_iff in Hc.
  change (String c body +:+ String "]"%char rest)
    with (String c (body +:+ String "]"%char rest)).
  cbn [runUntilBracket]. rewrite Hc, (IH H). reflexivity.
Qed.

Lemma permissionsAt_marker (body post : string) :
  body <> "" ->
  forallb (fun c => negb (Ascii.eqb c "]"%char)) (list_ascii_of_string body) = true ->
  permissionsAt (permissionMarker +:+ body +:+ "])" +:+ post) = Some body.
Proof.
  intros Hne Hfree. unfold permissionsAt.
  rewrite (proj2 (stripPrefix_some permissionMarker _ (body +:+ "])" +:+ post)) eq_refl).
  change ("])" +:+ post) with (String "]"%char (String ")"%char post)).
  rewrite (runUntilBracket_body body _ Hfree).
  destruct body; [contradiction|]. reflexivity.
Qed.

(** *** Splitting what was joined *)

Lemma split_joined (sep : ascii) (pieces : list string) :
  pieces <> [] -> Forall (free sep) pieces ->
  split sep (String.concat (String sep "") pieces) = pieces.
Proof.
  induction pieces as [|p pieces IH]; intros Hne Hfree; [contradiction|].
  inversion Hfree as [|? ? Hp Hrest]; subst.
  destruct pieces as [|q pieces].
  - simpl. apply split_free. exact Hp.
  - change (String.concat (String sep "") (p :: q :: pieces))
      with (p +:+ String sep (String.concat (String sep "") (q :: pieces))).
    rewrite (split_app_sep sep p _ Hp). f_equal. apply IH; [discriminate|exact Hrest].
Qed.

Lemma concat_prepend (sep p x : string) (xs : list string) :
  String.concat sep ((p +:+ x) :: xs) = p +:+ String.concat sep (x :: xs).
Proof.
  destruct xs as [|y xs]; [reflexivity|].
  change (String.concat sep ((p +:+ x) :: y :: xs))
    with ((p +:+ x) +:+ sep +:+ String.concat sep (y :: xs)).
  change (String.concat sep (x :: y :: xs))
    with (x +:+ sep +:+ String.concat sep (y :: xs)).
  apply append_assoc3.
Qed.

Lemma joined_with_space (first : string) (others : list string) :
  String.concat ", " (first :: others)
  = String.concat "," (first :: map (fun p => " " +:+ p) others).
Proof.
  revert first. induction others as [|o others IH]; intros first; [reflexivity|].
  change (String.concat ", " (first :: o :: others))
    with (first +:+ ", " +:+ String.concat ", " (o :: others)).
  change (String.concat "," (first :: map (fun p => " " +:+ p) (o :: others)))
    with (first +:+ ","
          +:+ String.concat "," ((" " +:+ o) :: map (fun p => " " +:+ p) others)).
  rewrite concat_prepend, IH. reflexivity.
Qed.

(** *** Trimming and unquoting one element *)

Lemma trimEnd_app_nonspace (x : string) (c : ascii) :
  isSpace c = false -> trimEnd (x +:+ String c "") = x +:+ String c "".
Proof.
  intros Hc. induction x as [|a x IH].
  - simpl. rewrite Hc. reflexivity.
  - change (String a x +:+ String c "") with (String a (x +:+ String c "")).
    cbn [trimEnd]. rewrite IH. destruct x; reflexivity.
Qed.

Lemma removeQuotes_plain (name : string) :
  plainName name = true -> removeQuotes name = name.
Proof.
  unfold plainName. induction name as [|c name IH]; simpl; intros H; [reflexivity|].
  apply andb_true_iff in H as [Hc H]. apply negb_true_iff in Hc.
  apply orb_false_iff in Hc as [Hc Hdq]. apply orb_false_iff in Hc as [Hc Hsq].
  rewrite Hsq, Hdq. simpl. f_equal. apply IH. exact H.
Qed.

Lemma removeQuotes_app (a b : string) :
  removeQuotes (a +:+ b) = removeQuotes a +:+ removeQuotes b.
Proof.
  induction a as [|c a IH]; [reflexivity|].
  change (String c a +:+ b) with (String c (a +:+ b)). cbn [removeQuotes].
  rewrite IH. destruct (Ascii.eqb c "'"%char || Ascii.eqb c "034"%char); reflexivity.
Qed.

Definition quotedName (name : string) : string := "'" +:+ name +:+ "'".

Lemma unquote_first (name : string) :
  plainName name = true -> removeQuotes (trim (quotedName name)) = name.
Proof.
  intros Hplain. unfold trim, quotedName.
  change (trimStart ("'" +:+ name +:+ "'")) with ("'" +:+ name +:+ "'").
  rewrite <- append_assoc3.
  rewrite (trimEnd_app_nonspace ("'" +:+ name) "'"%char eq_refl).
  rewrite removeQuotes_app. simpl.
  rewrite (removeQuotes_plain name Hplain). apply append_empty_r.
Qed.

Lemma unquote_other (name : string) :
  plainName name = true -> removeQuotes (trim (" " +:+ quotedName name)) = name.
Proof.
  intros Hplain.
  assert (trim (" " +:+ quotedName name) = trim (quotedName name)) as -> by reflexivity.
  apply unquote_first. exact Hplain.
Qed.

Lemma plain_free (sep : ascii) (name : string) :
  plainName name = true ->
  sep = ","%char \/ sep = "]"%char ->
  free sep (quotedName name) /\ free sep (" " +:+ quotedName name).
Proof.
  intros Hplain Hsep.
  assert (free sep name) as Hname.
  { unfold free, plainName in *. induction name as [|c name IH]; simpl; [tauto|].
    simpl in Hplain. apply andb_true_iff in Hplain as [Hc Hplain].
    apply negb_true_iff in Hc.
    apply orb_false_iff in Hc as [Hc _]. apply orb_false_iff in Hc as [Hc _].
    apply orb_false_iff in Hc as [Hcomma Hbracket].
    intros [Heq | Hin]; [|exact (IH Hplain Hin)].
    destruct Hsep as [-> | ->]; subst c; discriminate. }
  assert (forall c, c <> sep -> free sep (name +:+ String c "")) as Htail.
  { intros c Hc. unfold free in *. clear Hplain.
    induction name as [|d name IH]; simpl.
    - intros [Heq | []]. congruence.
    - intros [Heq | Hin].
      + apply Hname. left. exact Heq.
      + apply IH; [|exact Hin]. intros H. apply Hname. right. exact H. }
  assert ("'"%char <> sep) as Hq by (destruct Hsep as [-> | ->]; discriminate).
  assert (" "%char <> sep) as Hs by (destruct Hsep as [-> | ->]; discriminate).
  unfold quotedName, free. simpl. split.
  - intros [Heq | Hin]; [congruence|]. exact (Htail "'"%char Hq Hin).
  - intros [Heq | [Heq | Hin]]; [congruence|congruence|]. exact (Htail "'"%char Hq Hin).
Qed.

Lemma parsePermissions_written (names : list string) :
  names <> [] -> forallb plainName names = true ->
  parsePermissions (writtenNames names) = names.
Proof.
  intros Hne Hplain. destruct names as [|first others]; [contradiction|].
  simpl in Hplain. apply andb_true_iff in Hplain as [Hfirst Hothers].
  unfold parsePermissions, writtenNames.
  change (map (fun n => "'" +:+ n +:+ "'") (first :: others))
    with (quotedName first :: map quotedName others).
  rewrite joined_with_space, split_joined.
  - cbn [map]. rewrite (unquote_first first Hfirst). f_equal.
    rewrite !map_map. clear Hne Hfirst.
    induction others as [|o others IH]; [reflexivity|].
    simpl in Hothers. apply andb_true_iff in Hothers as [Ho Hothers].
    cbn [map]. rewrite (unquote_other o Ho). f_equal. apply IH. exact Hothers.
  - discriminate.
  - constructor; [apply (plain_free ","%char first Hfirst); left; reflexivity|].
    rewrite map_map. clear Hne Hfirst.
    induction others as [|o others IH]; [constructor|].
    simpl in Hothers. apply andb_true_iff in Hothers as [Ho Hothers].
    constructor; [apply (plain_free ","%char o Ho); left; reflexivity|apply IH; exact Hothers].
Qed.

Lemma written_has_no_bracket (names : list string) :
  forallb plainName names = true ->
  forallb (fun c => negb (Ascii.eqb c "]"%char)) (list_ascii_of_string (writtenNames names))
  = true.
Proof.
  intros Hplain.
  assert (forall s, free "]"%char s ->
                    forallb (fun c => negb (Ascii.eqb c "]"%char)) (list_ascii_of_string s)
                    = true) as Hfree.
  { unfold free. induction s as [|c s IH]; simpl; intros H; [reflexivity|].
    destruct (Ascii.eqb_spec c "]"%char) as [-> | _];
      [exfalso; apply H; left; reflexivity|].
    apply IH. intros Hin. apply H. right. exact Hin. }
  apply Hfree. clear Hfree.
  assert (forall a b, free "]"%char a -> free "]"%char b -> free "]"%char (a +:+ b)) as Happ.
  { unfold free. intros a b Ha Hb. induction a as [|c a IH]; simpl; [exact Hb|].
    intros [Heq | Hin]; [apply Ha; left; exact Heq|].
    apply IH; [|exact Hin]. intros H. apply Ha. right. exact H. }
  unfold writtenNames.
  change (map (fun n => "'" +:+ n +:+ "'") names) with (map quotedName names).
  induction names as [|n names IH]; [intros []|].
  simpl in Hplain. apply andb_true_iff in Hplain as [Hn Hplain].
  destruct names as [|m names].
  - simpl. apply (plain_free "]"%char n Hn). right. reflexivity.
  - change (String.concat ", " (map quotedName (n :: m :: names)))
      with (quotedName n +:+ ", " +:+ String.concat ", " (map quotedName (m :: names))).
    apply Happ; [apply (plain_free "]"%char n Hn); right; reflexivity|].
    apply Happ; [unfold free; simpl; intuition discriminate|].
    apply IH. exact Hplain.
Qed.

End SyncFacts.

Module SyncExtras.
Import Js Text Completion Hover SyncCli JsFacts IncludesFacts SplitFacts SyncFacts.

(** X22.  Round trip of the permission names.  When the tool's source
    declares the permission schema as the marker, the names written one
    after the other in single quotes with a comma and a space between,
    and the closing bracket and parenthesis, and the marker does not
    begin earlier in the text, [parseToolsConfig] reads back exactly
    those names, in order, for every non-empty list of names free of
    commas, closing brackets and quotes; and it puts them, joined by a
    comma and a space, into the detail of the [permissions] field. *)
Theorem permissions_round_trip (before after : string) (names : list string) :
  names <> [] ->
  forallb plainName names = true ->
  includes permissionMarker (before +:+ markerStem) = false ->
  permissions (parseToolsConfig
                 (before +:+ permissionMarker +:+ writtenNames names +:+ "])" +:+ after))
  = names
  /\ In (Build.field "permissions"
                     ("Allowed operations: " +:+ String.concat ", " names)
                     ("permissions:" +:+ nl +:+ "        - read"))
        (filesystemFields
           (parseToolsConfig
              (before +:+ permissionMarker +:+ writtenNames names +:+ "])" +:+ after))).
Proof.
  intros Hne Hplain Hearlier.
  assert (matchPermissions
            (before +:+ permissionMarker +:+ writtenNames names +:+ "])" +:+ after)
          = Some (writtenNames names)) as Hmatch.
  { rewrite matchPermissions_skip by (apply marker_not_earlier; exact Hearlier).
    assert (permissionsAt (permissionMarker +:+ writtenNames names +:+ "])" +:+ after)
            = Some (writtenNames names)) as Hat.
    { apply permissionsAt_marker; [|apply written_has_no_bracket; exact Hplain].
      destruct names as [|n names]; [contradiction|].
      unfold writtenNames. destruct names; discriminate. }
    destruct (permissionMarker +:+ writtenNames names +:+ "])" +:+ after) eqn:E;
      [discriminate|].
    cbn [matchPermissions]. rewrite Hat. reflexivity. }
  unfold parseToolsConfig. rewrite Hmatch.
  rewrite (parsePermissions_written names Hne Hplain). cbn [permissions filesystemFields].
  split; [reflexivity|]. right. right. left. reflexivity.
Qed.

Lemma permissions_round_trip_witness :
  permissions
    (parseToolsConfig
       ("export const " +:+ permissionMarker
        +:+ writtenNames ["read"; "write"; "edit"; "delete"] +:+ "])" +:+ ";"))
  = ["read"; "write"; "edit"; "delete"].
Proof.
  apply (permissions_round_trip "export const " ";" ["read"; "write"; "edit"; "delete"]);
    [discriminate|vm_compute; reflexivity|vm_compute; reflexivity].
Defined.

Lemma permissionsAt_needs_marker (s : string) :
  startsWith permissionMarker s = false -> permissionsAt s = None.
Proof.
  intros H. unfold permissionsAt.
  rewrite (proj2 (FrontmatterFacts.stripPrefix_startsWith permissionMarker s) H).
  reflexivity.
Qed.

(** X23.  Without the schema the permissions fall back: when the marker
    occurs nowhere in the text, and also when the only marker is followed
    by an empty array, [parseToolsConfig] answers read, write, edit. *)
Theorem permissions_fall_back (content : string) :
  (includes permissionMarker content = false ->
   permissions (parseToolsConfig content) = ["read"; "write"; "edit"])
  /\ (forall before after,
         includes permissionMarker (before +:+ markerStem) = false ->
         includes permissionMarker after = false ->
         permissions (parseToolsConfig (before +:+ permissionMarker +:+ "])" +:+ after))
         = ["read"; "write"; "edit"]).
Proof.
  assert (forall s, includes permissionMarker s = false -> matchPermissions s = None) as Hnone.
  { induction s as [|c s IH]; intros H.
    - reflexivity.
    - cbn [matchPermissions].
      rewrite (permissionsAt_needs_marker _ (includes_head _ _ H)).
      apply IH. exact (includes_tail _ _ _ H). }
  split.
  - intros H. unfold parseToolsConfig. rewrite (Hnone content H). reflexivity.
  - intros before after Hbefore Hafter. unfold parseToolsConfig.
    rewrite matchPermissions_skip by (apply marker_not_earlier; exact Hbefore).
    assert (matchPermissions (permissionMarker +:+ "])" +:+ after) = None) as ->;
      [|reflexivity].
    change (permissionMarker +:+ "])" +:+ after)
      with (String "F"%char ("ilesystemPermissionSchema = z.enum([" +:+ "])" +:+ after)).
    cbn [matchPermissions].
    assert (permissionsAt
              (String "F"%char ("ilesystemPermissionSchema = z.enum([" +:+ "])" +:+ after))
            = None) as -> by reflexivity.
    rewrite <- append_assoc3.
    rewrite matchPermissions_skip; [apply Hnone; exact Hafter|].
    intros a b Hab Hb.
    assert (free "F"%char b) as Hfree.
    { assert (free "F"%char (a +:+ b)) as Hall
          by (rewrite <- Hab; unfold free; simpl; intuition discriminate).
      unfold free in *. intros Hin. apply Hall. clear Hall Hab.
      induction a as [|c a IH]; [exact Hin|]. right. exact IH. }
    destruct b as [|c b]; [contradiction|].
    change (String c b +:+ after) with (String c (b +:+ after)).
    unfold permissionMarker. cbn [startsWith].
    destruct (Ascii.eqb_spec "F"%char c) as [<- | _]; [|reflexivity].
    exfalso. apply Hfree. left. reflexivity.
Qed.

Lemma permissions_fall_back_witness :
  permissions (parseToolsConfig "export const other = 1;") = ["read"; "write"; "edit"].
Proof.
  apply (proj1 (permissions_fall_back "export const other = 1;")).
  vm_compute. reflexivity.
Defined.

End SyncExtras.

(** ** Value completions *)

Module ValueExtras.
Import Js Text Exn Blocks Completion JsFacts CompletionFacts ProviderFacts.





End ValueExtras.
